(** * RunReel: the video-generation orchestration client

    A shallow embedding of
    - [src/services/enhancedTavusService.ts] (class [EnhancedTavusService]),
    - [src/services/tavusService.ts] (class [TavusService], the older client),
    - [src/hooks/useEnhancedVideoGeneration.ts] (the React hook that drives
      the session state shown by the UI),
    and the properties of the specification checked against them.

    Conventions.
    - Everything the outside world decides (clock readings of [Date.now()],
      HTTP replies of the provider, replies of the auth service, the id the
      database gives a new row) is an explicit input.
    - Everything the code does to the outside world (database writes, HTTP
      requests, timed waits) is recorded, in order, in a list of [Effect]s.
    - The table applies every insert and update it is sent, except an
      insert whose reply is an error.
    - The methods are [async]: the effects of calls that overlap reach
      the table in some interleaving of their logs.
    - Milliseconds read from the clock are integers ([Z]).  The poll
      intervals are JavaScript numbers obtained by multiplying by 1.3 and
      1.5; they are modelled as exact rationals ([Q]), kept in lowest terms
      so that equal numbers are equal terms. *)

From Stdlib Require Import ZArith QArith Qminmax Lqa Lia.
From Stdlib Require Import String List Bool DecimalString Sorted.
From stdpp Require Import gmap strings.
Import ListNotations.

Local Open Scope string_scope.
Local Open Scope list_scope.
Local Open Scope Z_scope.

(** ** JavaScript values used by the code *)

(** [${n}] for an integer [n]. *)
Definition string_of_Z (z : Z) : string := NilZero.string_of_int (Z.to_int z).

(** [Math.round(ms / 1000)] for an integer number of milliseconds:
    rounding to nearest, halves upwards. *)
Definition round_seconds (ms : Z) : Z := (ms + 500) / 1000.

(** Truthiness of an optional string: [undefined], [null] and the empty
    string are falsy. *)
Definition truthy (o : option string) : bool :=
  match o with
  | Some s => negb (String.eqb s "")
  | None => false
  end.

(** [a || b] on optional strings. *)
Definition js_or (a b : option string) : option string :=
  if truthy a then a else b.

(** [a || d] where [d] is a string literal. *)
Definition js_or_default (a : option string) (d : string) : string :=
  match a with
  | Some s => if String.eqb s "" then d else s
  | None => d
  end.

(** [s.includes(sub)]. *)
Fixpoint includes (sub s : string) : bool :=
  if String.prefix sub s then true
  else match s with
       | EmptyString => false
       | String _ s' => includes sub s'
       end.

(** Product and minimum of two numbers, in lowest terms. *)
Definition nmul (a b : Q) : Q := Qred (a * b).
Definition nmin (a b : Q) : Q := Qred (Qmin a b).

(** ** Interfaces of [enhancedTavusService.ts] *)

Inductive TavusStatus : Type :=
| st_pending | st_queued | st_processing | st_completed | st_failed | st_error.

Definition status_name (s : TavusStatus) : string :=
  match s with
  | st_pending => "pending" | st_queued => "queued"
  | st_processing => "processing" | st_completed => "completed"
  | st_failed => "failed" | st_error => "error"
  end.

Record TavusResponse : Type := {
  video_id : string;
  status : TavusStatus;
  video_url : option string;
  preview_url : option string;
  thumbnail_url : option string;
  hosted_url : option string;
  download_url : option string
}.

Record VideoGenerationResult : Type := {
  success : bool;
  videoUrl : option string;
  thumbnailUrl : option string;
  videoId : option string;
  error : option string;
  attempts_made : option nat;
  total_time : option Z;
  queue_time : option Z;
  suggestion : option string
}.

(** [POLLING_CONFIG]. *)
Record PollingConfig : Type := {
  maxAttempts : nat;
  initialInterval : Q;
  maxInterval : Q;
  backoffMultiplier : Q;
  totalTimeout : Z;
  queueTimeout : Z;
  peakUsageThreshold : Z
}.

Definition POLLING_CONFIG : PollingConfig := {|
  maxAttempts := 60;
  initialInterval := 5000;
  maxInterval := 20000;
  backoffMultiplier := 13 # 10;
  totalTimeout := 600000;
  queueTimeout := 180000;
  peakUsageThreshold := 180
|}.

(** ** The world as the service sees it *)

(** The JSON body of [GET /videos/{id}]. *)
Record StatusBody : Type := {
  b_video_id : string;
  b_status : TavusStatus;
  b_hosted_url : option string;
  b_download_url : option string;
  b_thumbnail_url : option string
}.

(** What a [fetch] of the status can do: answer 2xx with a body, answer
    with another HTTP status, or reject (network error; the [Error]'s
    message). *)
Inductive GetReply : Type :=
| GetOk (body : StatusBody)
| GetHttpError (code : Z) (statusText errorText : string)
| GetThrows (message : string).

(** One turn of the poll loop as the world supplies it: the clock at the
    top of the turn, the provider's reply, and the clock once the reply
    has been read. *)
Record PollTick : Type := {
  now_top : Z;
  reply : GetReply;
  now_after : Z
}.

(** A JSON value of the request bodies the services send. *)
Inductive JVal : Type :=
| JStr (s : string)
| JBool (b : bool)
| JNull.

Definition Payload : Type := list (string * JVal).

(** The status column of [video_generations]. *)
Inductive RecStatus : Type :=
| rec_pending | rec_processing | rec_completed | rec_failed.

Global Instance RecStatus_eq_dec : EqDecision RecStatus.
Proof. solve_decision. Defined.

(** A row of [video_generations] (the key [id] is the key of the table). *)
Record VideoGenerationRecord : Type := {
  user_id : string;
  run_id : string;
  rstatus : RecStatus;
  script_content : string;
  tavus_job_id : option string;
  rvideo_url : option string;
  error_message : option string
}.

(** The fields of an [.update({...})]: the status is always set, the other
    columns only when the update names them. *)
Record Patch : Type := {
  set_status : RecStatus;
  set_tavus_job_id : option string;
  set_video_url : option string;
  set_error_message : option string
}.

Inductive Effect : Type :=
| DbInsert (id : string) (row : VideoGenerationRecord)
| DbInsertRefused (row : VideoGenerationRecord)
| DbUpdateById (id : string) (p : Patch)
| DbUpdateWhere (owner : string) (statuses : list RecStatus) (p : Patch)
| HttpPost (url : string) (body : Payload)
| HttpGet (url : string)
| Sleep (ms : Q).

(** ** [getVideoStatus] *)

Definition baseUrl : string := "https://tavusapi.com/v2".

Definition api_key_missing_message : string :=
  "Tavus API key is missing. Please set EXPO_PUBLIC_TAVUS_API_KEY in your environment variables.".

Definition tavus_api_error (code : Z) (statusText : string) : string :=
  "Tavus API error: " +:+ string_of_Z code +:+ " " +:+ statusText.

(** Returns the effects, and either the message of the thrown [Error] or
    the response. *)
Definition getVideoStatus (apiKey videoId : string) (r : GetReply)
  : list Effect * (string + TavusResponse) :=
  if String.eqb apiKey "" then ([], inl api_key_missing_message)
  else
    let get := HttpGet (baseUrl +:+ "/videos/" +:+ videoId) in
    match r with
    | GetHttpError code statusText errorText =>
        ([get], inl (tavus_api_error code statusText +:+ " - " +:+ errorText))
    | GetThrows message => ([get], inl message)
    | GetOk data =>
        ([get], inr {| video_id := b_video_id data;
                       status := b_status data;
                       video_url := b_download_url data;
                       preview_url := b_hosted_url data;
                       hosted_url := b_hosted_url data;
                       download_url := b_download_url data;
                       thumbnail_url := b_thumbnail_url data |})
    end.

(** ** [pollVideoCompletionEnhanced] *)

Section Polling.

Variable cfg : PollingConfig.
Variable apiKey : string.
(** The [videoId] parameter. *)
Variable vid : string.
(** [startTime], the clock when the loop is entered; [queueStartTime] is
    the same reading. *)
Variable startTime : Z.

(** The variables the loop updates. *)
Record PollState : Type := {
  attempts : nat;
  currentInterval : Q;
  queuePhase : bool
}.

Definition poll_init : PollState :=
  {| attempts := 0; currentInterval := initialInterval cfg; queuePhase := true |}.

(** The result returned when the elapsed time is over [totalTimeout]. *)
Definition timeout_result (attempts : nat) (elapsedTime : Z) : VideoGenerationResult :=
  {| success := false; videoUrl := None; thumbnailUrl := None;
     videoId := Some vid;
     error := Some ("Video generation timeout after "
                    +:+ string_of_Z (round_seconds elapsedTime)
                    +:+ " seconds. This can happen during peak usage periods.");
     attempts_made := Some attempts;
     total_time := Some (round_seconds elapsedTime);
     queue_time := None;
     suggestion := Some "Check your Tavus dashboard or try again during off-peak hours (early morning/late evening)" |}.

(** The result returned after the loop, when [attempts] has reached
    [maxAttempts]. *)
Definition max_attempts_result (attempts : nat) : VideoGenerationResult :=
  {| success := false; videoUrl := None; thumbnailUrl := None;
     videoId := Some vid;
     error := Some ("Video generation timeout - exceeded maximum polling attempts ("
                    +:+ string_of_Z (Z.of_nat (maxAttempts cfg))
                    +:+ "). Video may still be processing.");
     attempts_made := Some attempts;
     total_time := None;
     queue_time := None;
     suggestion := Some "Video may still be processing. Check your Tavus dashboard manually or try again in a few minutes." |}.

(** The result returned when the provider reports [failed] or [error]. *)
Definition provider_failed_result (attempts : nat) (elapsedTime : Z) (s : TavusStatus)
  : VideoGenerationResult :=
  {| success := false; videoUrl := None; thumbnailUrl := None;
     videoId := Some vid;
     error := Some ("Video generation failed with status: " +:+ status_name s);
     attempts_made := Some attempts;
     total_time := Some (round_seconds elapsedTime);
     queue_time := None;
     suggestion := None |}.

(** The result returned from the [catch] on the last allowed attempt. *)
Definition polling_failed_result (attempts : nat) (message : string) : VideoGenerationResult :=
  {| success := false; videoUrl := None; thumbnailUrl := None;
     videoId := Some vid;
     error := Some ("Polling failed after " +:+ string_of_Z (Z.of_nat attempts)
                    +:+ " attempts: " +:+ message);
     attempts_made := Some attempts;
     total_time := None;
     queue_time := None;
     suggestion := None |}.

Definition completed_result (attempts : nat) (elapsedTime : Z) (queuePhase : bool)
    (now : Z) (url : option string) (r : TavusResponse) : VideoGenerationResult :=
  {| success := true; videoUrl := url; thumbnailUrl := thumbnail_url r;
     videoId := Some vid;
     error := None;
     attempts_made := Some attempts;
     total_time := Some (round_seconds elapsedTime);
     queue_time := Some (if queuePhase then elapsedTime
                         else round_seconds (now - startTime));
     suggestion := None |}.

(** [statusResult.hosted_url || statusResult.download_url || statusResult.video_url] *)
Definition usable_url (r : TavusResponse) : option string :=
  js_or (js_or (hosted_url r) (download_url r)) (video_url r).

(** The wait before the next attempt: longer while the job is queued. *)
Definition pollInterval (queuePhase : bool) (currentInterval : Q) : Q :=
  if queuePhase then nmin (nmul currentInterval (3 # 2)) 30000
  else currentInterval.

(** [Math.min(currentInterval * backoffMultiplier, maxInterval)] *)
Definition next_interval (currentInterval : Q) : Q :=
  nmin (nmul currentInterval (backoffMultiplier cfg)) (maxInterval cfg).

(** One turn of the [while] body: either the function returns, or the
    loop goes on with new variables. *)
Definition poll_turn (t : PollTick) (s : PollState)
  : list Effect * (VideoGenerationResult + PollState) :=
  let elapsedTime := now_top t - startTime in
  if totalTimeout cfg <? elapsedTime then
    ([], inl (timeout_result (attempts s) elapsedTime))
  else
    let attempts' := S (attempts s) in
    match getVideoStatus apiKey vid (reply t) with
    | (fx, inl message) =>
        (* catch *)
        if (maxAttempts cfg <=? attempts')%nat then
          (fx, inl (polling_failed_result attempts' message))
        else
          (fx ++ [Sleep (currentInterval s)],
           inr {| attempts := attempts';
                  currentInterval := currentInterval s;
                  queuePhase := queuePhase s |})
    | (fx, inr statusResult) =>
        let queuePhase' :=
          match status statusResult with
          | st_queued | st_pending => queuePhase s
          | st_processing => false
          | _ => queuePhase s
          end in
        let videoUrl := usable_url statusResult in
        match status statusResult with
        | st_completed =>
            if truthy videoUrl then
              (fx, inl (completed_result attempts' elapsedTime queuePhase'
                          (now_after t) videoUrl statusResult))
            else
              if (attempts' <? maxAttempts cfg)%nat then
                (fx ++ [Sleep (pollInterval queuePhase' (currentInterval s))],
                 inr {| attempts := attempts';
                        currentInterval := next_interval (currentInterval s);
                        queuePhase := queuePhase' |})
              else
                (fx, inr {| attempts := attempts';
                            currentInterval := currentInterval s;
                            queuePhase := queuePhase' |})
        | st_failed | st_error =>
            (fx, inl (provider_failed_result attempts' elapsedTime (status statusResult)))
        | _ =>
            if (attempts' <? maxAttempts cfg)%nat then
              (fx ++ [Sleep (pollInterval queuePhase' (currentInterval s))],
               inr {| attempts := attempts';
                      currentInterval := next_interval (currentInterval s);
                      queuePhase := queuePhase' |})
            else
              (fx, inr {| attempts := attempts';
                          currentInterval := currentInterval s;
                          queuePhase := queuePhase' |})
        end
    end.

(** [while (attempts < maxAttempts) { ... }] followed by the final
    [return].  Every turn that does not return adds one to [attempts], so
    [maxAttempts - attempts] turns are enough; [fuel] counts them. *)
Fixpoint poll_loop (ticks : nat -> PollTick) (fuel : nat) (s : PollState)
  : list Effect * VideoGenerationResult :=
  match fuel with
  | O => ([], max_attempts_result (attempts s))
  | S fuel' =>
      if (attempts s <? maxAttempts cfg)%nat then
        match poll_turn (ticks (attempts s)) s with
        | (fx, inl result) => (fx, result)
        | (fx, inr s') =>
            let (fx', result) := poll_loop ticks fuel' s' in
            (fx ++ fx', result)
        end
      else ([], max_attempts_result (attempts s))
  end.

Definition pollVideoCompletionEnhanced (ticks : nat -> PollTick)
  : list Effect * VideoGenerationResult :=
  poll_loop ticks (maxAttempts cfg) poll_init.

(** The loop variables after [n] turns none of which returned, if the
    loop gets that far. *)
Fixpoint turns (ticks : nat -> PollTick) (n : nat) (s : PollState) : option PollState :=
  match n with
  | O => Some s
  | S n' =>
      if (attempts s <? maxAttempts cfg)%nat then
        match poll_turn (ticks (attempts s)) s with
        | (_, inr s') => turns ticks n' s'
        | (_, inl _) => None
        end
      else None
  end.

End Polling.

(** The waits of a log, in order. *)
Definition waits (fx : list Effect) : list Q :=
  omap (fun e => match e with Sleep ms => Some ms | _ => None end) fx.

(** The requests of a log, in order. *)
Definition posts (fx : list Effect) : list Payload :=
  omap (fun e => match e with HttpPost _ body => Some body | _ => None end) fx.

Definition gets (fx : list Effect) : list string :=
  omap (fun e => match e with HttpGet url => Some url | _ => None end) fx.

(** ** The [video_generations] table *)

(** The table, keyed by the primary key [id]. *)
Abbreviation Table := (gmap string VideoGenerationRecord).

Definition apply_patch (p : Patch) (r : VideoGenerationRecord) : VideoGenerationRecord :=
  {| user_id := user_id r;
     run_id := run_id r;
     rstatus := set_status p;
     script_content := script_content r;
     tavus_job_id := match set_tavus_job_id p with Some j => Some j | None => tavus_job_id r end;
     rvideo_url := match set_video_url p with Some u => Some u | None => rvideo_url r end;
     error_message := match set_error_message p with Some m => Some m | None => error_message r end |}.

(** [.update(p).eq('id', id)] *)
Definition db_update_by_id (id : string) (p : Patch) (db : Table) : Table :=
  alter (apply_patch p) id db.

(** The filter [.eq('user_id', owner).in('status', statuses)]. *)
Definition row_matches (owner : string) (statuses : list RecStatus)
    (r : VideoGenerationRecord) : bool :=
  String.eqb (user_id r) owner && bool_decide (rstatus r ∈ statuses).

(** [.update(p).eq('user_id', owner).in('status', statuses)]: every row
    that passes the filter is updated. *)
Definition db_update_where (owner : string) (statuses : list RecStatus) (p : Patch)
    (db : Table) : Table :=
  (fun r => if row_matches owner statuses r then apply_patch p r else r) <$> db.

(** What an effect does to the table. *)
Definition apply_effect (e : Effect) (db : Table) : Table :=
  match e with
  | DbInsert id row => <[id := row]> db
  | DbUpdateById id p => db_update_by_id id p db
  | DbUpdateWhere owner statuses p => db_update_where owner statuses p db
  | _ => db
  end.

(** The table after each effect of a log, oldest first, starting with the
    table before the log. *)
Fixpoint table_history (db : Table) (log : list Effect) : list Table :=
  match log with
  | [] => [db]
  | e :: log' => db :: table_history (apply_effect e db) log'
  end.

(** ** [generateActivityVideo] of [EnhancedTavusService] *)

Record ActivityData : Type := {
  id : string;
  activity_type : string;
  activity_name : string;
  distance_km : option Q;
  duration_seconds : Z;
  calories_burned : option Z;
  average_heart_rate : option Z;
  intensity_level : option Z;
  notes : option string
}.

Inductive VideoFormat : Type := square | vertical | horizontal.

Inductive VoiceType : Type := motivational | encouraging | calm | excited | proud.
Inductive BackgroundStyle : Type :=
  running_track | mountain_road | nature_path | confetti | calendar.
Inductive MusicStyle : Type := energetic | uplifting | peaceful | triumphant.

(** [VideoGenerationRequest['customization']] *)
Record Customization : Type := {
  voiceType : option VoiceType;
  backgroundStyle : option BackgroundStyle;
  musicStyle : option MusicStyle;
  includeStats : option bool;
  includeBranding : option bool
}.

(** [process.env] *)
Record ProcessEnv : Type := {
  EXPO_PUBLIC_TAVUS_API_KEY : option string;
  EXPO_PUBLIC_TAVUS_REPLICA_ID : option string
}.

(** The constructor: [this.apiKey = process.env.EXPO_PUBLIC_TAVUS_API_KEY || ''] *)
Definition service_apiKey (env : ProcessEnv) : string :=
  js_or_default (EXPO_PUBLIC_TAVUS_API_KEY env) "".

(** What the [fetch] of [POST /videos] can do. *)
Inductive PostReply : Type :=
| PostOk (video_id : string) (status : option string)
| PostHttpError (code : Z) (statusText errorText : string)
| PostThrows (message : string).

(** What one call of [generateActivityVideo] gets from the outside. *)
Record ServiceWorld : Type := {
  (** [supabase.auth.getUser()] in the [try]: the user's id, or [None] when
      it reports an error or no user *)
  auth_try : option string;
  (** the text [generateActivityScript] returns (it draws one of three
      templates at random) *)
  script_text : string;
  (** the reply to the insert: an error message, or the id the database
      generated for the row *)
  insert_reply : string + string;
  (** [Date.now()] when the payload is built *)
  now_submit : Z;
  post_reply : PostReply;
  (** [Date.now()] when the poll loop is entered, and its turns *)
  poll_start : Z;
  poll_ticks : nat -> PollTick;
  (** [supabase.auth.getUser()] in the [catch]: the user's id, or [None]
      when it gives no user or rejects (the inner [try] then writes
      nothing) *)
  auth_catch : option string
}.

(** The [payload] object of [initiateVideoGeneration], keys in order. *)
Definition enhanced_payload (env : ProcessEnv) (activity : ActivityData)
    (script : string) (now : Z) : Payload :=
  [ ("replica_id", JStr (js_or_default (EXPO_PUBLIC_TAVUS_REPLICA_ID env) "default-replica"));
    ("script", JStr script);
    ("video_name", JStr ("activity_" +:+ id activity +:+ "_" +:+ string_of_Z now));
    ("fast", JBool true) ].

(** [initiateVideoGeneration]: the effects, and either [error] (for
    [success: false]) or [video_id] and [status]. *)
Definition initiateVideoGeneration (env : ProcessEnv) (w : ServiceWorld)
    (activity : ActivityData) (script : string)
  : list Effect * (string + string * string) :=
  let payload := enhanced_payload env activity script (now_submit w) in
  let post := HttpPost (baseUrl +:+ "/videos") payload in
  match post_reply w with
  | PostHttpError code statusText errorText =>
      ([post], inl (tavus_api_error code statusText +:+ " - " +:+ errorText))
  | PostThrows message => ([post], inl message)
  | PostOk video_id status => ([post], inr (video_id, js_or_default status "pending"))
  end.

Definition failure (message : string) : VideoGenerationResult :=
  {| success := false; videoUrl := None; thumbnailUrl := None; videoId := None;
     error := Some message; attempts_made := None; total_time := None;
     queue_time := None; suggestion := None |}.

Definition pending_or_processing : list RecStatus := [rec_pending; rec_processing].

(** The body of the [try]: the effects, the table afterwards, and either
    the message of the [Error] thrown or the value returned. *)
Definition generateActivityVideo_try (env : ProcessEnv) (w : ServiceWorld)
    (activity : ActivityData) (db : Table)
  : list Effect * Table * (string + VideoGenerationResult) :=
  match auth_try w with
  | None => ([], db, inl "User not authenticated")
  | Some user =>
      let script := script_text w in
      let videoGenRecord :=
        {| user_id := user; run_id := id activity; rstatus := rec_pending;
           script_content := script; tavus_job_id := None; rvideo_url := None;
           error_message := None |} in
      let insert_failed message :=
        ([DbInsertRefused videoGenRecord], db,
         inl ("Failed to create video generation record: " +:+ message)) in
      match insert_reply w with
      | inl message => insert_failed message
      | inr new_id =>
          match db !! new_id with
          | Some _ =>
              (* [id] is the primary key: the table refuses a second row *)
              insert_failed "duplicate key value violates unique constraint"
          | None =>
              let fx1 := [DbInsert new_id videoGenRecord] in
              let db1 := <[new_id := videoGenRecord]> db in
              match initiateVideoGeneration env w activity script with
              | (fx2, inl message) => (fx1 ++ fx2, db1, inl message)
              | (fx2, inr (video_id, _)) =>
                  let p := {| set_status := rec_processing;
                              set_tavus_job_id := Some video_id;
                              set_video_url := None;
                              set_error_message := None |} in
                  let db2 := db_update_by_id new_id p db1 in
                  let fx3 := [DbUpdateById new_id p] in
                  let (fx4, pollResult) :=
                    pollVideoCompletionEnhanced POLLING_CONFIG (service_apiKey env)
                      video_id (poll_start w) (poll_ticks w) in
                  if success pollResult && truthy (videoUrl pollResult) then
                    let q := {| set_status := rec_completed;
                                set_tavus_job_id := None;
                                set_video_url := videoUrl pollResult;
                                set_error_message := None |} in
                    (fx1 ++ fx2 ++ fx3 ++ fx4 ++ [DbUpdateById new_id q],
                     db_update_by_id new_id q db2,
                     inr {| success := true;
                            videoUrl := videoUrl pollResult;
                            thumbnailUrl := thumbnailUrl pollResult;
                            videoId := Some new_id;
                            error := None;
                            attempts_made := attempts_made pollResult;
                            total_time := total_time pollResult;
                            queue_time := queue_time pollResult;
                            suggestion := None |})
                  else
                    (fx1 ++ fx2 ++ fx3 ++ fx4, db2,
                     inl (js_or_default (error pollResult)
                            "Video generation failed - no video URL returned"))
              end
          end
      end
  end.

(** The [catch]: every row of the user that is [pending] or [processing]
    is set to [failed], when the user can still be read. *)
Definition generateActivityVideo_catch (w : ServiceWorld) (message : string) (db : Table)
  : list Effect * Table * VideoGenerationResult :=
  match auth_catch w with
  | Some user =>
      let p := {| set_status := rec_failed; set_tavus_job_id := None;
                  set_video_url := None; set_error_message := Some message |} in
      ([DbUpdateWhere user pending_or_processing p],
       db_update_where user pending_or_processing p db,
       failure message)
  | None => ([], db, failure message)
  end.

(** [format] and [customization] are parameters of the method; its body
    reads neither. *)
Definition generateActivityVideo (env : ProcessEnv) (w : ServiceWorld)
    (activity : ActivityData) (format : VideoFormat) (customization : option Customization)
    (db : Table) : list Effect * Table * VideoGenerationResult :=
  if String.eqb (service_apiKey env) "" then
    ([], db, failure api_key_missing_message)
  else
    match generateActivityVideo_try env w activity db with
    | (fx, db', inr result) => (fx, db', result)
    | (fx, db', inl message) =>
        let '(fx', db'', result) := generateActivityVideo_catch w message db' in
        (fx ++ fx', db'', result)
    end.

(** [isConfigured] and [getConfigStatus]. *)
Definition isConfigured (env : ProcessEnv) : bool :=
  negb (String.eqb (service_apiKey env) "").

Definition getConfigStatus (env : ProcessEnv) : bool * string :=
  if String.eqb (service_apiKey env) "" then
    (false, "Tavus API key is missing. Please set EXPO_PUBLIC_TAVUS_API_KEY in your .env file.")
  else (true, "Tavus API is properly configured.").

(** ** [pollVideoCompletion], the older loop kept in [EnhancedTavusService] *)

(** [for (let attempt = 0; attempt < maxAttempts; attempt++)], with
    [remaining = maxAttempts - attempt]; the replies are indexed by
    [attempt].  Returns the thrown message or the status. *)
Fixpoint pollVideoCompletion_from (apiKey vid : string) (replies : nat -> GetReply)
    (intervalMs : Q) (attempt remaining : nat)
  : list Effect * (string + TavusResponse) :=
  match remaining with
  | O => ([], inl "Video generation timeout - exceeded maximum polling attempts")
  | S remaining' =>
      match getVideoStatus apiKey vid (replies attempt) with
      | (fx, inr st) =>
          match status st with
          | st_completed | st_failed => (fx, inr st)
          | _ =>
              let fx1 := match remaining' with
                         | O => fx
                         | S _ => fx ++ [Sleep intervalMs]
                         end in
              let (fx2, r) :=
                pollVideoCompletion_from apiKey vid replies intervalMs (S attempt) remaining' in
              (fx1 ++ fx2, r)
          end
      | (fx, inl message) =>
          match remaining' with
          | O => (fx, inl message)
          | S _ =>
              let (fx2, r) :=
                pollVideoCompletion_from apiKey vid replies intervalMs (S attempt) remaining' in
              (fx ++ fx2, r)
          end
      end
  end.

Definition pollVideoCompletion (apiKey vid : string) (replies : nat -> GetReply)
    (maxAttempts : nat) (intervalMs : Q) : list Effect * (string + TavusResponse) :=
  pollVideoCompletion_from apiKey vid replies intervalMs 0 maxAttempts.

(** ** [TavusService] of [tavusService.ts] *)

Module TavusService.

Record RunData : Type := {
  distance : Q;
  duration : Z;
  pace : Q;
  calories : Z
}.

Record VideoGenerationRequest : Type := {
  replicaId : string;
  script : string;
  runData : RunData;
  effortLevel : option string;
  mood : option Z;
  backgroundImageUrl : option string
}.

(** The [payload] object of [generateVideo], keys in order;
    [run_script] is the text [generateRunScript] returns and [now] the
    reading of [Date.now()]. *)
Definition payload (request : VideoGenerationRequest) (run_script : string) (now : Z)
  : Payload :=
  [ ("replica_id", JStr (js_or_default (Some (replicaId request)) "default-replica"));
    ("script", JStr run_script);
    ("video_name", JStr ("run_achievement_" +:+ string_of_Z now));
    ("callback_url", JNull) ]
  ++ (if truthy (backgroundImageUrl request)
      then match backgroundImageUrl request with
           | Some u => [("background_url", JStr u)]
           | None => []
           end
      else []).

(** [generateVideo]: the request sent, and the thrown message or the
    [video_id] and [status] returned. *)
Definition generateVideo (request : VideoGenerationRequest) (run_script : string)
    (now : Z) (r : PostReply) : list Effect * (string + string * string) :=
  let post := HttpPost (baseUrl +:+ "/videos") (payload request run_script now) in
  match r with
  | PostHttpError code statusText _ => ([post], inl (tavus_api_error code statusText))
  | PostThrows message => ([post], inl message)
  | PostOk video_id status => ([post], inr (video_id, js_or_default status "pending"))
  end.

End TavusService.

(** ** The hook [useEnhancedVideoGeneration] *)

Module Hook.

(** The fields of the service's result the hook reads. *)
Definition result_success := success.
Definition result_videoUrl := videoUrl.
Definition result_thumbnailUrl := thumbnailUrl.
Definition result_videoId := videoId.
Definition result_error := error.
Definition result_total_time := total_time.

Definition service_generateActivityVideo := generateActivityVideo.

Inductive Step : Type := initializing | processing | finalizing | completed | failed.

Record VideoGenerationState : Type := {
  isGenerating : bool;
  progress : string;
  error : option string;
  videoUrl : option string;
  thumbnailUrl : option string;
  currentStep : Step;
  elapsedTime : Z;
  estimatedTimeRemaining : Z;
  isPeakUsage : bool
}.

(** The argument of [useState]. *)
Definition initial_state : VideoGenerationState :=
  {| isGenerating := false; progress := ""; error := None; videoUrl := None;
     thumbnailUrl := None; currentStep := initializing; elapsedTime := 0;
     estimatedTimeRemaining := 180; isPeakUsage := false |}.

Record VideoCustomization : Type := {
  format : VideoFormat;
  custom : Customization
}.

Definition getProgressMessage (elapsedSeconds : Z) (step : Step) (isPeakUsage : bool)
  : string :=
  match step with
  | initializing => "Initializing video generation..."
  | processing =>
      if elapsedSeconds <? 30 then "Starting video generation..."
      else if elapsedSeconds <? 90 then "Added to processing queue..."
      else if elapsedSeconds <? 120 then
        "Waiting in queue - this is normal during peak hours..."
      else if elapsedSeconds <? 240 then
        (if isPeakUsage then "Still queued - experiencing high demand..."
         else "Processing your video - AI generation in progress...")
      else if elapsedSeconds <? 360 then
        "Processing your video - AI generation in progress..."
      else "Almost complete - finalizing your achievement video..."
  | finalizing => "Finalizing your video..."
  | completed => "Video generation completed!"
  | failed => "Processing..."
  end.

(** [updateProgress], run by the one-second interval.  [startTime] is
    [startTimeRef.current] and [now] the reading of [Date.now()]; the
    state the callback closes over is taken to be the current one. *)
Definition updateProgress (startTime now : Z) (state : VideoGenerationState)
  : VideoGenerationState :=
  if negb (isGenerating state) then state
  else
    let elapsed := (now - startTime) / 1000 in
    let remaining := Z.max 0 (estimatedTimeRemaining state - elapsed) in
    let isPeakUsage' := 120 <? elapsed in
    {| isGenerating := isGenerating state;
       progress := getProgressMessage elapsed (currentStep state) isPeakUsage';
       error := error state;
       videoUrl := videoUrl state;
       thumbnailUrl := thumbnailUrl state;
       currentStep := currentStep state;
       elapsedTime := elapsed;
       estimatedTimeRemaining := remaining;
       isPeakUsage := isPeakUsage' |}.

(** *** The effect that runs the interval

    [useEffect(..., [state.isGenerating, updateProgress])], where
    [updateProgress] is a [useCallback] with the dependencies
    [state.isGenerating] and [state.estimatedTimeRemaining]: after a state
    update the effect runs again exactly when one of these two fields has
    changed.  When it runs and the session is generating, it sets
    [startTimeRef.current] to the clock and starts a new interval. *)
Definition effect_reruns (before after : VideoGenerationState) : bool :=
  negb (Bool.eqb (isGenerating before) (isGenerating after))
  || negb (estimatedTimeRemaining before =? estimatedTimeRemaining after).

(** [startTimeRef.current] after a state update made at clock reading
    [now]. *)
Definition startTimeRef_after (now : Z) (before after : VideoGenerationState)
    (startTimeRef : Z) : Z :=
  if effect_reruns before after && isGenerating after then now else startTimeRef.

(** [getProgressPercentage]; the factors [0.2] and [0.8] are the
    rationals 1/5 and 4/5. *)
Definition getProgressPercentage (state : VideoGenerationState) : Q :=
  match currentStep state with
  | completed => 100%Q
  | failed => 0%Q
  | step =>
      let maxEstimatedTime : Q := if isPeakUsage state then 480%Q else 240%Q in
      let timeProgress : Q :=
        Qmin ((inject_Z (elapsedTime state) / maxEstimatedTime) * 100)%Q 95%Q in
      match step with
      | initializing => Qmax 10%Q (timeProgress * (1 # 5))%Q
      | processing => Qmax 20%Q (timeProgress * (4 # 5))%Q
      | finalizing => Qmax 85%Q timeProgress
      | _ => timeProgress
      end
  end.

Definition getEnhancedErrorMessage (errorMessage : string) : string :=
  if includes "timeout" errorMessage || includes "peak usage" errorMessage then
    "Video generation is taking longer than expected due to high demand. This is normal during peak usage periods. Try again during off-peak hours (early morning/late evening) for faster processing."
  else if includes "API key" errorMessage then
    "Video service configuration issue. Please contact support."
  else if includes "replica" errorMessage then
    "Video avatar not ready. Please try again in a few minutes."
  else errorMessage.

(** *** The [setState] calls of [generateActivityVideo], in order *)

(** When the service is not configured (this one replaces the state). *)
Definition set_not_configured (message : string) : VideoGenerationState :=
  {| isGenerating := false; progress := ""; error := Some message; videoUrl := None;
     thumbnailUrl := None; currentStep := failed; elapsedTime := 0;
     estimatedTimeRemaining := 480; isPeakUsage := false |}.

(** At the start of a generation; every field of [prev] is overwritten. *)
Definition set_started (prev : VideoGenerationState) : VideoGenerationState :=
  {| isGenerating := true; progress := "Initializing video generation...";
     error := None; videoUrl := None; thumbnailUrl := None;
     currentStep := initializing; elapsedTime := 0;
     estimatedTimeRemaining := 480; isPeakUsage := false |}.

(** Before the service is called. *)
Definition set_requesting (prev : VideoGenerationState) : VideoGenerationState :=
  {| isGenerating := isGenerating prev;
     progress := "Requesting video generation from Tavus...";
     error := error prev; videoUrl := videoUrl prev;
     thumbnailUrl := thumbnailUrl prev;
     currentStep := processing;
     elapsedTime := elapsedTime prev;
     estimatedTimeRemaining := estimatedTimeRemaining prev;
     isPeakUsage := isPeakUsage prev |}.

(** The two updates after a successful result. *)
Definition set_completed (prev : VideoGenerationState) : VideoGenerationState :=
  {| isGenerating := isGenerating prev;
     progress := "Video generation completed!";
     error := error prev; videoUrl := videoUrl prev;
     thumbnailUrl := thumbnailUrl prev;
     currentStep := completed;
     elapsedTime := elapsedTime prev;
     estimatedTimeRemaining := estimatedTimeRemaining prev;
     isPeakUsage := isPeakUsage prev |}.

Definition set_result (result : VideoGenerationResult) (prev : VideoGenerationState)
  : VideoGenerationState :=
  {| isGenerating := false;
     progress := "Video generation completed!";
     error := None;
     videoUrl := result_videoUrl result;
     thumbnailUrl := if truthy (result_thumbnailUrl result)
                     then result_thumbnailUrl result else None;
     currentStep := completed;
     elapsedTime := match result_total_time result with Some t => t | None => 0 end;
     estimatedTimeRemaining := 0;
     isPeakUsage := match result_total_time result with
                    | Some t => if t =? 0 then false else 120 <? t
                    | None => false
                    end |}.

(** The update in the [catch]. *)
Definition set_failed (message : string) (prev : VideoGenerationState)
  : VideoGenerationState :=
  {| isGenerating := false; progress := "";
     error := Some (getEnhancedErrorMessage message);
     videoUrl := None; thumbnailUrl := None; currentStep := failed;
     elapsedTime := 0; estimatedTimeRemaining := 480; isPeakUsage := false |}.

Definition resetState (prev : VideoGenerationState) : VideoGenerationState :=
  {| isGenerating := false; progress := ""; error := None; videoUrl := None;
     thumbnailUrl := None; currentStep := initializing; elapsedTime := 0;
     estimatedTimeRemaining := 480; isPeakUsage := false |}.

(** *** [generateActivityVideo] of the hook *)

Record HookWorld : Type := {
  (** [user] of [useAuth()] *)
  hook_user : option string;
  (** [supabase.auth.getUser()] in the hook's [try] *)
  hook_auth : option string;
  service_world : ServiceWorld
}.

(** What a call leaves behind: the states it set, oldest first, the
    effects of the service, the table, and the message of the [Error]
    thrown or the value returned ([videoUrl], [thumbnailUrl],
    [videoId]). *)
Record HookRun : Type := {
  states : list VideoGenerationState;
  effects : list Effect;
  table : Table;
  outcome : string + (option string * option string * option string)
}.

Definition generateActivityVideo (env : ProcessEnv) (w : HookWorld)
    (activity : ActivityData) (customization : VideoCustomization)
    (state : VideoGenerationState) (db : Table) : HookRun :=
  match hook_user w with
  | None =>
      {| states := []; effects := []; table := db;
         outcome := inl "User not authenticated" |}
  | Some _ =>
      let configStatus := getConfigStatus env in
      if negb (fst configStatus) then
        {| states := [set_not_configured (snd configStatus)]; effects := [];
           table := db; outcome := inl (snd configStatus) |}
      else
        let s1 := set_started state in
        match hook_auth w with
        | None =>
            let message := "User not authenticated" in
            {| states := [s1; set_failed message s1]; effects := []; table := db;
               outcome := inl message |}
        | Some _ =>
            let s2 := set_requesting s1 in
            let '(fx, db', result) :=
              service_generateActivityVideo env (service_world w) activity
                (format customization) (Some (custom customization)) db in
            if result_success result && truthy (result_videoUrl result) then
              let s3 := set_completed s2 in
              {| states := [s1; s2; s3; set_result result s3]; effects := fx;
                 table := db';
                 outcome := inr (result_videoUrl result, result_thumbnailUrl result,
                                 result_videoId result) |}
            else
              let message :=
                js_or_default (result_error result)
                  "Video generation failed - no video URL returned" in
              {| states := [s1; s2; set_failed message s2]; effects := fx;
                 table := db'; outcome := inl message |}
        end
  end.

End Hook.

(** * Predicates and inputs used in the statements *)

(** The bounds of the base interval [currentInterval]: from
    [initialInterval] to [maxInterval]. *)
Definition interval_ok (c : Q) : Prop := (5000 <= c /\ c <= 20000)%Q.

(** A result that carries both the elapsed time and the attempts made. *)
Definition carries_elapsed_and_attempts (r : VideoGenerationResult) : Prop :=
  is_Some (total_time r) /\ is_Some (attempts_made r).

(** *** Provider behaviours *)

Definition status_body (s : TavusStatus) (hosted : option string) : StatusBody :=
  {| b_video_id := "v1"; b_status := s; b_hosted_url := hosted;
     b_download_url := None; b_thumbnail_url := None |}.

Definition tick_at (now : Z) (s : TavusStatus) (hosted : option string) : PollTick :=
  {| now_top := now; reply := GetOk (status_body s hosted); now_after := now |}.

(** The provider renders for ever; the clock does not move. *)
Definition ticks_always_processing : nat -> PollTick :=
  fun _ => tick_at 0 st_processing None.

(** The job stays queued; the clock does not move. *)
Definition ticks_always_queued : nat -> PollTick :=
  fun _ => tick_at 0 st_queued None.

(** The job stays queued and each turn starts 100 seconds after the one
    before. *)
Definition ticks_slow_queue : nat -> PollTick :=
  fun i => tick_at (Z.of_nat i * 100000) st_queued None.

(** Queued for one poll, then processing. *)
Definition ticks_queued_then_processing : nat -> PollTick :=
  fun i => if (i <? 1)%nat then tick_at 0 st_queued None
           else tick_at 0 st_processing None.

(** Scenario B: [queued] for three polls, then [completed] with no URL
    field. *)
Definition ticks_scenario_B : nat -> PollTick :=
  fun i => if (i <? 3)%nat then tick_at 0 st_queued None
           else tick_at 0 st_completed None.

(** [completed] with no URL field on the first poll, with [hosted_url] on
    the second. *)
Definition ticks_url_on_second_poll : nat -> PollTick :=
  fun i => if (i <? 1)%nat then tick_at 0 st_completed None
           else tick_at 0 st_completed (Some "https://x/v.mp4").

(** [completed] with [hosted_url] on the first poll (scenario A). *)
Definition ticks_completed_at_once : nat -> PollTick :=
  fun _ => tick_at 0 st_completed (Some "https://x/v.mp4").

(** *** Calls of the service *)

Definition env_key_only : ProcessEnv :=
  {| EXPO_PUBLIC_TAVUS_API_KEY := Some "key"; EXPO_PUBLIC_TAVUS_REPLICA_ID := None |}.

Definition env_replica_only : ProcessEnv :=
  {| EXPO_PUBLIC_TAVUS_API_KEY := None; EXPO_PUBLIC_TAVUS_REPLICA_ID := Some "r-1" |}.

Definition morning_run : ActivityData :=
  {| id := "a1"; activity_type := "Running"; activity_name := "Morning run";
     distance_km := Some 5%Q; duration_seconds := 1800; calories_burned := Some 300;
     average_heart_rate := None; intensity_level := None; notes := None |}.

(** User [u1] is signed in, the database answers the insert with [new_id],
    the provider accepts the job as [job] and then behaves as [ticks]. *)
Definition world_accepting (new_id job : string) (ticks : nat -> PollTick) : ServiceWorld :=
  {| auth_try := Some "u1"; script_text := "Incredible achievement!";
     insert_reply := inr new_id; now_submit := 1000;
     post_reply := PostOk job (Some "queued");
     poll_start := 0; poll_ticks := ticks; auth_catch := Some "u1" |}.

(** The same, but the provider rejects the submission with HTTP 400. *)
Definition world_rejecting (new_id : string) : ServiceWorld :=
  {| auth_try := Some "u1"; script_text := "Incredible achievement!";
     insert_reply := inr new_id; now_submit := 1000;
     post_reply := PostHttpError 400 "Bad Request" "invalid replica_id";
     poll_start := 0; poll_ticks := ticks_always_queued; auth_catch := Some "u1" |}.

Definition run_scenario_B : list Effect * Table * VideoGenerationResult :=
  generateActivityVideo env_key_only (world_accepting "r1" "v1" ticks_scenario_B)
    morning_run square None ∅.

(** *** What a reader of the table can observe *)

(** The table after a log. *)
Definition replay (fx : list Effect) (db : Table) : Table :=
  fold_left (fun d e => apply_effect e d) fx db.

(** The status of the row [id], if the row exists. *)
Definition status_at (id : string) (db : Table) : option RecStatus :=
  rstatus <$> db !! id.

(** The successive statuses of the row [id] during a log. *)
Definition status_history (id : string) (db : Table) (fx : list Effect)
  : list (option RecStatus) :=
  map (status_at id) (table_history db fx).

(** Every two neighbours of a list are related. *)
Fixpoint steps_ok {A : Type} (R : A -> A -> bool) (l : list A) : bool :=
  match l with
  | a :: rest =>
      match rest with
      | b :: _ => R a b && steps_ok R rest
      | [] => true
      end
  | [] => true
  end.

(** The order the specification gives: a row appears as [pending], then
    goes to [processing], then to [completed] or [failed]. *)
Definition transition_in_spec_order (a b : option RecStatus) : bool :=
  match a, b with
  | None, None => true
  | None, Some rec_pending => true
  | Some rec_pending, Some rec_pending => true
  | Some rec_pending, Some rec_processing => true
  | Some rec_processing, Some rec_processing => true
  | Some rec_processing, Some rec_completed => true
  | Some rec_processing, Some rec_failed => true
  | Some rec_completed, Some rec_completed => true
  | Some rec_failed, Some rec_failed => true
  | _, _ => false
  end.

(** The order the code keeps: as above, and also from [pending] straight
    to [failed]. *)
Definition transition_ok (a b : option RecStatus) : bool :=
  match a, b with
  | Some rec_pending, Some rec_failed => true
  | _, _ => transition_in_spec_order a b
  end.


(** An effect that does not write to the table. *)
Definition quiet (e : Effect) : bool :=
  match e with
  | DbInsert _ _ | DbUpdateById _ _ | DbUpdateWhere _ _ _ => false
  | _ => true
  end.

(** An effect of the poll loop: a status request or a wait. *)
Definition fetch_or_sleep (e : Effect) : bool :=
  match e with
  | HttpGet _ | Sleep _ => true
  | _ => false
  end.


(** Another generation of the same user, for another activity, is in
    flight: its row [r0] is [processing]. *)
Definition other_job_in_flight : Table :=
  {[ "r0" := {| user_id := "u1"; run_id := "a0"; rstatus := rec_processing;
                script_content := "Outstanding performance!";
                tavus_job_id := Some "v0"; rvideo_url := None;
                error_message := None |} ]}.

Definition run_rejected : list Effect * Table * VideoGenerationResult :=
  generateActivityVideo env_key_only (world_rejecting "r1") morning_run square None
    other_job_in_flight.

(** What the [try] leaves when it throws after a row was inserted: the row
    of this user and activity, [pending] or [processing]. *)
Definition left_in_flight (user : string) (activity : ActivityData) (r : VideoGenerationRecord)
  : Prop :=
  user_id r = user /\ run_id r = id activity
  /\ (rstatus r = rec_pending \/ rstatus r = rec_processing).

(** *** Requests of the older client *)

Definition run_with_background : TavusService.VideoGenerationRequest :=
  {| TavusService.replicaId := "r-1";
     TavusService.script := "";
     TavusService.runData :=
       {| TavusService.distance := 5; TavusService.duration := 1800;
          TavusService.pace := 6; TavusService.calories := 300 |};
     TavusService.effortLevel := None;
     TavusService.mood := None;
     TavusService.backgroundImageUrl := Some "https://x/bg.png" |}.

(** The keys of a request body, and whether it holds a [null]. *)
Definition keys (body : Payload) : list string := map fst body.

Definition has_null (body : Payload) : bool :=
  existsb (fun kv => match snd kv with JNull => true | _ => false end) body.

(** The keys the provider accepts. *)
Definition accepted_keys : list string := ["replica_id"; "script"; "video_name"; "fast"].

(** *** Sessions of the hook *)

(** The hook's state and the start time its interval measures from. *)
Record Session : Type := {
  state : Hook.VideoGenerationState;
  startTimeRef : Z
}.

(** A [setState] at clock reading [now], followed by the effect. *)
Definition set_state (now : Z)
    (f : Hook.VideoGenerationState -> Hook.VideoGenerationState) (x : Session) : Session :=
  {| state := f (state x);
     startTimeRef := Hook.startTimeRef_after now (state x) (f (state x)) (startTimeRef x) |}.

(** The interval fires at clock reading [now]. *)
Definition interval_fires (now : Z) (x : Session) : Session :=
  set_state now (Hook.updateProgress (startTimeRef x) now) x.

(** The sessions left by the interval firing at the clock readings
    [nows], oldest first. *)
Fixpoint progress_ticks (nows : list Z) (x : Session) : list Session :=
  match nows with
  | [] => []
  | now :: rest =>
      let x' := interval_fires now x in
      x' :: progress_ticks rest x'
  end.

(** How a call of the hook's [generateActivityVideo] ends. *)
Inductive Ending : Type :=
| Succeeds (result : VideoGenerationResult)
| Throws (message : string).

Definition finish (e : Ending) (prev : Hook.VideoGenerationState)
  : Hook.VideoGenerationState :=
  match e with
  | Succeeds result => Hook.set_result result (Hook.set_completed prev)
  | Throws message => Hook.set_failed message prev
  end.

(** The hook as mounted: [useState(...)] and [useRef(0)]. *)
Definition mounted : Session := {| state := Hook.initial_state; startTimeRef := 0 |}.

(** One session, oldest first: the generation starts at clock reading
    [t0], the service is called, the interval fires at [nows] while the
    service works, and the call ends at [t1]. *)
Definition session (t0 : Z) (nows : list Z) (t1 : Z) (e : Ending) (x0 : Session)
  : list Session :=
  let x1 := set_state t0 Hook.set_started x0 in
  let x2 := set_state t0 Hook.set_requesting x1 in
  let ticked := progress_ticks nows x2 in
  [x1; x2] ++ ticked ++ [set_state t1 (finish e) (List.last ticked x2)].

(** The clock readings of an interval that fires every second, [n]
    times. *)
Definition every_second (n : nat) : list Z :=
  map (fun i => Z.of_nat i * 1000) (seq 1 n).

(** A generation started at clock reading 0, after 480 ticks one second
    apart. *)
Definition session_after_480_seconds : Session :=
  List.last
    (progress_ticks (every_second 480)
       (set_state 0 Hook.set_requesting (set_state 0 Hook.set_started mounted)))
    mounted.

(** The session state while the service polls: step [processing]. *)
Definition state_in_flight : Hook.VideoGenerationState :=
  Hook.set_requesting (Hook.set_started Hook.initial_state).

(** The table while the first call polls: its row [r1] is [processing]. *)
Definition table_in_flight : Table :=
  {[ "r1" := {| user_id := "u1"; run_id := "a1"; rstatus := rec_processing;
                script_content := "Incredible achievement!";
                tavus_job_id := Some "v1"; rvideo_url := None;
                error_message := None |} ]}.

Definition square_video : Hook.VideoCustomization :=
  {| Hook.format := square;
     Hook.custom := {| voiceType := Some calm; backgroundStyle := Some confetti;
                       musicStyle := None; includeStats := Some true;
                       includeBranding := None |} |}.

Definition evening_walk : ActivityData :=
  {| id := "a2"; activity_type := "Walking"; activity_name := "Evening walk";
     distance_km := None; duration_seconds := 2400; calories_burned := None;
     average_heart_rate := None; intensity_level := None; notes := None |}.

(** A second call of the hook while the first is in flight; the provider
    completes the second job at once. *)
Definition second_call : Hook.HookRun :=
  Hook.generateActivityVideo env_key_only
    {| Hook.hook_user := Some "u1"; Hook.hook_auth := Some "u1";
       Hook.service_world := world_accepting "r2" "v2" ticks_completed_at_once |}
    evening_walk square_video state_in_flight table_in_flight.

(** The same, but the provider rejects the second submission. *)
Definition second_call_rejected : Hook.HookRun :=
  Hook.generateActivityVideo env_key_only
    {| Hook.hook_user := Some "u1"; Hook.hook_auth := Some "u1";
       Hook.service_world := world_rejecting "r2" |}
    evening_walk square_video state_in_flight table_in_flight.

(** *** A failure handler that cannot read the user *)




(** *** Overlapping calls of the service *)

(** One call of [generateActivityVideo]: the environment, what the call
    gets from the outside, and its arguments. *)
Record Call : Type := {
  call_env : ProcessEnv;
  call_world : ServiceWorld;
  call_activity : ActivityData;
  call_format : VideoFormat;
  call_customization : option Customization
}.

(** The effects of a call that starts on the table [db]. *)
Definition call_log (db : Table) (c : Call) : list Effect :=
  fst (fst (generateActivityVideo (call_env c) (call_world c) (call_activity c)
              (call_format c) (call_customization c) db)).

(** The ids of the rows a log inserts. *)
Definition inserted_ids (log : list Effect) : list string :=
  omap (fun e => match e with DbInsert nid _ => Some nid | _ => None end) log.

(** The method is [async]: between two of its effects the effects of
    other calls can take place.  [interleaving logs log] says that [log]
    is one order in which the effects of the calls with the logs [logs]
    can reach the table: each step takes the next effect of one of the
    calls. *)
Inductive interleaving : list (list Effect) -> list Effect -> Prop :=
| interleaving_done logs :
    Forall (fun l => l = []) logs -> interleaving logs []
| interleaving_step logs i e rest log :
    logs !! i = Some (e :: rest) ->
    interleaving (<[i := rest]> logs) log ->
    interleaving logs (e :: log).

(** The order a reader can observe when calls overlap: as
    [transition_ok], and also from [failed] to [processing] or to
    [completed], when the row was marked [failed] by the failure handler
    of another call and is then written by its own call. *)
Definition transition_overlapping (a b : option RecStatus) : bool :=
  match a, b with
  | Some rec_failed, Some rec_processing => true
  | Some rec_failed, Some rec_completed => true
  | _, _ => transition_ok a b
  end.

(** A write addressed to one row by its id. *)
Inductive Write : Type :=
| WInsert (s : RecStatus)
| WUpdate (s : RecStatus).

Definition write_on (key : string) (e : Effect) : option Write :=
  match e with
  | DbInsert nid row => if String.eqb nid key then Some (WInsert (rstatus row)) else None
  | DbUpdateById nid p => if String.eqb nid key then Some (WUpdate (set_status p)) else None
  | _ => None
  end.

(** The writes a log addresses to the row [key], in order. *)
Definition writes_on (key : string) (log : list Effect) : list Write :=
  omap (write_on key) log.

(** The writes a call addresses to its own row, in order. *)
Definition own_writes : list Write :=
  [WInsert rec_pending; WUpdate rec_processing; WUpdate rec_completed].

(** The only update by filter is the one of the failure handler. *)
Definition handler_write (e : Effect) : bool :=
  match e with
  | DbUpdateWhere _ statuses p =>
      bool_decide (statuses = pending_or_processing) && bool_decide (set_status p = rec_failed)
  | _ => true
  end.

(** The status of a row agrees with the writes [own_writes] its call has
    still to make, from the [n]-th on. *)
Definition stage_ok (st : option RecStatus) (n : nat) : Prop :=
  match n with
  | 0%nat => st = None
  | 1%nat => st = Some rec_pending \/ st = Some rec_failed
  | 2%nat => st = Some rec_processing \/ st = Some rec_failed
  | _ => True
  end.

Definition phase_ok (st : option RecStatus) (todo : list Write) : Prop :=
  todo = [] \/ exists n m, todo = take m (drop n own_writes) /\ stage_ok st n.

(** Two calls of the same user overlap: the first, for the morning run,
    is accepted and completed by the provider at its first poll; the
    second, for the evening walk, is rejected by the provider. *)
Definition first_call : Call :=
  {| call_env := env_key_only;
     call_world := world_accepting "r1" "v1" ticks_completed_at_once;
     call_activity := morning_run; call_format := square; call_customization := None |}.

Definition rejected_call : Call :=
  {| call_env := env_key_only; call_world := world_rejecting "r2";
     call_activity := evening_walk; call_format := square; call_customization := None |}.

(** The second call runs, and fails, between the third and the fourth
    effect of the first call: after the first call has written
    [processing] and before it asks for the status of its job. *)
Definition overlapping_log : list Effect :=
  take 3 (call_log ∅ first_call) ++ call_log ∅ rejected_call
  ++ drop 3 (call_log ∅ first_call).

(** The second call runs, and fails, between the first and the second
    effect of the first call: after the first call has inserted its row
    and before it submits its job. *)
Definition early_overlapping_log : list Effect :=
  take 1 (call_log ∅ first_call) ++ call_log ∅ rejected_call
  ++ drop 1 (call_log ∅ first_call).

(** * More of the code *)

(** ** The time texts of the hook *)

(** [s.padStart(2, '0')] *)
Definition padStart2 (s : string) : string :=
  match String.length s with
  | O => "00"
  | S O => "0" +:+ s
  | _ => s
  end.

(** [`${Math.floor(t / 60)}:${(t % 60).toString().padStart(2, '0')}`] for
    an integer [t]; [%] takes the sign of [t]. *)
Definition minutes_seconds (t : Z) : string :=
  string_of_Z (t / 60) +:+ ":" +:+ padStart2 (string_of_Z (Z.rem t 60)).

(** [formatElapsedTime] *)
Definition formatElapsedTime (state : Hook.VideoGenerationState) : string :=
  minutes_seconds (Hook.elapsedTime state).

(** [formatEstimatedTimeRemaining] *)
Definition formatEstimatedTimeRemaining (state : Hook.VideoGenerationState) : string :=
  if Hook.estimatedTimeRemaining state <=? 0 then "Almost done..."
  else if Hook.isPeakUsage state && (240 <? Hook.estimatedTimeRemaining state) then
    "Peak usage - may take 3-6 minutes"
  else "~" +:+ minutes_seconds (Hook.estimatedTimeRemaining state) +:+ " remaining".

(** ** [tavusTestService.ts] *)

Record TavusTestResult : Type := {
  test_success : bool;
  test_error : option string;
  (** [video_id], [status] and [message] of [data] *)
  test_data : option (option string * option string * string)
}.

(** What the [fetch] of [testTavusConnection] can do: answer (with
    [response.ok], the status, the body text and what [JSON.parse] makes
    of it: the message of its [SyntaxError], or [video_id] and [status]),
    or reject. *)
Inductive TestReply : Type :=
| TestAnswered (ok : bool) (code : Z) (responseText : string)
    (parsed : string + option string * option string)
| TestThrows (message : string).

Definition minimalRequest (replicaId : string) : Payload :=
  [ ("replica_id", JStr replicaId);
    ("script", JStr "This is a test video to verify API connectivity and replica status.") ].

Definition test_failure (message : string) : TavusTestResult :=
  {| test_success := false; test_error := Some message; test_data := None |}.

Definition testTavusConnection (env : ProcessEnv) (r : TestReply)
  : list Effect * TavusTestResult :=
  if negb (truthy (EXPO_PUBLIC_TAVUS_API_KEY env)) then
    ([], test_failure "EXPO_PUBLIC_TAVUS_API_KEY environment variable is missing")
  else if negb (truthy (EXPO_PUBLIC_TAVUS_REPLICA_ID env)) then
    ([], test_failure "EXPO_PUBLIC_TAVUS_REPLICA_ID environment variable is missing")
  else
    let replicaId := js_or_default (EXPO_PUBLIC_TAVUS_REPLICA_ID env) "" in
    let post := HttpPost "https://tavusapi.com/v2/videos" (minimalRequest replicaId) in
    match r with
    | TestThrows message => ([post], test_failure message)
    | TestAnswered ok code responseText parsed =>
        if ok then
          match parsed with
          | inl message => ([post], test_failure message)
          | inr (video_id, status) =>
              ([post],
               {| test_success := true; test_error := None;
                  test_data := Some (video_id, status, "Tavus API is working correctly") |})
          end
        else
          ([post], test_failure ("HTTP " +:+ string_of_Z code +:+ ": " +:+ responseText))
    end.

(** [validateTavusEnvironment]: [valid] and [issues]. *)
Definition validateTavusEnvironment (env : ProcessEnv) : bool * list string :=
  let issues :=
    (if negb (truthy (EXPO_PUBLIC_TAVUS_API_KEY env))
     then ["Missing EXPO_PUBLIC_TAVUS_API_KEY environment variable"] else [])
    ++ (if negb (truthy (EXPO_PUBLIC_TAVUS_REPLICA_ID env))
        then ["Missing EXPO_PUBLIC_TAVUS_REPLICA_ID environment variable"] else []) in
  ((length issues =? 0)%nat, issues).

(** ** The hook [useVideoLibrary] *)

Module VideoLibrary.

(** A [VideoLibraryItem]; [created_at] is the time value of
    [new Date(v.created_at)], in milliseconds. *)
Record VideoLibraryItem : Type := {
  id : string;
  title : string;
  thumbnail_url : option string;
  video_url : string;
  created_at : Z;
  updated_at : string;
  duration : option Z;
  activity_type : option string;
  status : RecStatus;
  script_content : option string;
  tavus_job_id : option string;
  cost_estimate : option Q;
  error_message : option string;
  run_id : option string
}.

Record VideoStats : Type := {
  totalVideos : nat;
  completedVideos : nat;
  processingVideos : nat;
  failedVideos : nat;
  thisWeek : nat;
  thisMonth : nat;
  totalDuration : Z
}.

Definition count (p : VideoLibraryItem -> bool) (videos : list VideoLibraryItem) : nat :=
  length (List.filter p videos).

Definition is_status (s : RecStatus) (v : VideoLibraryItem) : bool :=
  bool_decide (status v = s).

(** [getVideoStats]; [now] is [new Date().getTime()]. *)
Definition getVideoStats (now : Z) (videos : list VideoLibraryItem) : VideoStats :=
  let weekAgo := now - 7 * 24 * 60 * 60 * 1000 in
  let monthAgo := now - 30 * 24 * 60 * 60 * 1000 in
  {| totalVideos := length videos;
     completedVideos := count (is_status rec_completed) videos;
     processingVideos :=
       count (fun v => is_status rec_processing v || is_status rec_pending v) videos;
     failedVideos := count (is_status rec_failed) videos;
     thisWeek := count (fun v => weekAgo <? created_at v) videos;
     thisMonth := count (fun v => monthAgo <? created_at v) videos;
     totalDuration :=
       fold_left (fun sum v => sum + match duration v with Some d => d | None => 0 end)
         videos 0 |}.

(** [videos.find(v => v.id === videoId)] *)
Definition getVideoById (videoId : string) (videos : list VideoLibraryItem)
  : option VideoLibraryItem :=
  List.find (fun v => String.eqb (id v) videoId) videos.

Definition getVideosByStatus (s : RecStatus) (videos : list VideoLibraryItem)
  : list VideoLibraryItem :=
  List.filter (is_status s) videos.

(** [{ ...v, title: newTitle }] *)
Definition with_title (newTitle : string) (v : VideoLibraryItem) : VideoLibraryItem :=
  {| id := id v; title := newTitle; thumbnail_url := thumbnail_url v;
     video_url := video_url v; created_at := created_at v; updated_at := updated_at v;
     duration := duration v; activity_type := activity_type v; status := status v;
     script_content := script_content v; tavus_job_id := tavus_job_id v;
     cost_estimate := cost_estimate v; error_message := error_message v;
     run_id := run_id v |}.

(** The local state after [deleteVideo] has succeeded. *)
Definition deleteVideo_local (videoId : string) (videos : list VideoLibraryItem)
  : list VideoLibraryItem :=
  List.filter (fun v => negb (String.eqb (id v) videoId)) videos.

(** The local state after [updateVideoTitle] has succeeded. *)
Definition updateVideoTitle_local (videoId newTitle : string)
    (videos : list VideoLibraryItem) : list VideoLibraryItem :=
  map (fun v => if String.eqb (id v) videoId then with_title newTitle v else v) videos.

End VideoLibrary.

(** ** The hook [useApiUsage] *)

Module ApiUsage.

(** An [ApiUsageRecord], without its two untyped fields [request_payload]
    and [response_data], which the hook never reads. *)
Record ApiUsageRecord : Type := {
  id : string;
  user_id : string;
  api_service : string;
  request_type : string;
  request_timestamp : string;
  response_status : string;
  cost_estimate : option Q
}.

Record UsageLimits : Type := {
  maxVideoGenerations : Z;
  currentCount : Z;
  remainingCount : Z;
  canGenerate : bool
}.

(** The records [fetchUsageData] counts. *)
Definition is_video_generation (r : ApiUsageRecord) : bool :=
  String.eqb (api_service r) "tavus"
  && String.eqb (request_type r) "video_generation"
  && String.eqb (response_status r) "success".

(** The limits [fetchUsageData] sets from the records it has read. *)
Definition limits_of (data : list ApiUsageRecord) : UsageLimits :=
  let currentCount := Z.of_nat (length (List.filter is_video_generation data)) in
  let maxVideoGenerations := 3 in
  let remainingCount := Z.max 0 (maxVideoGenerations - currentCount) in
  {| maxVideoGenerations := maxVideoGenerations;
     currentCount := currentCount;
     remainingCount := remainingCount;
     canGenerate := 0 <? remainingCount |}.

Definition getUsageByService (service : string) (usageRecords : list ApiUsageRecord)
  : list ApiUsageRecord :=
  List.filter (fun r => String.eqb (api_service r) service) usageRecords.

(** [getSuccessRate(service?)], a percentage. *)
Definition getSuccessRate (service : option string) (usageRecords : list ApiUsageRecord) : Q :=
  let relevantRecords :=
    if truthy service then
      List.filter (fun r => String.eqb (api_service r) (js_or_default service "")) usageRecords
    else usageRecords in
  match relevantRecords with
  | [] => 0%Q
  | _ =>
      let successCount :=
        length (List.filter (fun r => String.eqb (response_status r) "success")
                  relevantRecords) in
      ((inject_Z (Z.of_nat successCount) / inject_Z (Z.of_nat (length relevantRecords)))
       * 100)%Q
  end.

End ApiUsage.

(** * More predicates used in the statements *)

(** The message of the [Error] a status request ends with, when it does
    not answer 2xx. *)
Definition reply_error (r : GetReply) : option string :=
  match r with
  | GetOk _ => None
  | GetHttpError code statusText errorText =>
      Some (tavus_api_error code statusText +:+ " - " +:+ errorText)
  | GetThrows message => Some message
  end.

(** The address of the status of a job. *)
Definition status_url (job : string) : string := baseUrl +:+ "/videos/" +:+ job.

(** The provider cannot be reached: every status request is rejected. *)
Definition ticks_unreachable : nat -> PollTick :=
  fun _ => {| now_top := 0; reply := GetThrows "Network request failed"; now_after := 0 |}.

(** The provider reports [failed] on the third poll. *)
Definition ticks_fail_on_third : nat -> PollTick :=
  fun i => if (i <? 2)%nat then tick_at 0 st_processing None
           else tick_at 0 st_failed None.

(** A result is either a success with a media URL and no error, or a
    failure with an error message and no URL. *)
Definition well_formed_result (r : VideoGenerationResult) : Prop :=
  if success r
  then truthy (videoUrl r) = true /\ error r = None /\ is_Some (total_time r)
  else videoUrl r = None /\ exists message, error r = Some message /\ message <> "".


(** The provider answers every status request with [error]. *)
Definition replies_always_error : nat -> GetReply :=
  fun _ => GetOk (status_body st_error None).

(** The row [generateActivityVideo] inserts, and its two updates by id. *)
Definition new_row (user : string) (activity : ActivityData) (script : string)
  : VideoGenerationRecord :=
  {| user_id := user; run_id := id activity; rstatus := rec_pending;
     script_content := script; tavus_job_id := None; rvideo_url := None;
     error_message := None |}.

Definition processing_patch (job : string) : Patch :=
  {| set_status := rec_processing; set_tavus_job_id := Some job;
     set_video_url := None; set_error_message := None |}.

Definition completed_patch (url : option string) : Patch :=
  {| set_status := rec_completed; set_tavus_job_id := None;
     set_video_url := url; set_error_message := None |}.

(** The row of a generation that has succeeded. *)
Definition completed_row (user : string) (activity : ActivityData) (script job : string)
    (url : option string) : VideoGenerationRecord :=
  {| user_id := user; run_id := id activity; rstatus := rec_completed;
     script_content := script; tavus_job_id := Some job; rvideo_url := url;
     error_message := None |}.

(** A library of three videos, and a usage record. *)
Definition library_item (video_id : string) (s : RecStatus) (created : Z)
  : VideoLibrary.VideoLibraryItem :=
  {| VideoLibrary.id := video_id; VideoLibrary.title := "Achievement Video";
     VideoLibrary.thumbnail_url := None; VideoLibrary.video_url := "";
     VideoLibrary.created_at := created; VideoLibrary.updated_at := "";
     VideoLibrary.duration := Some 1800;
     VideoLibrary.activity_type := Some "Running"; VideoLibrary.status := s;
     VideoLibrary.script_content := None; VideoLibrary.tavus_job_id := None;
     VideoLibrary.cost_estimate := None; VideoLibrary.error_message := None;
     VideoLibrary.run_id := Some "a1" |}.

Definition three_videos : list VideoLibrary.VideoLibraryItem :=
  [library_item "r3" rec_pending 3000; library_item "r2" rec_failed 2000;
   library_item "r1" rec_completed 1000].

Definition usage (service type status : string) : ApiUsage.ApiUsageRecord :=
  {| ApiUsage.id := "u"; ApiUsage.user_id := "u1";
     ApiUsage.api_service := service; ApiUsage.request_type := type;
     ApiUsage.request_timestamp := "2025-06-01T07:00:00Z";
     ApiUsage.response_status := status; ApiUsage.cost_estimate := None |}.

(** The hook's world for a job that the provider reports [failed] on the
    third poll. *)
Definition hook_world_failing : Hook.HookWorld :=
  {| Hook.hook_user := Some "u1"; Hook.hook_auth := Some "u1";
     Hook.service_world := world_accepting "r1" "v1" ticks_fail_on_third |}.
(** * Properties *)

Section PollingFacts.

Variable cfg : PollingConfig.
Variable apiKey vid : string.
Variable startTime : Z.
Variable ticks : nat -> PollTick.

Local Abbreviation turn := (poll_turn cfg apiKey vid startTime).
Local Abbreviation loop := (poll_loop cfg apiKey vid startTime ticks).
Local Abbreviation turns := (turns cfg apiKey vid startTime ticks).

Lemma turn_attempts t s fx s' :
  turn t s = (fx, inr s') -> attempts s' = S (attempts s).
Proof.
  unfold poll_turn. intros H.
  destruct (totalTimeout cfg <? now_top t - startTime); [discriminate|].
  destruct (getVideoStatus apiKey vid (reply t)) as [fx0 [msg|r]].
  - destruct (maxAttempts cfg <=? S (attempts s))%nat; inversion H; reflexivity.
  - destruct (status r); try destruct (truthy _);
      try destruct (S (attempts s) <? maxAttempts cfg)%nat;
      inversion H; reflexivity.
Qed.

Lemma turns_attempts n : forall s s',
  turns n s = Some s' -> attempts s' = (attempts s + n)%nat.
Proof.
  induction n as [|n IH]; intros s s' H; simpl in H.
  - inversion H. lia.
  - destruct (attempts s <? maxAttempts cfg)%nat; [|discriminate].
    destruct (turn (ticks (attempts s)) s) as [fx [r|s1]] eqn:E; [discriminate|].
    apply IH in H. apply turn_attempts in E. lia.
Qed.

(** Turns that do not return only consume fuel. *)
Lemma loop_after_turns n : forall fuel s s',
  turns n s = Some s' ->
  snd (loop (n + fuel)%nat s) = snd (loop fuel s').
Proof.
  induction n as [|n IH]; intros fuel s s' H; simpl in H.
  - inversion H. reflexivity.
  - simpl. destruct (attempts s <? maxAttempts cfg)%nat; [|discriminate].
    destruct (turn (ticks (attempts s)) s) as [fx [r|s1]] eqn:E; [discriminate|].
    specialize (IH fuel s1 s' H).
    destruct (loop (n + fuel)%nat s1) as [fx' res]. exact IH.
Qed.

Lemma poll_loop_unfold fuel s :
  poll_loop cfg apiKey vid startTime ticks (S fuel) s
  = if (attempts s <? maxAttempts cfg)%nat
    then match poll_turn cfg apiKey vid startTime (ticks (attempts s)) s with
         | (fx, inl result) => (fx, result)
         | (fx, inr s') =>
             let (fx', result) := poll_loop cfg apiKey vid startTime ticks fuel s' in
             (fx ++ fx', result)
         end
    else ([], max_attempts_result cfg vid (attempts s)).
Proof. reflexivity. Qed.

(** [maxAttempts - attempts] turns are all the loop can make: more fuel
    changes nothing. *)
Lemma poll_loop_fuel fuel : forall s,
  (maxAttempts cfg - attempts s <= fuel)%nat ->
  poll_loop cfg apiKey vid startTime ticks (S fuel) s
  = poll_loop cfg apiKey vid startTime ticks fuel s.
Proof.
  induction fuel as [|fuel IH]; intros s Hle.
  - cbn [poll_loop]. destruct (Nat.ltb_spec (attempts s) (maxAttempts cfg)); [lia|reflexivity].
  - rewrite (poll_loop_unfold (S fuel) s), (poll_loop_unfold fuel s).
    destruct (attempts s <? maxAttempts cfg)%nat; [|reflexivity].
    destruct (poll_turn cfg apiKey vid startTime (ticks (attempts s)) s) as [fx [r|s']] eqn:E;
      [reflexivity|].
    apply turn_attempts in E. rewrite (IH s') by lia. reflexivity.
Qed.

Lemma pollVideoCompletionEnhanced_fuel extra :
  poll_loop cfg apiKey vid startTime ticks (extra + maxAttempts cfg) (poll_init cfg)
  = pollVideoCompletionEnhanced cfg apiKey vid startTime ticks.
Proof.
  induction extra as [|extra IH]; [reflexivity|].
  cbn [Nat.add]. rewrite poll_loop_fuel; [exact IH|]. simpl. lia.
Qed.

(** The check at the top of a turn. *)
Lemma turn_timeout t s :
  totalTimeout cfg < now_top t - startTime ->
  turn t s = ([], inl (timeout_result vid (attempts s) (now_top t - startTime))).
Proof.
  intros H. unfold poll_turn.
  destruct (Z.ltb_spec (totalTimeout cfg) (now_top t - startTime)); [reflexivity|lia].
Qed.

Lemma poll_times_out k s :
  turns k (poll_init cfg) = Some s ->
  (k < maxAttempts cfg)%nat ->
  totalTimeout cfg < now_top (ticks k) - startTime ->
  snd (pollVideoCompletionEnhanced cfg apiKey vid startTime ticks)
  = timeout_result vid k (now_top (ticks k) - startTime).
Proof.
  intros Hk Hlt Ht. unfold pollVideoCompletionEnhanced.
  replace (maxAttempts cfg) with (k + S (maxAttempts cfg - S k))%nat at 1 by lia.
  rewrite (loop_after_turns _ _ _ _ Hk).
  pose proof (turns_attempts _ _ _ Hk) as Ha. simpl in Ha.
  simpl. rewrite Ha.
  destruct (Nat.ltb_spec k (maxAttempts cfg)); [|lia].
  rewrite turn_timeout by exact Ht. rewrite Ha. reflexivity.
Qed.

Lemma poll_exhausts s :
  turns (maxAttempts cfg) (poll_init cfg) = Some s ->
  snd (pollVideoCompletionEnhanced cfg apiKey vid startTime ticks)
  = max_attempts_result cfg vid (maxAttempts cfg).
Proof.
  intros Hk. unfold pollVideoCompletionEnhanced.
  replace (maxAttempts cfg) with (maxAttempts cfg + 0)%nat at 1 by lia.
  rewrite (loop_after_turns _ _ _ _ Hk).
  pose proof (turns_attempts _ _ _ Hk) as Ha. simpl in Ha.
  simpl. rewrite Ha. reflexivity.
Qed.

End PollingFacts.

(** ** Intervals of the configured policy *)

Lemma nmul_eq a b : (nmul a b == a * b)%Q.
Proof. apply Qred_correct. Qed.

Lemma nmin_eq a b : (nmin a b == Qmin a b)%Q.
Proof. apply Qred_correct. Qed.


Lemma next_interval_ok c :
  interval_ok c ->
  (c <= next_interval POLLING_CONFIG c)%Q /\ interval_ok (next_interval POLLING_CONFIG c).
Proof.
  unfold interval_ok, next_interval. simpl. intros [Hlo Hhi].
  rewrite nmin_eq, nmul_eq.
  destruct (Q.min_spec (c * (13 # 10)) 20000) as [[L E]|[L E]]; rewrite E; lra.
Qed.

Lemma pollInterval_processing c : pollInterval false c = c.
Proof. reflexivity. Qed.

Lemma pollInterval_queued c :
  (pollInterval true c == Qmin (c * (3 # 2)) 30000)%Q.
Proof. unfold pollInterval. rewrite nmin_eq, nmul_eq. reflexivity. Qed.

Lemma pollInterval_bounds b c :
  interval_ok c -> (c <= pollInterval b c /\ pollInterval b c <= 30000)%Q.
Proof.
  unfold interval_ok. intros [Hlo Hhi]. destruct b.
  - rewrite pollInterval_queued.
    destruct (Q.min_spec (c * (3 # 2)) 30000) as [[L E]|[L E]]; rewrite E; lra.
  - rewrite pollInterval_processing. lra.
Qed.

Lemma pollInterval_mono b c c' :
  (c <= c')%Q -> (pollInterval b c <= pollInterval b c')%Q.
Proof.
  intros H. destruct b; [|exact H].
  rewrite !pollInterval_queued.
  apply Q.min_le_compat_r. lra.
Qed.

Section IntervalFacts.

Variable apiKey vid : string.
Variable startTime : Z.
Variable ticks : nat -> PollTick.

Local Abbreviation turn := (poll_turn POLLING_CONFIG apiKey vid startTime).
Local Abbreviation loop := (poll_loop POLLING_CONFIG apiKey vid startTime ticks).

Lemma getVideoStatus_waits r : waits (fst (getVideoStatus apiKey vid r)) = [].
Proof.
  unfold getVideoStatus. destruct (String.eqb apiKey ""); [reflexivity|].
  destruct r; reflexivity.
Qed.

Lemma getVideoStatus_ok b :
  apiKey <> "" ->
  exists r, getVideoStatus apiKey vid (GetOk b) = ([HttpGet (baseUrl +:+ "/videos/" +:+ vid)], inr r)
            /\ status r = b_status b.
Proof.
  intros Hk. unfold getVideoStatus.
  destruct (String.eqb_spec apiKey ""); [contradiction|].
  eexists. split; reflexivity.
Qed.

(** What a turn that does not return waits for, and what it leaves in
    the loop variables: nothing on the last attempt; the base interval,
    unchanged, after an error; otherwise the interval of the phase, and
    the base interval goes one step up. *)
Lemma turn_goes_on t s fx s' :
  turn t s = (fx, inr s') ->
  (queuePhase s = false -> queuePhase s' = false)
  /\ ((waits fx = [] /\ currentInterval s' = currentInterval s)
      \/ (waits fx = [currentInterval s]
          /\ currentInterval s' = currentInterval s
          /\ (apiKey = "" \/ forall b, reply t <> GetOk b))
      \/ (waits fx = [pollInterval (queuePhase s') (currentInterval s)]
          /\ currentInterval s' = next_interval POLLING_CONFIG (currentInterval s)
          /\ (forall b, reply t = GetOk b -> b_status b <> st_processing ->
                        queuePhase s' = queuePhase s))).
Proof.
  unfold poll_turn. intros H.
  destruct (totalTimeout POLLING_CONFIG <? now_top t - startTime); [discriminate|].
  pose proof (getVideoStatus_waits (reply t)) as Hw.
  destruct (getVideoStatus apiKey vid (reply t)) as [fx0 [msg|r]] eqn:E; simpl in Hw.
  - destruct (maxAttempts POLLING_CONFIG <=? S (attempts s))%nat; inversion H; subst.
    split; [auto|]. right; left. unfold waits in *. rewrite omap_app, Hw. simpl.
    repeat split.
    unfold getVideoStatus in E. destruct (String.eqb_spec apiKey ""); [left; assumption|].
    right. intros b Hb. rewrite Hb in E. discriminate.
  - assert (Hst : forall b, reply t = GetOk b -> status r = b_status b).
    { intros b Hb. rewrite Hb in E. unfold getVideoStatus in E.
      destruct (String.eqb apiKey ""); inversion E; reflexivity. }
    destruct (status r) eqn:Es; try discriminate;
      try destruct (truthy (usable_url r)); try discriminate;
      destruct (S (attempts s) <? maxAttempts POLLING_CONFIG)%nat;
      inversion H; subst; simpl; (split; [auto|]);
      unfold waits in *; rewrite ?omap_app, Hw; simpl;
      try (left; split; reflexivity);
      right; right; (repeat split);
      intros b Hb Hne; apply Hst in Hb; congruence.
Qed.

Lemma turn_returns_waits t s fx result :
  turn t s = (fx, inl result) -> waits fx = [].
Proof.
  unfold poll_turn. intros H.
  destruct (totalTimeout POLLING_CONFIG <? now_top t - startTime); [inversion H; reflexivity|].
  pose proof (getVideoStatus_waits (reply t)) as Hw.
  destruct (getVideoStatus apiKey vid (reply t)) as [fx0 [msg|r]]; simpl in Hw.
  - destruct (maxAttempts POLLING_CONFIG <=? S (attempts s))%nat; inversion H; subst; exact Hw.
  - destruct (status r); try destruct (truthy (usable_url r));
      try destruct (S (attempts s) <? maxAttempts POLLING_CONFIG)%nat;
      inversion H; subst; exact Hw.
Qed.

(** Unfolding of the loop on its waits. *)
Lemma loop_waits fuel s :
  waits (fst (loop (S fuel) s))
  = if (attempts s <? maxAttempts POLLING_CONFIG)%nat then
      match turn (ticks (attempts s)) s with
      | (fx, inl _) => waits fx
      | (fx, inr s') => waits fx ++ waits (fst (loop fuel s'))
      end
    else [].
Proof.
  cbn [poll_loop]. destruct (attempts s <? maxAttempts POLLING_CONFIG)%nat; [|reflexivity].
  destruct (turn (ticks (attempts s)) s) as [fx [r|s']]; [reflexivity|].
  destruct (loop fuel s') as [fx' r']. simpl. unfold waits. apply omap_app.
Qed.

(** Every wait is between the initial interval and the cap of the queue
    phase. *)
Lemma waits_bounded fuel : forall s,
  interval_ok (currentInterval s) ->
  Forall (fun w => 5000 <= w /\ w <= 30000)%Q (waits (fst (loop fuel s))).
Proof.
  induction fuel as [|fuel IH]; intros s Hok; [constructor|].
  rewrite loop_waits.
  destruct (attempts s <? maxAttempts POLLING_CONFIG)%nat; [|constructor].
  destruct (turn (ticks (attempts s)) s) as [fx [r|s']] eqn:E.
  - rewrite (turn_returns_waits _ _ _ _ E). constructor.
  - destruct (turn_goes_on _ _ _ _ E) as [_ [[W C]|[[W [C _]]|[W [C _]]]]]; rewrite W; simpl.
    + apply IH. rewrite C. exact Hok.
    + constructor; [unfold interval_ok in Hok; lra|]. apply IH. rewrite C. exact Hok.
    + constructor.
      * pose proof (pollInterval_bounds (queuePhase s') _ Hok). unfold interval_ok in Hok. lra.
      * apply IH. rewrite C. apply next_interval_ok, Hok.
Qed.

Lemma Forall_HdRel (a : Q) l : Forall (fun w => a <= w)%Q l -> HdRel Qle a l.
Proof. intros H. destruct H; constructor; assumption. Qed.

(** Once the provider has reported [processing], the waits are the base
    interval: they never decrease and never exceed [maxInterval]. *)
Lemma waits_processing fuel : forall s,
  queuePhase s = false ->
  interval_ok (currentInterval s) ->
  let W := waits (fst (loop fuel s)) in
  Sorted Qle W /\ Forall (fun w => currentInterval s <= w /\ w <= 20000)%Q W.
Proof.
  induction fuel as [|fuel IH]; intros s Hq Hok; [split; constructor|].
  cbv zeta. rewrite loop_waits.
  destruct (attempts s <? maxAttempts POLLING_CONFIG)%nat; [|split; constructor].
  destruct (turn (ticks (attempts s)) s) as [fx [r|s']] eqn:E.
  - rewrite (turn_returns_waits _ _ _ _ E). split; constructor.
  - destruct (turn_goes_on _ _ _ _ E) as [Hq' [[W C]|[[W [C _]]|[W [C _]]]]];
      specialize (Hq' Hq); rewrite W; simpl.
    + destruct (IH s' Hq') as [S1 F1]; [rewrite C; exact Hok|].
      rewrite C in F1. split; assumption.
    + destruct (IH s' Hq') as [S1 F1]; [rewrite C; exact Hok|].
      rewrite C in F1. split.
      * constructor; [exact S1|]. apply Forall_HdRel.
        eapply Forall_impl; [exact F1|]. simpl. intros w [L _]. exact L.
      * constructor; [unfold interval_ok in Hok; lra|exact F1].
    + destruct (next_interval_ok _ Hok) as [Hup Hok'].
      destruct (IH s' Hq') as [S1 F1]; [rewrite C; exact Hok'|].
      rewrite C in F1. rewrite Hq', pollInterval_processing. split.
      * constructor; [exact S1|]. apply Forall_HdRel.
        eapply Forall_impl; [exact F1|]. simpl. intros w [L _]. lra.
      * constructor; [unfold interval_ok in Hok; lra|].
        eapply Forall_impl; [exact F1|]. simpl. intros w [L U]. split; lra.
Qed.

(** While the provider keeps answering, and never with [processing], the
    waits are those of the queue phase and never decrease. *)
Lemma waits_queued fuel : forall s,
  apiKey <> "" ->
  (forall i, exists b, reply (ticks i) = GetOk b /\ b_status b <> st_processing) ->
  queuePhase s = true ->
  interval_ok (currentInterval s) ->
  let W := waits (fst (loop fuel s)) in
  Sorted Qle W /\ Forall (fun w => pollInterval true (currentInterval s) <= w)%Q W.
Proof.
  induction fuel as [|fuel IH]; intros s Hk Hr Hq Hok; [split; constructor|].
  cbv zeta. rewrite loop_waits.
  destruct (attempts s <? maxAttempts POLLING_CONFIG)%nat; [|split; constructor].
  destruct (turn (ticks (attempts s)) s) as [fx [r|s']] eqn:E.
  - rewrite (turn_returns_waits _ _ _ _ E). split; constructor.
  - destruct (Hr (attempts s)) as [b [Hb Hnp]].
    destruct (turn_goes_on _ _ _ _ E) as [_ [[W C]|[[W [C [K|K]]]|[W [C P]]]]].
    + rewrite W. simpl. assert (Hq' : queuePhase s' = true).
      { (* the last attempt leaves the phase as it is unless processing *)
        clear -E Hb Hnp Hq Hk. unfold poll_turn in E.
        destruct (totalTimeout POLLING_CONFIG <? now_top (ticks (attempts s)) - startTime);
          [discriminate|].
        rewrite Hb in E. destruct (getVideoStatus_ok b Hk) as [r [G Hs]].
        rewrite G in E. rewrite Hs in E.
        destruct (b_status b); try congruence;
          try destruct (truthy (usable_url r));
          destruct (S (attempts s) <? maxAttempts POLLING_CONFIG)%nat;
          inversion E; subst; simpl; assumption. }
      destruct (IH s' Hk Hr Hq') as [S1 F1]; [rewrite C; exact Hok|].
      rewrite C in F1. split; assumption.
    + contradiction.
    + exfalso. exact (K b Hb).
    + specialize (P b Hb Hnp). rewrite W. cbn [app].
      destruct (next_interval_ok _ Hok) as [Hup Hok'].
      assert (Hq' : queuePhase s' = true) by congruence.
      destruct (IH s' Hk Hr Hq') as [S1 F1]; [rewrite C; exact Hok'|].
      rewrite C in F1. rewrite Hq'.
      pose proof (pollInterval_mono true _ _ Hup) as Hm.
      split.
      * constructor; [exact S1|]. apply Forall_HdRel.
        eapply Forall_impl; [exact F1|]. intros w L; cbv beta in *; lra.
      * constructor; [apply Qle_refl|].
        eapply Forall_impl; [exact F1|]. intros w L; cbv beta in *; lra.
Qed.

End IntervalFacts.

(** ** The two bounds of the poll loop *)

Section Bounds.

Variable apiKey vid : string.
Variable startTime : Z.
Variable ticks : nat -> PollTick.

Local Abbreviation poll :=
  (pollVideoCompletionEnhanced POLLING_CONFIG apiKey vid startTime ticks).
Local Abbreviation reached :=
  (turns POLLING_CONFIG apiKey vid startTime ticks).

(** C3 (amended).  The poll loop has two independent bounds.  When a
    turn starts more than 600000 ms after the start, the loop returns a
    failure whose message begins "Video generation timeout", with the
    attempts made so far and the elapsed seconds.  When 60 attempts have
    been made and none returned, it returns a failure whose message also
    begins "Video generation timeout", with the attempts made (60) and a
    suggestion, but without the elapsed time: [total_time] is absent. *)
Theorem poll_bounds :
  (forall k s,
      (k < 60)%nat ->
      reached k (poll_init POLLING_CONFIG) = Some s ->
      600000 < now_top (ticks k) - startTime ->
      snd poll = timeout_result vid k (now_top (ticks k) - startTime)
      /\ success (snd poll) = false
      /\ attempts_made (snd poll) = Some k
      /\ total_time (snd poll)
         = Some (round_seconds (now_top (ticks k) - startTime)))
  /\ (forall s,
      reached 60%nat (poll_init POLLING_CONFIG) = Some s ->
      snd poll = max_attempts_result POLLING_CONFIG vid 60
      /\ success (snd poll) = false
      /\ attempts_made (snd poll) = Some 60%nat
      /\ total_time (snd poll) = None
      /\ is_Some (suggestion (snd poll))).
Proof.
  split.
  - intros k s Hk Hr Ht.
    rewrite (poll_times_out POLLING_CONFIG apiKey vid startTime ticks k s Hr Hk Ht).
    repeat split.
  - intros s Hr.
    rewrite (poll_exhausts POLLING_CONFIG apiKey vid startTime ticks s Hr).
    repeat split. eexists; reflexivity.
Qed.

End Bounds.

Lemma poll_bounds_witness :
  snd (pollVideoCompletionEnhanced POLLING_CONFIG "key" "v1" 0 ticks_slow_queue)
  = timeout_result "v1" 7 700000
  /\ snd (pollVideoCompletionEnhanced POLLING_CONFIG "key" "v1" 0 ticks_always_processing)
     = max_attempts_result POLLING_CONFIG "v1" 60.
Proof.
  split.
  - refine (proj1 (proj1 (poll_bounds "key" "v1" 0 ticks_slow_queue) 7%nat _ _ _ _)).
    + lia.
    + vm_compute. reflexivity.
    + vm_compute. reflexivity.
  - refine (proj1 (proj2 (poll_bounds "key" "v1" 0 ticks_always_processing) _ _)).
    vm_compute. reflexivity.
Defined.

(** The failure returned when the attempts run out carries the attempts
    made but no elapsed time, even though the loop got through all 60
    attempts without the time limit firing. *)
Lemma max_attempts_result_lacks_elapsed_time :
  let run := pollVideoCompletionEnhanced POLLING_CONFIG "key" "v1" 0 ticks_always_processing in
  is_Some (turns POLLING_CONFIG "key" "v1" 0 ticks_always_processing 60
             (poll_init POLLING_CONFIG))
  /\ attempts_made (snd run) = Some 60%nat
  /\ total_time (snd run) = None
  /\ ~ carries_elapsed_and_attempts (snd run).
Proof.
  cbv zeta. split; [|split; [|split]].
  - vm_compute. eexists; reflexivity.
  - vm_compute. reflexivity.
  - vm_compute. reflexivity.
  - intros [[t Ht] _]. vm_compute in Ht. discriminate.
Qed.

(** ** The waits between polls *)

Section Waits.

Variable apiKey vid : string.
Variable startTime : Z.
Variable ticks : nat -> PollTick.

Local Abbreviation loop := (poll_loop POLLING_CONFIG apiKey vid startTime ticks).
Local Abbreviation reached :=
  (turns POLLING_CONFIG apiKey vid startTime ticks).

(** The effects of the turns already made come first in the log. *)
Lemma loop_after_turns_effects n : forall fuel s s',
  reached n s = Some s' ->
  exists before, fst (loop (n + fuel)%nat s) = before ++ fst (loop fuel s').
Proof.
  induction n as [|n IH]; intros fuel s s' H; cbn [turns] in H.
  - inversion H. exists []. reflexivity.
  - cbn [Nat.add poll_loop].
    destruct (attempts s <? maxAttempts POLLING_CONFIG)%nat; [|discriminate].
    destruct (poll_turn POLLING_CONFIG apiKey vid startTime (ticks (attempts s)) s)
      as [fx [r|s1]] eqn:E; [discriminate|].
    destruct (IH fuel s1 s' H) as [before Hb].
    destruct (loop (n + fuel)%nat s1) as [fx' res]. simpl in Hb. subst fx'.
    exists (fx ++ before). simpl. apply app_assoc.
Qed.

(** The base interval never decreases and stays within its bounds. *)
Lemma base_interval_grows n : forall s s',
  reached n s = Some s' ->
  interval_ok (currentInterval s) ->
  (currentInterval s <= currentInterval s')%Q /\ interval_ok (currentInterval s').
Proof.
  induction n as [|n IH]; intros s s' H Hok; cbn [turns] in H.
  - inversion H; subst. split; [apply Qle_refl|exact Hok].
  - destruct (attempts s <? maxAttempts POLLING_CONFIG)%nat; [|discriminate].
    destruct (poll_turn POLLING_CONFIG apiKey vid startTime (ticks (attempts s)) s)
      as [fx [r|s1]] eqn:E; [discriminate|].
    destruct (turn_goes_on _ _ _ _ _ _ _ E) as [_ [[_ C]|[[_ [C _]]|[_ [C _]]]]].
    + rewrite <- C. apply IH; [exact H|rewrite C; exact Hok].
    + rewrite <- C. apply IH; [exact H|rewrite C; exact Hok].
    + destruct (next_interval_ok _ Hok) as [Hup Hok'].
      destruct (IH s1 s' H) as [L K]; [rewrite C; exact Hok'|].
      rewrite C in L. split; [lra|exact K].
Qed.

Lemma reached_add a : forall b s s',
  reached (a + b)%nat s = Some s' ->
  exists m, reached a s = Some m /\ reached b m = Some s'.
Proof.
  induction a as [|a IH]; intros b s s' H.
  - exists s. split; [reflexivity|exact H].
  - cbn [Nat.add turns] in *.
    destruct (attempts s <? maxAttempts POLLING_CONFIG)%nat; [|discriminate].
    destruct (poll_turn POLLING_CONFIG apiKey vid startTime (ticks (attempts s)) s)
      as [fx [r|s1]]; [discriminate|].
    apply IH, H.
Qed.

Lemma poll_init_ok : interval_ok (currentInterval (poll_init POLLING_CONFIG)).
Proof. unfold interval_ok. simpl. lra. Qed.

(** C8 (amended).  The base interval starts at 5000 ms, is multiplied by
    1.3 after each wait of a turn that got an answer, and is capped at
    the configured maximum of 20000 ms: it never decreases and never
    exceeds that maximum.  The wait actually used is the base interval
    once processing has been reported, and min(1.5 x base, 30000) while
    the job is still queued; so for the same base interval the queued
    wait is at least the processing wait, every wait is between 5000 and
    30000 ms (the queue phase has its own cap, above the configured
    maximum), the waits never decrease while the provider keeps
    answering with a status other than [processing], and from the first
    [processing] answer on they never decrease and never exceed 20000
    ms.  (A wait may be shorter than the one before when the queue phase
    ends or when a poll fails during the queue phase.) *)
Theorem poll_waits :
  let W := waits (fst (pollVideoCompletionEnhanced POLLING_CONFIG apiKey vid startTime ticks)) in
  (* the base interval *)
  (forall i j si sj,
      (i <= j)%nat ->
      reached i (poll_init POLLING_CONFIG) = Some si ->
      reached j (poll_init POLLING_CONFIG) = Some sj ->
      (currentInterval si <= currentInterval sj)%Q
      /\ (currentInterval sj <= maxInterval POLLING_CONFIG)%Q)
  (* queued against processing, same base interval *)
  /\ (forall c, interval_ok c ->
        pollInterval false c = c
        /\ (pollInterval true c == Qmin (c * (3 # 2)) 30000)%Q
        /\ (pollInterval false c <= pollInterval true c)%Q)
  (* all waits *)
  /\ Forall (fun w => 5000 <= w /\ w <= 30000)%Q W
  (* the queue phase *)
  /\ (apiKey <> "" ->
      (forall i, exists b, reply (ticks i) = GetOk b /\ b_status b <> st_processing) ->
      Sorted Qle W)
  (* the processing phase *)
  /\ (forall n s,
        reached n (poll_init POLLING_CONFIG) = Some s ->
        queuePhase s = false ->
        exists before after,
          W = before ++ after
          /\ after = waits (fst (loop (60 - n) s))
          /\ Sorted Qle after
          /\ Forall (fun w => w <= maxInterval POLLING_CONFIG)%Q after).
Proof.
  cbv zeta. split; [|split; [|split; [|split]]].
  - intros i j si sj Hij Hi Hj.
    replace j with (i + (j - i))%nat in Hj by lia.
    destruct (reached_add _ _ _ _ Hj) as [m [Hm Hmj]].
    rewrite Hi in Hm. inversion Hm; subst m.
    destruct (base_interval_grows _ _ _ Hi poll_init_ok) as [_ Hoki].
    destruct (base_interval_grows _ _ _ Hmj Hoki) as [L [_ U]].
    split; [exact L|exact U].
  - intros c Hc. split; [reflexivity|]. split; [apply pollInterval_queued|].
    apply (pollInterval_bounds true c Hc).
  - apply waits_bounded, poll_init_ok.
  - intros Hk Hr.
    apply (waits_queued apiKey vid startTime ticks 60 (poll_init POLLING_CONFIG) Hk Hr);
      [reflexivity|apply poll_init_ok].
  - intros n s Hn Hq.
    assert (Hle : (n <= 60)%nat).
    { pose proof (turns_attempts _ _ _ _ _ _ _ _ Hn) as Ha. simpl in Ha.
      destruct n as [|n]; [lia|].
      replace (S n) with (n + 1)%nat in Hn by lia.
      destruct (reached_add _ _ _ _ Hn) as [m [Hm Hlast]].
      pose proof (turns_attempts _ _ _ _ _ _ _ _ Hm) as Hb. simpl in Hb.
      cbn [turns] in Hlast. simpl maxAttempts in Hlast.
      destruct (Nat.ltb_spec (attempts m) 60); [lia|discriminate]. }
    destruct (loop_after_turns_effects n (60 - n) _ _ Hn) as [before Hb].
    replace (n + (60 - n))%nat with 60%nat in Hb by lia.
    destruct (base_interval_grows _ _ _ Hn poll_init_ok) as [_ Hok].
    destruct (waits_processing apiKey vid startTime ticks (60 - n) s Hq Hok) as [Hs Hf].
    exists (waits before), (waits (fst (loop (60 - n) s))).
    split; [|split; [reflexivity|split; [exact Hs|]]].
    + unfold pollVideoCompletionEnhanced. simpl maxAttempts.
      rewrite Hb. unfold waits. apply omap_app.
    + eapply Forall_impl; [exact Hf|]. intros w [_ U]. exact U.
Qed.

End Waits.

Lemma poll_waits_witness :
  Sorted Qle (waits (fst (pollVideoCompletionEnhanced POLLING_CONFIG "key" "v1" 0
                            ticks_always_queued)))
  /\ (pollInterval false 5000 <= pollInterval true 5000)%Q.
Proof.
  pose proof (poll_waits "key" "v1" 0 ticks_always_queued) as H. cbv zeta in H.
  destruct H as [_ [Hq [_ [Hs _]]]].
  split.
  - apply Hs.
    + discriminate.
    + intros i. exists (status_body st_queued None). split; [reflexivity|discriminate].
  - apply (Hq 5000%Q). unfold interval_ok. split; unfold Qle; simpl; lia.
Defined.

(** A wait can be shorter than the one before, and can exceed the
    configured maximum interval: after one [queued] answer the loop waits
    7500 ms, after the following [processing] answer 6500 ms; and the
    seventh wait of a job that stays queued is 30000 ms, above
    [maxInterval] = 20000 ms. *)
Lemma waits_decrease_and_exceed_maxInterval :
  firstn 2 (waits (fst (pollVideoCompletionEnhanced POLLING_CONFIG "key" "v1" 0
                          ticks_queued_then_processing)))
  = [7500%Q; 6500%Q]
  /\ ~ Sorted Qle (waits (fst (pollVideoCompletionEnhanced POLLING_CONFIG "key" "v1" 0
                                 ticks_queued_then_processing)))
  /\ nth 6 (waits (fst (pollVideoCompletionEnhanced POLLING_CONFIG "key" "v1" 0
                          ticks_always_queued))) 0%Q
     = 30000%Q
  /\ (maxInterval POLLING_CONFIG < 30000)%Q.
Proof.
  split; [vm_compute; reflexivity|]. split; [|split; [vm_compute; reflexivity|reflexivity]].
  intros H.
  remember (waits (fst (pollVideoCompletionEnhanced POLLING_CONFIG "key" "v1" 0
                          ticks_queued_then_processing))) as W eqn:E.
  vm_compute in E. subst W.
  inversion H as [|a l Hs Hh]; subst. inversion Hh as [|b l' Hle]; subst.
  vm_compute in Hle. apply Hle. reflexivity.
Qed.

(** ** [completed] without a media URL *)

(** A [completed] answer without [hosted_url] and [download_url] is
    neither a success nor a failure for the loop: below the last attempt
    it waits and polls again. *)
Lemma completed_without_url_goes_on apiKey vid startTime t s b :
  apiKey <> "" ->
  reply t = GetOk b ->
  b_status b = st_completed ->
  truthy (b_hosted_url b) = false ->
  truthy (b_download_url b) = false ->
  now_top t - startTime <= 600000 ->
  (S (attempts s) < 60)%nat ->
  exists s',
    poll_turn POLLING_CONFIG apiKey vid startTime t s
    = ([HttpGet (baseUrl +:+ "/videos/" +:+ vid);
        Sleep (pollInterval (queuePhase s) (currentInterval s))], inr s')
    /\ attempts s' = S (attempts s).
Proof.
  intros Hk Hr Hs Hh Hd Ht Ha. unfold poll_turn. simpl totalTimeout. simpl maxAttempts.
  destruct (Z.ltb_spec 600000 (now_top t - startTime)); [lia|].
  rewrite Hr. unfold getVideoStatus. destruct (String.eqb_spec apiKey ""); [contradiction|].
  cbn [status]. rewrite Hs. unfold usable_url, js_or. cbn [hosted_url download_url video_url].
  rewrite Hh, Hd, Hd.
  destruct (Nat.ltb_spec (S (attempts s)) 60); [|lia].
  eexists. split; reflexivity.
Qed.

(** C1.  The code at the failing inputs.  In scenario B ([queued] three
    times, then [completed] with no URL field) the service goes on polling
    to the 60th attempt and then fails with the message of the attempt
    ceiling, not with a missing-result error; the record does end
    [failed].  And when a later poll brings a URL, the job that was
    [completed] without a URL ends as a success. *)
Theorem completed_without_url_is_polled_again :
  length (gets (fst (fst run_scenario_B))) = 60%nat
  /\ success (snd run_scenario_B) = false
  /\ error (snd run_scenario_B)
     = Some "Video generation timeout - exceeded maximum polling attempts (60). Video may still be processing."
  /\ rstatus <$> (snd (fst run_scenario_B) !! "r1") = Some rec_failed
  /\ (let late := pollVideoCompletionEnhanced POLLING_CONFIG "key" "v1" 0
                    ticks_url_on_second_poll in
      success (snd late) = true
      /\ attempts_made (snd late) = Some 2%nat
      /\ videoUrl (snd late) = Some "https://x/v.mp4"
      /\ waits (fst late) = [7500%Q]).
Proof. vm_compute. repeat split; reflexivity. Qed.

(** The older loop of the same class returns at the first [completed]
    answer, with or without a URL: on the replies of scenario B it
    returns after four requests. *)
Lemma pollVideoCompletion_returns_on_completed :
  let run := pollVideoCompletion "key" "v1" (fun i => reply (ticks_scenario_B i)) 30 3000 in
  length (gets (fst run)) = 4%nat
  /\ exists st, snd run = inr st /\ status st = st_completed /\ usable_url st = None.
Proof. vm_compute. split; [reflexivity|]. eexists. repeat split. Qed.

(** ** The table during and after a call of the service *)

Lemma status_at_insert key nid r (db : Table) :
  status_at key (<[nid := r]> db)
  = if decide (nid = key) then Some (rstatus r) else status_at key db.
Proof.
  unfold status_at. destruct (decide (nid = key)) as [->|Hne].
  - rewrite lookup_insert_eq. reflexivity.
  - rewrite lookup_insert_ne by exact Hne. reflexivity.
Qed.

Lemma status_at_update_by_id key nid p (db : Table) :
  status_at key (db_update_by_id nid p db)
  = if decide (nid = key) then (fun _ => set_status p) <$> status_at key db
    else status_at key db.
Proof.
  unfold status_at, db_update_by_id. destruct (decide (nid = key)) as [->|Hne].
  - rewrite lookup_alter_eq. destruct (db !! key); reflexivity.
  - rewrite lookup_alter_ne by exact Hne. reflexivity.
Qed.

Lemma lookup_update_where key owner statuses p (db : Table) :
  db_update_where owner statuses p db !! key
  = (fun r => if row_matches owner statuses r then apply_patch p r else r) <$> db !! key.
Proof. unfold db_update_where. apply lookup_fmap. Qed.

Lemma row_matches_spec owner statuses r :
  row_matches owner statuses r = true <-> user_id r = owner /\ rstatus r ∈ statuses.
Proof.
  unfold row_matches. rewrite andb_true_iff, bool_decide_eq_true.
  split; intros [H1 H2]; split; try assumption.
  - apply String.eqb_eq, H1.
  - apply String.eqb_eq, H1.
Qed.

Lemma in_pending_or_processing s :
  s ∈ pending_or_processing <-> s = rec_pending \/ s = rec_processing.
Proof.
  unfold pending_or_processing. rewrite !elem_of_cons, elem_of_nil. tauto.
Qed.

Lemma transition_ok_refl a : transition_ok a a = true.
Proof. destruct a as [[]|]; reflexivity. Qed.

Lemma steps_ok_cons {A} (R : A -> A -> bool) a b l :
  steps_ok R (a :: b :: l) = R a b && steps_ok R (b :: l).
Proof. reflexivity. Qed.

Lemma table_history_head db fx : exists rest, table_history db fx = db :: rest.
Proof. destruct fx; eexists; reflexivity. Qed.

Lemma status_history_cons R key db e fx :
  steps_ok R (status_history key db (e :: fx))
  = R (status_at key db) (status_at key (apply_effect e db))
    && steps_ok R (status_history key (apply_effect e db) fx).
Proof.
  unfold status_history. cbn [table_history map].
  destruct (table_history_head (apply_effect e db) fx) as [rest ->].
  reflexivity.
Qed.

Lemma status_history_app R key fx1 : forall db fx2,
  steps_ok R (status_history key db (fx1 ++ fx2))
  = steps_ok R (status_history key db fx1)
    && steps_ok R (status_history key (replay fx1 db) fx2).
Proof.
  induction fx1 as [|e fx1 IH]; intros db fx2.
  - reflexivity.
  - cbn [app]. rewrite !status_history_cons, IH, andb_assoc. reflexivity.
Qed.

Lemma replay_app fx1 fx2 db : replay (fx1 ++ fx2) db = replay fx2 (replay fx1 db).
Proof. unfold replay. apply fold_left_app. Qed.

Lemma quiet_replay fx : forall db, forallb quiet fx = true -> replay fx db = db.
Proof.
  induction fx as [|e fx IH]; intros db H; [reflexivity|].
  cbn [forallb] in H. apply andb_true_iff in H as [He Hfx].
  unfold replay. cbn [fold_left]. change (replay fx (apply_effect e db) = db).
  rewrite IH by exact Hfx. destruct e; try discriminate; reflexivity.
Qed.

Lemma quiet_history key fx : forall db,
  forallb quiet fx = true -> steps_ok transition_ok (status_history key db fx) = true.
Proof.
  induction fx as [|e fx IH]; intros db H; [reflexivity|].
  cbn [forallb] in H. apply andb_true_iff in H as [He Hfx].
  rewrite status_history_cons.
  assert (E : apply_effect e db = db) by (destruct e; try discriminate; reflexivity).
  rewrite E, transition_ok_refl, IH by exact Hfx. reflexivity.
Qed.

(** The poll loop only fetches and waits. *)
Lemma getVideoStatus_fetches apiKey vid r :
  forallb fetch_or_sleep (fst (getVideoStatus apiKey vid r)) = true.
Proof.
  unfold getVideoStatus. destruct (String.eqb apiKey ""); [reflexivity|].
  destruct r; reflexivity.
Qed.

Lemma poll_turn_fetches cfg apiKey vid startTime t s :
  forallb fetch_or_sleep (fst (poll_turn cfg apiKey vid startTime t s)) = true.
Proof.
  unfold poll_turn.
  destruct (totalTimeout cfg <? now_top t - startTime); [reflexivity|].
  pose proof (getVideoStatus_fetches apiKey vid (reply t)) as Hq.
  destruct (getVideoStatus apiKey vid (reply t)) as [fx0 [msg|r]]; simpl in Hq.
  - destruct (maxAttempts cfg <=? S (attempts s))%nat; simpl;
      rewrite ?forallb_app, Hq; reflexivity.
  - destruct (status r); try destruct (truthy (usable_url r));
      try destruct (S (attempts s) <? maxAttempts cfg)%nat; simpl;
      rewrite ?forallb_app, Hq; reflexivity.
Qed.

Lemma poll_loop_fetches cfg apiKey vid startTime ticks fuel : forall s,
  forallb fetch_or_sleep (fst (poll_loop cfg apiKey vid startTime ticks fuel s)) = true.
Proof.
  induction fuel as [|fuel IH]; intros s; [reflexivity|].
  cbn [poll_loop]. destruct (attempts s <? maxAttempts cfg)%nat; [|reflexivity].
  pose proof (poll_turn_fetches cfg apiKey vid startTime (ticks (attempts s)) s) as Hq.
  destruct (poll_turn cfg apiKey vid startTime (ticks (attempts s)) s) as [fx [r|s']];
    simpl in Hq; [exact Hq|].
  specialize (IH s').
  destruct (poll_loop cfg apiKey vid startTime ticks fuel s') as [fx' r'].
  simpl in *. rewrite forallb_app, Hq, IH. reflexivity.
Qed.

Lemma fetches_quiet fx : forallb fetch_or_sleep fx = true -> forallb quiet fx = true.
Proof.
  induction fx as [|e fx IH]; [reflexivity|]. cbn [forallb].
  rewrite !andb_true_iff. intros [He Hfx]. split; [|apply IH, Hfx].
  destruct e; try discriminate; reflexivity.
Qed.

Lemma fetches_no_posts fx : forallb fetch_or_sleep fx = true -> posts fx = [].
Proof.
  induction fx as [|e fx IH]; [reflexivity|]. cbn [forallb].
  rewrite andb_true_iff. intros [He Hfx]. unfold posts in *. cbn [omap list_omap].
  destruct e; try discriminate; apply IH, Hfx.
Qed.

Lemma poll_loop_quiet cfg apiKey vid startTime ticks fuel s :
  forallb quiet (fst (poll_loop cfg apiKey vid startTime ticks fuel s)) = true.
Proof. apply fetches_quiet, poll_loop_fetches. Qed.

(** The update of the [catch]: a row it touches was [pending] or
    [processing] and becomes [failed]. *)
Lemma update_where_failed_transition key owner p (db : Table) :
  set_status p = rec_failed ->
  transition_ok (status_at key db)
    (status_at key (db_update_where owner pending_or_processing p db)) = true.
Proof.
  intros Hp. unfold status_at. rewrite lookup_update_where.
  destruct (db !! key) as [r|]; [|reflexivity]. cbn [fmap option_fmap option_map].
  destruct (row_matches owner pending_or_processing r) eqn:M.
  - apply row_matches_spec in M as [_ M]. apply in_pending_or_processing in M.
    cbn [apply_patch rstatus]. rewrite Hp. destruct M as [-> | ->]; reflexivity.
  - apply transition_ok_refl.
Qed.

Lemma catch_history key w message db :
  steps_ok transition_ok
    (status_history key db (fst (fst (generateActivityVideo_catch w message db)))) = true
  /\ snd (fst (generateActivityVideo_catch w message db))
     = replay (fst (fst (generateActivityVideo_catch w message db))) db.
Proof.
  unfold generateActivityVideo_catch. destruct (auth_catch w) as [user|]; [|split; reflexivity].
  cbn [fst snd]. split; [|reflexivity].
  rewrite status_history_cons. cbn [apply_effect].
  rewrite update_where_failed_transition by reflexivity. reflexivity.
Qed.

Lemma initiateVideoGeneration_effects env w activity script :
  fst (initiateVideoGeneration env w activity script)
  = [HttpPost (baseUrl +:+ "/videos") (enhanced_payload env activity script (now_submit w))].
Proof. unfold initiateVideoGeneration. destruct (post_reply w); reflexivity. Qed.

Lemma insert_transition key new_id r (db : Table) :
  db !! new_id = None -> rstatus r = rec_pending ->
  transition_ok (status_at key db) (status_at key (<[new_id := r]> db)) = true.
Proof.
  intros Hl Hr. rewrite status_at_insert. destruct (decide (new_id = key)) as [->|Hne].
  - unfold status_at. rewrite Hl, Hr. reflexivity.
  - apply transition_ok_refl.
Qed.

Lemma update_by_id_transition key new_id p (db : Table) (from : RecStatus) :
  status_at new_id db = Some from ->
  transition_ok (Some from) (Some (set_status p)) = true ->
  transition_ok (status_at key db) (status_at key (db_update_by_id new_id p db)) = true.
Proof.
  intros Hs Ht. rewrite status_at_update_by_id. destruct (decide (new_id = key)) as [->|Hne].
  - rewrite Hs. exact Ht.
  - apply transition_ok_refl.
Qed.

Lemma status_at_same_insert new_id r (db : Table) :
  status_at new_id (<[new_id := r]> db) = Some (rstatus r).
Proof. unfold status_at. rewrite lookup_insert_eq. reflexivity. Qed.

Lemma status_at_same_update new_id p (db : Table) s :
  status_at new_id db = Some s ->
  status_at new_id (db_update_by_id new_id p db) = Some (set_status p).
Proof.
  intros H. rewrite status_at_update_by_id. destruct (decide (new_id = new_id)); [|congruence].
  rewrite H. reflexivity.
Qed.

Lemma try_history key env w activity db :
  let run := generateActivityVideo_try env w activity db in
  steps_ok transition_ok (status_history key db (fst (fst run))) = true
  /\ snd (fst run) = replay (fst (fst run)) db
  /\ (forall result, snd run = inr result -> success result = true)
  /\ (forall message user new_id,
        snd run = inl message ->
        auth_try w = Some user -> insert_reply w = inr new_id -> db !! new_id = None ->
        exists r, snd (fst run) !! new_id = Some r /\ left_in_flight user activity r).
Proof.
  cbv zeta. unfold generateActivityVideo_try.
  destruct (auth_try w) as [user|] eqn:Ha.
  2:{ split; [reflexivity|]. split; [reflexivity|]. split; intros; discriminate. }
  destruct (insert_reply w) as [msg|new_id] eqn:Hi.
  { split; [apply quiet_history; reflexivity|]. split; [reflexivity|].
    split; intros; discriminate. }
  destruct (db !! new_id) as [old|] eqn:Hl.
  { split; [apply quiet_history; reflexivity|]. split; [reflexivity|].
    split; [intros; discriminate|].
    intros ? ? ? _ _ E F. inversion E; subst. congruence. }
  remember {| user_id := user; run_id := id activity; rstatus := rec_pending;
              script_content := script_text w; tavus_job_id := None;
              rvideo_url := None; error_message := None |} as row eqn:Hrow.
  assert (Hpending : rstatus row = rec_pending) by (subst row; reflexivity).
  pose proof (initiateVideoGeneration_effects env w activity (script_text w)) as Hfx2.
  destruct (initiateVideoGeneration env w activity (script_text w)) as [fx2 [msg|[video_id st]]];
    simpl in Hfx2; subst fx2.
  - (* the submission failed *)
    cbn [fst snd app]. split; [|split; [reflexivity|split; [intros; discriminate|]]].
    + rewrite status_history_cons. cbn [apply_effect].
      rewrite insert_transition by assumption.
      apply quiet_history. reflexivity.
    + intros message u n _ Hu Hn _. inversion Hu; inversion Hn; subst.
      eexists. split; [apply lookup_insert_eq|].
      repeat split. left; reflexivity.
  - pose proof (poll_loop_quiet POLLING_CONFIG (service_apiKey env) video_id (poll_start w)
                  (poll_ticks w) (maxAttempts POLLING_CONFIG) (poll_init POLLING_CONFIG)) as Hq.
    fold (pollVideoCompletionEnhanced POLLING_CONFIG (service_apiKey env) video_id
            (poll_start w) (poll_ticks w)) in Hq.
    destruct (pollVideoCompletionEnhanced POLLING_CONFIG (service_apiKey env) video_id
                (poll_start w) (poll_ticks w)) as [fx4 pollResult].
    cbn [fst] in Hq.
    set (p := {| set_status := rec_processing; set_tavus_job_id := Some video_id;
                 set_video_url := None; set_error_message := None |}).
    set (post := HttpPost (baseUrl +:+ "/videos")
                   (enhanced_payload env activity (script_text w) (now_submit w))).
    assert (H1 : status_at new_id (<[new_id := row]> db) = Some rec_pending).
    { rewrite status_at_same_insert. f_equal. exact Hpending. }
    assert (H2 : status_at new_id (db_update_by_id new_id p (<[new_id := row]> db))
                 = Some rec_processing).
    { apply (status_at_same_update new_id p _ _ H1). }
    assert (Hr12 : replay ([DbInsert new_id row] ++ [post] ++ [DbUpdateById new_id p] ++ fx4) db
                   = db_update_by_id new_id p (<[new_id := row]> db)).
    { rewrite !replay_app. rewrite (quiet_replay fx4) by exact Hq. reflexivity. }
    assert (Hs12 : steps_ok transition_ok
                     (status_history key db
                        ([DbInsert new_id row] ++ [post] ++ [DbUpdateById new_id p] ++ fx4))
                   = true).
    { cbn [app]. rewrite !status_history_cons. cbn [apply_effect]. subst post. cbn [apply_effect].
      rewrite insert_transition by assumption.
      rewrite transition_ok_refl.
      rewrite (update_by_id_transition key new_id p _ rec_pending H1) by reflexivity.
      rewrite quiet_history by exact Hq. reflexivity. }
    destruct (success pollResult && truthy (videoUrl pollResult)) eqn:Hok.
    + cbn [fst snd].
      set (q := {| set_status := rec_completed; set_tavus_job_id := None;
                   set_video_url := videoUrl pollResult; set_error_message := None |}).
      split; [|split; [|split; [|intros; discriminate]]].
      * rewrite !app_assoc. rewrite status_history_app. rewrite <- !app_assoc.
        rewrite Hs12, Hr12. rewrite status_history_cons. cbn [apply_effect].
        rewrite (update_by_id_transition key new_id q _ rec_processing H2) by reflexivity.
        reflexivity.
      * rewrite !app_assoc. rewrite replay_app. rewrite <- !app_assoc. rewrite Hr12.
        reflexivity.
      * intros result E. inversion E. reflexivity.
    + cbn [fst snd]. split; [exact Hs12|]. split; [symmetry; exact Hr12|].
      split; [intros; discriminate|].
      intros message u n _ Hu Hn _. inversion Hu; inversion Hn; subst u n.
      unfold db_update_by_id. rewrite lookup_alter_eq.
      rewrite lookup_insert_eq. eexists. split; [reflexivity|].
      subst row. repeat split. right; reflexivity.
Qed.

(** ** Overlapping calls *)

Lemma transition_ok_overlapping a b :
  transition_ok a b = true -> transition_overlapping a b = true.
Proof. destruct a as [[]|], b as [[]|]; intros H; try discriminate H; reflexivity. Qed.

Lemma writes_on_app key l1 l2 : writes_on key (l1 ++ l2) = writes_on key l1 ++ writes_on key l2.
Proof. unfold writes_on. apply omap_app. Qed.

Lemma inserted_ids_app l1 l2 : inserted_ids (l1 ++ l2) = inserted_ids l1 ++ inserted_ids l2.
Proof. unfold inserted_ids. apply omap_app. Qed.

Lemma fetches_no_writes key fx :
  forallb fetch_or_sleep fx = true ->
  writes_on key fx = [] /\ forallb handler_write fx = true.
Proof.
  induction fx as [|e fx IH]; [split; reflexivity|]. cbn [forallb].
  rewrite andb_true_iff. intros [He Hfx]. destruct (IH Hfx) as [IH1 IH2].
  unfold writes_on in *. cbn [omap list_omap forallb].
  destruct e; try discriminate He; cbn [write_on handler_write]; rewrite IH1, IH2;
    split; reflexivity.
Qed.

Lemma catch_writes key w message db :
  writes_on key (fst (fst (generateActivityVideo_catch w message db))) = []
  /\ inserted_ids (fst (fst (generateActivityVideo_catch w message db))) = []
  /\ forallb handler_write (fst (fst (generateActivityVideo_catch w message db))) = true.
Proof.
  unfold generateActivityVideo_catch. destruct (auth_catch w); repeat split; reflexivity.
Qed.

(** The writes of one call: the updates by filter are the failure
    handler's, and the writes by id go to the row the call inserted, in
    the order insert, [processing], [completed]. *)
Lemma try_writes key env w activity db :
  let fx := fst (fst (generateActivityVideo_try env w activity db)) in
  forallb handler_write fx = true
  /\ exists m, writes_on key fx = take m own_writes
               /\ (writes_on key fx <> [] -> db !! key = None /\ key ∈ inserted_ids fx).
Proof.
  cbv zeta. unfold generateActivityVideo_try.
  destruct (auth_try w) as [user|].
  2:{ split; [reflexivity|]. exists 0%nat. split; [reflexivity|]. intros H; now destruct H. }
  destruct (insert_reply w) as [msg|new_id].
  { split; [reflexivity|]. exists 0%nat. split; [reflexivity|]. intros H; now destruct H. }
  destruct (db !! new_id) as [old|] eqn:Hl.
  { split; [reflexivity|]. exists 0%nat. split; [reflexivity|]. intros H; now destruct H. }
  pose proof (initiateVideoGeneration_effects env w activity (script_text w)) as Hfx2.
  destruct (initiateVideoGeneration env w activity (script_text w)) as [fx2 [msg|[video_id st]]];
    cbn [fst] in Hfx2; subst fx2.
  - cbn [fst snd app]. split; [reflexivity|].
    unfold writes_on, inserted_ids. cbn [omap list_omap write_on rstatus].
    destruct (String.eqb_spec new_id key) as [->|Hne].
    + exists 1%nat. split; [reflexivity|]. intros _. split; [exact Hl|]. apply list_elem_of_here.
    + exists 0%nat. split; [reflexivity|]. intros H; now destruct H.
  - pose proof (poll_loop_fetches POLLING_CONFIG (service_apiKey env) video_id (poll_start w)
                  (poll_ticks w) (maxAttempts POLLING_CONFIG) (poll_init POLLING_CONFIG)) as Hq.
    fold (pollVideoCompletionEnhanced POLLING_CONFIG (service_apiKey env) video_id
            (poll_start w) (poll_ticks w)) in Hq.
    destruct (pollVideoCompletionEnhanced POLLING_CONFIG (service_apiKey env) video_id
                (poll_start w) (poll_ticks w)) as [fx4 pollResult].
    cbn [fst] in Hq. destruct (fetches_no_writes key fx4 Hq) as [Hw Hh].
    destruct (success pollResult && truthy (videoUrl pollResult)); cbn [fst snd].
    + split.
      { rewrite !forallb_app, Hh. reflexivity. }
      rewrite !writes_on_app, !inserted_ids_app, Hw.
      unfold writes_on, inserted_ids. cbn [omap list_omap write_on rstatus set_status app].
      destruct (String.eqb_spec new_id key) as [->|Hne].
      * exists 3%nat. split; [reflexivity|]. intros _. split; [exact Hl|].
        apply list_elem_of_here.
      * exists 0%nat. split; [reflexivity|]. intros H; now destruct H.
    + split.
      { rewrite !forallb_app, Hh. reflexivity. }
      rewrite !writes_on_app, !inserted_ids_app, Hw.
      unfold writes_on, inserted_ids. cbn [omap list_omap write_on rstatus set_status app].
      destruct (String.eqb_spec new_id key) as [->|Hne].
      * exists 2%nat. split; [reflexivity|]. intros _. split; [exact Hl|].
        apply list_elem_of_here.
      * exists 0%nat. split; [reflexivity|]. intros H; now destruct H.
Qed.

Lemma call_writes key db c :
  forallb handler_write (call_log db c) = true
  /\ exists m, writes_on key (call_log db c) = take m own_writes
               /\ (writes_on key (call_log db c) <> []
                   -> db !! key = None /\ key ∈ inserted_ids (call_log db c)).
Proof.
  unfold call_log, generateActivityVideo.
  destruct (String.eqb (service_apiKey (call_env c)) "").
  { split; [reflexivity|]. exists 0%nat. split; [reflexivity|]. intros H; now destruct H. }
  destruct (try_writes key (call_env c) (call_world c) (call_activity c) db)
    as [Hh [m [Hm Hown]]].
  destruct (generateActivityVideo_try (call_env c) (call_world c) (call_activity c) db)
    as [[fx0 db0] [message|result]]; cbn [fst snd] in *.
  2:{ split; [exact Hh|]. exists m. split; assumption. }
  destruct (catch_writes key (call_world c) message db0) as [Hw [Hi Hc]].
  destruct (generateActivityVideo_catch (call_world c) message db0) as [[fx1 db1] result].
  cbn [fst snd] in *. split.
  - rewrite forallb_app, Hh, Hc. reflexivity.
  - exists m. rewrite writes_on_app, inserted_ids_app, Hw, Hi, !app_nil_r.
    split; assumption.
Qed.

(** One step of an interleaving, seen from the row [key]. *)
Lemma other_write_step key e (db : Table) todo :
  handler_write e = true -> write_on key e = None ->
  phase_ok (status_at key db) todo ->
  transition_overlapping (status_at key db) (status_at key (apply_effect e db)) = true
  /\ phase_ok (status_at key (apply_effect e db)) todo.
Proof.
  intros Hh Hw Hp. destruct e as [nid row|row|nid p|owner statuses p|url body|url|ms];
    cbn [apply_effect write_on handler_write] in *;
    try (split; [apply transition_ok_overlapping, transition_ok_refl|exact Hp]).
  - destruct (String.eqb_spec nid key) as [|Hne]; [discriminate|].
    rewrite status_at_insert. destruct (decide (nid = key)); [contradiction|].
    split; [apply transition_ok_overlapping, transition_ok_refl|exact Hp].
  - destruct (String.eqb_spec nid key) as [|Hne]; [discriminate|].
    rewrite status_at_update_by_id. destruct (decide (nid = key)); [contradiction|].
    split; [apply transition_ok_overlapping, transition_ok_refl|exact Hp].
  - apply andb_true_iff in Hh as [H1 H2].
    apply bool_decide_eq_true in H1, H2. subst statuses.
    split; [apply transition_ok_overlapping, update_where_failed_transition, H2|].
    unfold status_at in *. rewrite lookup_update_where.
    destruct (db !! key) as [r|]; [|exact Hp]. cbn [fmap option_fmap option_map] in *.
    destruct (row_matches owner pending_or_processing r) eqn:M; [|exact Hp].
    apply row_matches_spec in M as [_ M]. apply in_pending_or_processing in M.
    cbn [apply_patch rstatus]. rewrite H2.
    destruct Hp as [->|[n [m [Ht Hs]]]]; [left; reflexivity|].
    right. exists n, m. split; [exact Ht|].
    destruct n as [|[|[|n]]]; cbn [stage_ok] in *.
    + discriminate Hs.
    + right; reflexivity.
    + right; reflexivity.
    + exact I.
Qed.

Lemma own_write_step key e (db : Table) x todo :
  write_on key e = Some x ->
  phase_ok (status_at key db) (x :: todo) ->
  transition_overlapping (status_at key db) (status_at key (apply_effect e db)) = true
  /\ phase_ok (status_at key (apply_effect e db)) todo.
Proof.
  intros Hw [Hnil|[n [m [Ht Hs]]]]; [discriminate Hnil|].
  destruct e as [nid row|row|nid p|owner statuses p|url body|url|ms];
    cbn [write_on] in Hw; try discriminate Hw;
    destruct (String.eqb_spec nid key) as [->|]; try discriminate Hw;
    injection Hw as <-; cbn [apply_effect].
  - (* the insert *)
    rewrite status_at_same_insert.
    destruct n as [|[|[|n]]], m as [|m]; cbn in Ht; try discriminate Ht;
      try (destruct n; discriminate Ht).
    injection Ht as Hr Htodo. cbn [stage_ok] in Hs. rewrite Hs, Hr.
    split; [reflexivity|]. right. exists 1%nat, m. split; [exact Htodo|].
    left; reflexivity.
  - (* an update by id *)
    destruct n as [|[|[|n]]], m as [|m]; cbn in Ht; try discriminate Ht;
      try (destruct n; discriminate Ht);
      injection Ht as Hr Htodo; cbn [stage_ok] in Hs.
    + destruct Hs as [Hs|Hs];
        rewrite (status_at_same_update key p db _ Hs), Hs, Hr;
        (split; [reflexivity|]); right; exists 2%nat, m; (split; [exact Htodo|]);
        left; reflexivity.
    + destruct Hs as [Hs|Hs];
        rewrite (status_at_same_update key p db _ Hs), Hs, Hr;
        (split; [reflexivity|]); right; exists 3%nat, m; (split; [exact Htodo|]);
        exact I.
Qed.

(** Every interleaving of logs of which at most one, the log [owner],
    writes to the row [key] by its id. *)
Lemma interleaving_history key logs log :
  interleaving logs log ->
  forall (db : Table) (owner : nat) todo,
    Forall (fun l => forallb handler_write l = true) logs ->
    (forall j l, logs !! j = Some l ->
                 writes_on key l = if decide (j = owner) then todo else []) ->
    phase_ok (status_at key db) todo ->
    steps_ok transition_overlapping (status_history key db log) = true.
Proof.
  induction 1 as [logs Hdone|logs i e rest log Hi _ IH]; intros db owner todo Hh Hown Hp.
  - reflexivity.
  - rewrite status_history_cons.
    assert (Hlen : (i < length logs)%nat) by (apply lookup_lt_is_Some; eexists; exact Hi).
    assert (Hhe : handler_write e = true /\ forallb handler_write rest = true).
    { pose proof (proj1 (Forall_lookup _ _) Hh i _ Hi) as H. cbn [forallb] in H.
      apply andb_true_iff in H. exact H. }
    destruct Hhe as [Hhe Hhrest].
    assert (Hh' : Forall (fun l => forallb handler_write l = true) (<[i := rest]> logs)).
    { apply Forall_insert; assumption. }
    pose proof (Hown i _ Hi) as Hwi. unfold writes_on in Hwi. cbn [omap list_omap] in Hwi.
    fold (writes_on key rest) in Hwi.
    destruct (write_on key e) as [x|] eqn:Hw.
    + (* a write of the owner to its row *)
      destruct (decide (i = owner)) as [->|]; [|discriminate Hwi].
      rewrite <- Hwi in Hp.
      destruct (own_write_step key e db x (writes_on key rest) Hw Hp) as [Ht Hp'].
      rewrite Ht. apply (IH _ owner (writes_on key rest) Hh'); [|exact Hp'].
      intros j l Hj. destruct (decide (j = owner)) as [->|Hne].
      * rewrite list_lookup_insert_eq in Hj by exact Hlen. inversion Hj. reflexivity.
      * rewrite list_lookup_insert_ne in Hj by congruence.
        specialize (Hown j l Hj). destruct (decide (j = owner)); [contradiction|exact Hown].
    + destruct (other_write_step key e db todo Hhe Hw Hp) as [Ht Hp'].
      rewrite Ht. apply (IH _ owner todo Hh'); [|exact Hp'].
      intros j l Hj. destruct (decide (j = i)) as [->|Hne].
      * rewrite list_lookup_insert_eq in Hj by exact Hlen. inversion Hj; subst l. exact Hwi.
      * rewrite list_lookup_insert_ne in Hj by congruence. exact (Hown j l Hj).
Qed.

(** When no two logs insert the same id, at most one of them inserts
    [key]. *)
Lemma inserted_once key (ids : list (list string)) :
  NoDup (concat ids) ->
  exists owner, forall j l, ids !! j = Some l -> j <> owner -> key ∉ l.
Proof.
  induction ids as [|a ids IH]; intros Hnd.
  - exists 0%nat. intros j l Hj. discriminate Hj.
  - cbn [concat] in Hnd. apply NoDup_app in Hnd as [_ [Hdisj Hrest]].
    destruct (decide (key ∈ a)) as [Hin|Hnin].
    + exists 0%nat. intros [|j] l Hj Hne; [contradiction|]. cbn in Hj.
      intros Hl. apply (Hdisj key Hin). apply list_elem_of_In, in_concat.
      exists l. split; [|apply list_elem_of_In, Hl].
      apply list_elem_of_In, list_elem_of_lookup. exists j. exact Hj.
    + destruct (IH Hrest) as [owner Hown]. exists (S owner).
      intros [|j] l Hj Hne; cbn in Hj.
      * inversion Hj; subst l. exact Hnin.
      * apply (Hown j l Hj). congruence.
Qed.

Lemma call_alone_history key env w activity format customization db :
  let run := generateActivityVideo env w activity format customization db in
  steps_ok transition_ok (status_history key db (fst (fst run))) = true
  /\ snd (fst run) = replay (fst (fst run)) db.
Proof.
  cbv zeta. unfold generateActivityVideo.
  destruct (String.eqb (service_apiKey env) ""); [split; reflexivity|].
  destruct (try_history key env w activity db) as [Hs [Hr _]].
  destruct (generateActivityVideo_try env w activity db) as [[fx0 db0] [message|result]];
    cbn [fst snd] in *; [|split; assumption].
  destruct (catch_history key w message db0) as [Hs' Hr'].
  destruct (generateActivityVideo_catch w message db0) as [[fx1 db1] result].
  cbn [fst snd] in *. split.
  - rewrite status_history_app, Hs, <- Hr, Hs'. reflexivity.
  - rewrite replay_app, <- Hr, Hr'. reflexivity.
Qed.

Lemma overlapping_history key calls (db : Table) log :
  NoDup (concat (map (fun c => inserted_ids (call_log db c)) calls)) ->
  interleaving (map (call_log db) calls) log ->
  steps_ok transition_overlapping (status_history key db log) = true.
Proof.
  intros Hnd Hi.
  destruct (inserted_once key _ Hnd) as [owner Hown].
  set (todo := match calls !! owner with
               | Some c => writes_on key (call_log db c)
               | None => []
               end).
  apply (interleaving_history key _ _ Hi db owner todo).
  - apply Forall_forall. intros l Hl. apply list_elem_of_fmap in Hl as [c [-> _]].
    apply (call_writes key db c).
  - intros j l Hj. rewrite list_lookup_fmap in Hj.
    destruct (calls !! j) as [c|] eqn:Hc; [|discriminate Hj]. inversion Hj; subst l.
    destruct (decide (j = owner)) as [->|Hne].
    + unfold todo. rewrite Hc. reflexivity.
    + destruct (call_writes key db c) as [_ [m [Hm Hin]]].
      destruct (writes_on key (call_log db c)) as [|x rest] eqn:Hw; [reflexivity|].
      exfalso. destruct Hin as [_ Hin]; [discriminate|].
      apply (Hown j (inserted_ids (call_log db c))); [|exact Hne|exact Hin].
      rewrite list_lookup_fmap, Hc. reflexivity.
  - unfold todo. destruct (calls !! owner) as [c|]; [|left; reflexivity].
    destruct (call_writes key db c) as [_ [m [Hm Hin]]].
    destruct (writes_on key (call_log db c)) as [|x rest] eqn:Hw; [left; reflexivity|].
    right. exists 0%nat, m. split; [exact Hm|].
    destruct Hin as [Hnone _]; [discriminate|].
    unfold stage_ok, status_at. rewrite Hnone. reflexivity.
Qed.

(** C5 (amended).  A call of [generateActivityVideo] that runs alone
    moves the status of a row only along: absent to [pending], [pending]
    to [processing], [processing] to [completed] or [failed], and also
    [pending] straight to [failed] (a failure after the row was created
    and before the provider accepted the job); the table it returns is
    the table after its writes.  Nothing keeps calls from overlapping,
    and the failure handler of one call marks the rows of the other
    calls of its user.  For every interleaving of the writes of any
    number of calls, whose inserted ids differ as the database's ids do,
    every row moves only along the steps above and from [failed] to
    [processing] or to [completed]: it never goes from [pending]
    straight to [completed], never leaves [completed] and never returns
    to [pending]. *)
Theorem status_writes_in_order :
  (forall key env w activity format customization db,
      let run := generateActivityVideo env w activity format customization db in
      steps_ok transition_ok (status_history key db (fst (fst run))) = true
      /\ snd (fst run) = replay (fst (fst run)) db)
  /\ (forall key calls (db : Table) log,
        NoDup (concat (map (fun c => inserted_ids (call_log db c)) calls)) ->
        interleaving (map (call_log db) calls) log ->
        steps_ok transition_overlapping (status_history key db log) = true).
Proof.
  split.
  - intros. apply call_alone_history.
  - intros key calls db log. apply overlapping_history.
Qed.

Lemma overlapping_log_interleaves :
  NoDup (concat (map (fun c => inserted_ids (call_log ∅ c)) [first_call; rejected_call]))
  /\ interleaving (map (call_log ∅) [first_call; rejected_call]) overlapping_log.
Proof.
  split.
  - apply (bool_decide_unpack _). vm_compute. exact I.
  - vm_compute.
    eapply (interleaving_step _ 0); [reflexivity|]; cbn [insert list_insert].
    eapply (interleaving_step _ 0); [reflexivity|]; cbn [insert list_insert].
    eapply (interleaving_step _ 0); [reflexivity|]; cbn [insert list_insert].
    eapply (interleaving_step _ 1); [reflexivity|]; cbn [insert list_insert].
    eapply (interleaving_step _ 1); [reflexivity|]; cbn [insert list_insert].
    eapply (interleaving_step _ 1); [reflexivity|]; cbn [insert list_insert].
    eapply (interleaving_step _ 0); [reflexivity|]; cbn [insert list_insert].
    eapply (interleaving_step _ 0); [reflexivity|]; cbn [insert list_insert].
    apply interleaving_done. repeat constructor.
Qed.

Lemma status_writes_in_order_witness :
  steps_ok transition_overlapping (status_history "r1" ∅ overlapping_log) = true.
Proof.
  refine (proj2 status_writes_in_order "r1" [first_call; rejected_call] ∅ overlapping_log
            _ _).
  - apply (bool_decide_unpack _). vm_compute. exact I.
  - vm_compute.
    eapply (interleaving_step _ 0); [reflexivity|]; cbn [insert list_insert].
    eapply (interleaving_step _ 0); [reflexivity|]; cbn [insert list_insert].
    eapply (interleaving_step _ 0); [reflexivity|]; cbn [insert list_insert].
    eapply (interleaving_step _ 1); [reflexivity|]; cbn [insert list_insert].
    eapply (interleaving_step _ 1); [reflexivity|]; cbn [insert list_insert].
    eapply (interleaving_step _ 1); [reflexivity|]; cbn [insert list_insert].
    eapply (interleaving_step _ 0); [reflexivity|]; cbn [insert list_insert].
    eapply (interleaving_step _ 0); [reflexivity|]; cbn [insert list_insert].
    apply interleaving_done. repeat constructor.
Defined.

(** Two overlapping calls of one user: the failure handler of the second
    call marks the row of the first call [failed] while it is
    [processing], and the first call then writes [completed] over
    [failed]. *)
Lemma overlapping_call_rewrites_failed_row :
  interleaving (map (call_log ∅) [first_call; rejected_call]) overlapping_log
  /\ status_history "r1" ∅ overlapping_log
     = [None; Some rec_pending; Some rec_pending; Some rec_processing;
        Some rec_processing; Some rec_processing; Some rec_failed; Some rec_failed;
        Some rec_completed]
  /\ steps_ok transition_ok (status_history "r1" ∅ overlapping_log) = false.
Proof.
  split; [apply overlapping_log_interleaves|]. vm_compute. split; reflexivity.
Qed.

(** The same two calls, the second one earlier: its failure handler marks
    the row of the first call [failed] while it is [pending], and the
    first call then writes [processing] and [completed] over it. *)
Lemma overlapping_call_revives_failed_row :
  interleaving (map (call_log ∅) [first_call; rejected_call]) early_overlapping_log
  /\ status_history "r1" ∅ early_overlapping_log
     = [None; Some rec_pending; Some rec_pending; Some rec_pending; Some rec_failed;
        Some rec_failed; Some rec_processing; Some rec_processing; Some rec_completed]
  /\ steps_ok transition_ok (status_history "r1" ∅ early_overlapping_log) = false.
Proof.
  split; [|vm_compute; split; reflexivity].
  vm_compute.
  eapply (interleaving_step _ 0); [reflexivity|]; cbn [insert list_insert].
  eapply (interleaving_step _ 1); [reflexivity|]; cbn [insert list_insert].
  eapply (interleaving_step _ 1); [reflexivity|]; cbn [insert list_insert].
  eapply (interleaving_step _ 1); [reflexivity|]; cbn [insert list_insert].
  eapply (interleaving_step _ 0); [reflexivity|]; cbn [insert list_insert].
  eapply (interleaving_step _ 0); [reflexivity|]; cbn [insert list_insert].
  eapply (interleaving_step _ 0); [reflexivity|]; cbn [insert list_insert].
  eapply (interleaving_step _ 0); [reflexivity|]; cbn [insert list_insert].
  apply interleaving_done. repeat constructor.
Qed.

(** When the provider rejects the submission, a reader of the table sees
    the new row go from [pending] to [failed] without ever being
    [processing]. *)
Lemma pending_goes_straight_to_failed :
  status_history "r1" other_job_in_flight (fst (fst run_rejected))
  = [None; Some rec_pending; Some rec_pending; Some rec_failed]
  /\ steps_ok transition_in_spec_order
       (status_history "r1" other_job_in_flight (fst (fst run_rejected))) = false.
Proof. vm_compute. split; reflexivity. Qed.




(** ** The body of the submission *)

(** The request of [EnhancedTavusService]: whatever the customization,
    the body has the four keys the provider accepts and no [null]. *)
Lemma enhanced_payload_accepted env w activity format customization db body :
  In body (posts (fst (fst (generateActivityVideo env w activity format customization db)))) ->
  body = enhanced_payload env activity (script_text w) (now_submit w)
  /\ keys body = accepted_keys
  /\ has_null body = false.
Proof.
  unfold generateActivityVideo.
  destruct (String.eqb (service_apiKey env) ""); [intros []|].
  assert (Hcatch : forall message db0,
             posts (fst (fst (generateActivityVideo_catch w message db0))) = []).
  { intros message db0. unfold generateActivityVideo_catch.
    destruct (auth_catch w); reflexivity. }
  assert (Htry : forall b,
             In b (posts (fst (fst (generateActivityVideo_try env w activity db)))) ->
             b = enhanced_payload env activity (script_text w) (now_submit w)).
  { intros b. unfold generateActivityVideo_try.
    destruct (auth_try w) as [user|]; [|intros []].
    destruct (insert_reply w) as [msg|new_id]; [intros []|].
    destruct (db !! new_id); [intros []|].
    pose proof (initiateVideoGeneration_effects env w activity (script_text w)) as Hfx2.
    destruct (initiateVideoGeneration env w activity (script_text w))
      as [fx2 [msg|[video_id st]]]; simpl in Hfx2; subst fx2.
    - cbn. intros [<-|[]]. reflexivity.
    - pose proof (poll_loop_fetches POLLING_CONFIG (service_apiKey env) video_id (poll_start w)
                    (poll_ticks w) (maxAttempts POLLING_CONFIG) (poll_init POLLING_CONFIG)) as Hq.
      fold (pollVideoCompletionEnhanced POLLING_CONFIG (service_apiKey env) video_id
              (poll_start w) (poll_ticks w)) in Hq.
      destruct (pollVideoCompletionEnhanced POLLING_CONFIG (service_apiKey env) video_id
                  (poll_start w) (poll_ticks w)) as [fx4 pollResult].
      cbn [fst] in Hq. apply fetches_no_posts in Hq.
      destruct (success pollResult && truthy (videoUrl pollResult)); cbn [fst];
        unfold posts in *; rewrite !omap_app, Hq; cbn; intros [<-|[]]; reflexivity. }
  intros Hin.
  assert (Hb : body = enhanced_payload env activity (script_text w) (now_submit w)).
  { destruct (generateActivityVideo_try env w activity db) as [[fx0 db0] [message|result]];
      cbn [fst snd] in *; [|apply Htry, Hin].
    specialize (Hcatch message db0).
    destruct (generateActivityVideo_catch w message db0) as [[fx1 db1] result].
    cbn [fst snd] in *. unfold posts in *. rewrite omap_app, Hcatch, app_nil_r in Hin.
    apply Htry, Hin. }
  subst body. repeat split.
Qed.

(** C2.  The code at the failing input.  The older client
    [TavusService.generateVideo] always sends the key [callback_url] with
    the value [null], and sends [background_url] when the request has a
    background image: its body is not limited to the accepted keys. *)
Theorem legacy_payload_sends_null :
  (forall request run_script now,
      In ("callback_url", JNull) (TavusService.payload request run_script now)
      /\ has_null (TavusService.payload request run_script now) = true)
  /\ posts (fst (TavusService.generateVideo run_with_background "Incredible run today!"
                   1000 (PostHttpError 400 "Bad Request" "")))
     = [[("replica_id", JStr "r-1");
         ("script", JStr "Incredible run today!");
         ("video_name", JStr "run_achievement_1000");
         ("callback_url", JNull);
         ("background_url", JStr "https://x/bg.png")]].
Proof.
  split; [|vm_compute; reflexivity].
  intros request run_script now. unfold TavusService.payload. split.
  - apply in_or_app. left. cbn. tauto.
  - unfold has_null. rewrite existsb_app. reflexivity.
Qed.

(** ** The replica id *)



(** ** The session state of the hook *)

(** C6 (amended).  The hook's [generateActivityVideo] has no guard on a
    generation in flight and there is no concurrency error: what a call
    does (the states it sets, the rows it writes, the requests it sends,
    what it returns) does not depend on the session state it is called
    in.  Called while a first generation is still processing, it proceeds
    exactly as from the initial state: it sets the session back to
    [initializing] with zero elapsed time, and calls the service, which
    inserts a second row and submits a second job. *)
Theorem generate_ignores_session_state env w activity customization state db :
  Hook.generateActivityVideo env w activity customization state db
  = Hook.generateActivityVideo env w activity customization Hook.initial_state db
  /\ (forall user user',
        Hook.hook_user w = Some user -> Hook.hook_auth w = Some user' ->
        isConfigured env = true ->
        let run := Hook.generateActivityVideo env w activity customization state db in
        firstn 2 (Hook.states run)
        = [Hook.set_started Hook.initial_state;
           Hook.set_requesting (Hook.set_started Hook.initial_state)]
        /\ (Hook.effects run, Hook.table run)
           = fst (generateActivityVideo env (Hook.service_world w) activity
                    (Hook.format customization) (Some (Hook.custom customization)) db)).
Proof.
  split; [reflexivity|].
  intros user user' Hu Ha Hc. cbv zeta. unfold Hook.generateActivityVideo.
  rewrite Hu, Ha. unfold isConfigured in Hc. unfold getConfigStatus.
  destruct (String.eqb (service_apiKey env) ""); [discriminate|]. cbn [fst negb].
  unfold Hook.service_generateActivityVideo.
  destruct (generateActivityVideo env (Hook.service_world w) activity
              (Hook.format customization) (Some (Hook.custom customization)) db)
    as [[fx db'] result].
  destruct (Hook.result_success result && truthy (Hook.result_videoUrl result));
    split; reflexivity.
Qed.

Lemma generate_ignores_session_state_witness :
  firstn 2 (Hook.states second_call)
  = [Hook.set_started Hook.initial_state;
     Hook.set_requesting (Hook.set_started Hook.initial_state)]
  /\ (Hook.effects second_call, Hook.table second_call)
     = fst (generateActivityVideo env_key_only
              (world_accepting "r2" "v2" ticks_completed_at_once) evening_walk square
              (Some (Hook.custom square_video)) table_in_flight).
Proof.
  refine (proj2 (generate_ignores_session_state env_key_only
                   {| Hook.hook_user := Some "u1"; Hook.hook_auth := Some "u1";
                      Hook.service_world := world_accepting "r2" "v2" ticks_completed_at_once |}
                   evening_walk square_video state_in_flight table_in_flight)
            "u1" "u1" _ _ _); reflexivity.
Defined.

(** A second call while the first generation is processing is not
    rejected: it returns a video, having inserted a second row and
    submitted a second job, and it has set the shared session state back
    to the start.  When the provider rejects the second submission, the
    failure handler of the second call also sets the row of the first
    generation to [failed]. *)
Lemma second_generate_is_not_rejected :
  Hook.isGenerating state_in_flight = true
  /\ Hook.currentStep state_in_flight = Hook.processing
  /\ status_at "r1" table_in_flight = Some rec_processing
  /\ Hook.outcome second_call = inr (Some "https://x/v.mp4", None, Some "r2")
  /\ length (posts (Hook.effects second_call)) = 1%nat
  /\ status_at "r2" (Hook.table second_call) = Some rec_completed
  /\ hd_error (Hook.states second_call) = Some (Hook.set_started Hook.initial_state)
  /\ Hook.outcome second_call_rejected
     = inl "Tavus API error: 400 Bad Request - invalid replica_id"
  /\ status_at "r1" (Hook.table second_call_rejected) = Some rec_failed.
Proof. vm_compute. repeat split; reflexivity. Qed.

(** The clock readings of the interval keep a generating session
    generating. *)
Lemma updateProgress_generating startTime now s :
  Hook.isGenerating s = true ->
  Hook.isGenerating (Hook.updateProgress startTime now s) = true
  /\ Hook.currentStep (Hook.updateProgress startTime now s) = Hook.currentStep s
  /\ Hook.elapsedTime (Hook.updateProgress startTime now s) = (now - startTime) / 1000
  /\ Hook.isPeakUsage (Hook.updateProgress startTime now s)
     = (120 <? (now - startTime) / 1000).
Proof.
  intros Hg. unfold Hook.updateProgress. rewrite Hg. cbn [negb].
  split; [reflexivity|]. split; [reflexivity|]. split; reflexivity.
Qed.

(** C7 (amended).  For a fixed step and a fixed peak-usage flag, the
    percentage never decreases as the elapsed time grows; it is at most
    95 until the step is terminal, 100 when the step is [completed] and 0
    when it is [failed].  (When the flag turns on, at 121 seconds, the
    estimate is rescaled from 240 to 480 seconds and the percentage
    drops.) *)
Theorem percentage_monotone (s1 s2 : Hook.VideoGenerationState) :
  Hook.currentStep s1 = Hook.currentStep s2 ->
  Hook.isPeakUsage s1 = Hook.isPeakUsage s2 ->
  Hook.elapsedTime s1 <= Hook.elapsedTime s2 ->
  (Hook.getProgressPercentage s1 <= Hook.getProgressPercentage s2)%Q
  /\ (Hook.currentStep s1 <> Hook.completed -> Hook.currentStep s1 <> Hook.failed ->
      (Hook.getProgressPercentage s1 <= 95)%Q)
  /\ (Hook.currentStep s1 = Hook.completed -> Hook.getProgressPercentage s1 = 100%Q)
  /\ (Hook.currentStep s1 = Hook.failed -> Hook.getProgressPercentage s1 = 0%Q).
Proof.
  intros Hstep Hpeak He. unfold Hook.getProgressPercentage.
  rewrite <- Hstep, <- Hpeak.
  assert (Hq : (inject_Z (Hook.elapsedTime s1) <= inject_Z (Hook.elapsedTime s2))%Q)
    by (rewrite <- Zle_Qle; exact He).
  set (e1 := inject_Z (Hook.elapsedTime s1)) in *.
  set (e2 := inject_Z (Hook.elapsedTime s2)) in *.
  assert (Hm : forall m : Q, (0 < m)%Q ->
             (Qmin (e1 / m * 100) 95 <= Qmin (e2 / m * 100) 95)%Q).
  { intros m Hm. apply Q.min_le_compat_r.
    apply Qmult_le_compat_r; [|discriminate].
    unfold Qdiv. apply Qmult_le_compat_r; [exact Hq|].
    apply Qlt_le_weak, Qinv_lt_0_compat, Hm. }
  assert (H95 : forall x : Q, (Qmin x 95 <= 95)%Q) by (intros x; apply Q.le_min_r).
  destruct (Hook.currentStep s1); destruct (Hook.isPeakUsage s1);
    (split; [|split; [|split]]); try reflexivity; try congruence; try discriminate;
    try (intros _ _);
    try (apply Q.max_le_compat_l; apply Qmult_le_compat_r; [apply Hm; reflexivity|discriminate]);
    try (apply Q.max_le_compat_l; apply Hm; reflexivity);
    try (apply Qle_refl);
    try (apply Q.max_lub; [discriminate|]);
    try apply H95;
    try (match goal with |- (Qmin ?x 95 * ?c <= 95)%Q =>
           pose proof (H95 x); set (y := Qmin x 95) in *; lra end).
Qed.

Lemma percentage_monotone_witness :
  (Hook.getProgressPercentage (Hook.updateProgress 0 60000 state_in_flight)
   <= Hook.getProgressPercentage (Hook.updateProgress 0 61000 state_in_flight))%Q.
Proof.
  refine (proj1 (percentage_monotone (Hook.updateProgress 0 60000 state_in_flight)
                   (Hook.updateProgress 0 61000 state_in_flight) _ _ _)).
  - reflexivity.
  - reflexivity.
  - vm_compute. discriminate.
Defined.

(** In a session whose interval fires every second, the step stays
    [processing] and the elapsed time shown goes from 120 to 121 seconds
    between the 600th and the 601st tick; the percentage is 40 at the
    first and 121/6 (about 20.2) at the second. *)
Lemma percentage_drops_at_121_seconds :
  let states :=
    map state (firstn 2 (skipn 601 (session 0 (every_second 601) 601500 (Throws "") mounted))) in
  map Hook.currentStep states = [Hook.processing; Hook.processing]
  /\ map Hook.elapsedTime states = [120; 121]
  /\ map Hook.isPeakUsage states = [false; true]
  /\ (forall p120 p121,
        map Hook.getProgressPercentage states = [p120; p121] ->
        (p120 == 40 /\ p121 == 121 # 6 /\ p121 < p120)%Q).
Proof.
  cbv zeta. split; [vm_compute; reflexivity|]. split; [vm_compute; reflexivity|].
  split; [vm_compute; reflexivity|].
  intros p120 p121 H. vm_compute in H. inversion H; subst.
  repeat split.
Qed.

(** ** The peak-usage flag *)

(** A tick of a generating session whose countdown of the remaining time
    is at 0: the countdown stays at 0, so the effect does not run again
    and the start time stays. *)
Lemma interval_fires_settled now x :
  Hook.isGenerating (state x) = true ->
  Hook.estimatedTimeRemaining (state x) = 0 ->
  startTimeRef x <= now ->
  Hook.isGenerating (state (interval_fires now x)) = true
  /\ Hook.estimatedTimeRemaining (state (interval_fires now x)) = 0
  /\ startTimeRef (interval_fires now x) = startTimeRef x.
Proof.
  intros Hg Hr Hle. unfold interval_fires, set_state, Hook.updateProgress.
  rewrite Hg. cbn [negb state startTimeRef].
  assert (He : 0 <= (now - startTimeRef x) / 1000) by (apply Z.div_pos; lia).
  assert (Hm : Z.max 0 (Hook.estimatedTimeRemaining (state x) - (now - startTimeRef x) / 1000) = 0)
    by (rewrite Hr; lia).
  split; [reflexivity|]. split; [cbn; exact Hm|].
  unfold Hook.startTimeRef_after, Hook.effect_reruns.
  cbn [Hook.isGenerating Hook.estimatedTimeRemaining].
  rewrite Hg, Hm, Hr. reflexivity.
Qed.

Lemma interval_fires_flag now x :
  Hook.isGenerating (state x) = true ->
  Hook.isPeakUsage (state (interval_fires now x)) = (120 <? (now - startTimeRef x) / 1000).
Proof.
  intros Hg. unfold interval_fires, set_state, Hook.updateProgress.
  rewrite Hg. reflexivity.
Qed.

Lemma later_ticks_stay_peak n0 nows : forall x,
  Hook.isGenerating (state x) = true ->
  Hook.estimatedTimeRemaining (state x) = 0 ->
  startTimeRef x <= n0 ->
  120 < (n0 - startTimeRef x) / 1000 ->
  Forall (Z.le n0) nows ->
  Sorted Z.le nows ->
  Forall (fun b => Hook.isPeakUsage (state b) = true) (progress_ticks nows x).
Proof.
  induction nows as [|n1 nows IH]; intros x Hg Hr Hst Hp Hle Hs; [constructor|].
  cbn [progress_ticks].
  inversion Hle as [|? ? Hn1 Hrest]; subst.
  inversion Hs as [|? ? Hs' Hhd]; subst.
  destruct (interval_fires_settled n1 x Hg Hr) as [Hg' [Hr' Hst']]; [lia|].
  constructor.
  - rewrite interval_fires_flag by exact Hg. apply Z.ltb_lt.
    assert ((n0 - startTimeRef x) / 1000 <= (n1 - startTimeRef x) / 1000)
      by (apply Z.div_le_mono; lia).
    lia.
  - apply IH; try assumption; rewrite ?Hst'; assumption.
Qed.

Lemma Sorted_le_Forall n0 nows : Sorted Z.le (n0 :: nows) -> Forall (Z.le n0) nows.
Proof.
  intros Hs. apply Sorted_StronglySorted in Hs.
  - inversion Hs; assumption.
  - intros a b c. apply Z.le_trans.
Qed.

(** C9 (amended).  While a generation is in progress, each tick of the
    interval sets the flag to "more than 120 seconds have elapsed since
    the start time of the interval".  Once the countdown of the remaining
    time is at 0 the start time no longer moves, and then, with clock
    readings that never go back, once a tick has set the flag every later
    tick of the session sets it too.  The update that ends the session
    does not keep it: a failure sets the flag to false, and a success sets
    it to "the service's own total time is more than 120 seconds". *)
Theorem peak_flag_sticky_while_generating (x : Session) :
  Hook.isGenerating (state x) = true ->
  (forall now,
      Hook.isPeakUsage (state (interval_fires now x))
      = (120 <? (now - startTimeRef x) / 1000))
  /\ (forall nows before a after,
        Hook.estimatedTimeRemaining (state x) = 0 ->
        Sorted Z.le (startTimeRef x :: nows) ->
        progress_ticks nows x = before ++ a :: after ->
        Hook.isPeakUsage (state a) = true ->
        Forall (fun b => Hook.isPeakUsage (state b) = true) after)
  /\ (forall now message,
        Hook.isPeakUsage (state (set_state now (finish (Throws message)) x)) = false)
  /\ (forall now result,
        Hook.isPeakUsage (state (set_state now (finish (Succeeds result)) x))
        = match total_time result with
          | Some t => if t =? 0 then false else 120 <? t
          | None => false
          end).
Proof.
  intros Hg. split; [|split; [|split; reflexivity]].
  - intros now. apply interval_fires_flag, Hg.
  - intros nows. revert x Hg.
    induction nows as [|n0 nows IH]; intros x Hg before a after Hr Hs Heq Ha.
    + destruct before; discriminate.
    + cbn [progress_ticks] in Heq.
      pose proof (Sorted_le_Forall _ _ Hs) as Hall.
      inversion Hall as [|? ? Hn0 Hrest]; subst.
      inversion Hs as [|? ? Hs' _]; subst.
      destruct (interval_fires_settled n0 x Hg Hr Hn0) as [Hg' [Hr' Hst']].
      destruct before as [|b before]; cbn [app] in Heq; inversion Heq as [[E1 E2]].
      * rewrite <- E1 in Ha. rewrite interval_fires_flag in Ha by exact Hg.
        apply Z.ltb_lt in Ha.
        apply (later_ticks_stay_peak n0 nows _ Hg' Hr'); rewrite ?Hst'; try assumption.
        -- apply Sorted_le_Forall, Hs'.
        -- inversion Hs'; assumption.
      * apply (IH _ Hg' before a after); try assumption.
        rewrite Hst'. destruct nows as [|n1 nows']; [repeat constructor|].
        inversion Hrest; subst. inversion Hs'; subst.
        constructor; [assumption|]. constructor. assumption.
Qed.

Lemma peak_flag_sticky_while_generating_witness :
  Forall (fun b => Hook.isPeakUsage (state b) = true)
    [interval_fires 700000 (interval_fires 601000 session_after_480_seconds)].
Proof.
  refine (proj1 (proj2 (peak_flag_sticky_while_generating session_after_480_seconds _))
            [601000; 700000] [] _ _ _ _ _ _).
  - vm_compute. reflexivity.
  - vm_compute. reflexivity.
  - vm_compute. repeat constructor; discriminate.
  - reflexivity.
  - vm_compute. reflexivity.
Defined.

(** In a session whose interval fires every second, the flag is set at
    the 601st and the 602nd tick and is gone after the failure that ends
    the session, without any call of [resetState]. *)
Lemma peak_flag_cleared_by_failure :
  let last3 :=
    map state
      (skipn 602
         (session 0 (every_second 602) 602500
            (Throws "Video generation timeout after 601 seconds. This can happen during peak usage periods.")
            mounted)) in
  map Hook.isPeakUsage last3 = [true; true; false]
  /\ map Hook.currentStep last3 = [Hook.processing; Hook.processing; Hook.failed]
  /\ map Hook.elapsedTime last3 = [121; 122; 0].
Proof. vm_compute. repeat split; reflexivity. Qed.

(** * Further properties of the code *)

(** ** The status request and the poll loop *)

(** X1.  A response of [getVideoStatus] carries [download_url] a second
    time as [video_url] and [hosted_url] as [preview_url]; so the media
    URL the poll loop looks for, [hosted_url || download_url ||
    video_url], is [hosted_url || download_url].  A response only comes
    from one request made with an API key. *)
Theorem usable_url_is_hosted_or_download apiKey vid r fx resp :
  getVideoStatus apiKey vid r = (fx, inr resp) ->
  usable_url resp = js_or (hosted_url resp) (download_url resp)
  /\ video_url resp = download_url resp
  /\ preview_url resp = hosted_url resp
  /\ fx = [HttpGet (status_url vid)]
  /\ apiKey <> "".
Proof.
  unfold getVideoStatus. destruct (String.eqb_spec apiKey ""); [discriminate|].
  destruct r as [b| |]; try discriminate. intros H. inversion H; subst. cbn.
  repeat split; try assumption.
  unfold usable_url, js_or. cbn. destruct (truthy (b_hosted_url b)) eqn:Eh.
  - rewrite Eh. reflexivity.
  - destruct (truthy (b_download_url b)); reflexivity.
Qed.

Lemma usable_url_is_hosted_or_download_witness :
  usable_url {| video_id := "v1"; status := st_completed; video_url := Some "https://x/d.mp4";
                preview_url := None; thumbnail_url := None; hosted_url := None;
                download_url := Some "https://x/d.mp4" |}
  = Some "https://x/d.mp4".
Proof.
  refine (proj1 (usable_url_is_hosted_or_download "key" "v1"
                   (GetOk {| b_video_id := "v1"; b_status := st_completed;
                             b_hosted_url := None;
                             b_download_url := Some "https://x/d.mp4";
                             b_thumbnail_url := None |}) _ _ _)).
  reflexivity.
Defined.

Section Accounting.

Variable cfg : PollingConfig.
Variable apiKey vid : string.
Variable startTime : Z.
Variable ticks : nat -> PollTick.
Hypothesis has_key : apiKey <> "".

Local Abbreviation turn := (poll_turn cfg apiKey vid startTime).
Local Abbreviation loop := (poll_loop cfg apiKey vid startTime ticks).

Lemma getVideoStatus_gets r :
  gets (fst (getVideoStatus apiKey vid r)) = [status_url vid].
Proof.
  unfold getVideoStatus. destruct (String.eqb_spec apiKey ""); [contradiction|].
  destruct r; reflexivity.
Qed.

(** A turn that goes on has made one request and waited at most once, and
    only below the last attempt. *)
Lemma turn_goes_on_counts t s fx s' :
  turn t s = (fx, inr s') ->
  gets fx = [status_url vid]
  /\ (length (waits fx) <= 1)%nat
  /\ ((maxAttempts cfg <= S (attempts s))%nat -> waits fx = []).
Proof.
  unfold poll_turn. intros H.
  destruct (totalTimeout cfg <? now_top t - startTime); [discriminate|].
  pose proof (getVideoStatus_gets (reply t)) as Hg.
  pose proof (getVideoStatus_waits apiKey vid (reply t)) as Hw.
  destruct (getVideoStatus apiKey vid (reply t)) as [fx0 [msg|r]]; simpl in Hg, Hw.
  - destruct (Nat.leb_spec (maxAttempts cfg) (S (attempts s))); inversion H; subst.
    unfold gets, waits in *. rewrite !omap_app, Hg, Hw. cbn. repeat split; lia.
  - destruct (status r); try discriminate;
      try destruct (truthy (usable_url r)); try discriminate;
      destruct (Nat.ltb_spec (S (attempts s)) (maxAttempts cfg));
      inversion H; subst; unfold gets, waits in *;
      rewrite ?omap_app, ?Hg, ?Hw; cbn; repeat split; try lia; try assumption.
Qed.

(** A turn that returns has made one request and reports one attempt
    more, unless it returns for the time limit, before any request. *)
Lemma turn_returns_counts t s fx result :
  turn t s = (fx, inl result) ->
  waits fx = []
  /\ attempts_made result = Some (attempts s + length (gets fx))%nat
  /\ (length (gets fx) <= 1)%nat
  /\ Forall (eq (status_url vid)) (gets fx).
Proof.
  unfold poll_turn. intros H.
  destruct (totalTimeout cfg <? now_top t - startTime).
  { inversion H; subst. cbn. repeat split; try lia. f_equal; lia. constructor. }
  pose proof (getVideoStatus_gets (reply t)) as Hg.
  pose proof (getVideoStatus_waits apiKey vid (reply t)) as Hw.
  destruct (getVideoStatus apiKey vid (reply t)) as [fx0 [msg|r]]; simpl in Hg, Hw.
  - destruct (maxAttempts cfg <=? S (attempts s))%nat; inversion H; subst.
    rewrite Hg. cbn. repeat split; try assumption; try lia.
    + f_equal; lia.
    + repeat constructor.
  - destruct (status r); try destruct (truthy (usable_url r));
      try destruct (S (attempts s) <? maxAttempts cfg)%nat;
      inversion H; subst; rewrite Hg; cbn; repeat split; try assumption; try lia;
      try (f_equal; lia); repeat constructor.
Qed.

Lemma loop_counts fuel : forall s,
  let run := loop fuel s in
  attempts_made (snd run) = Some (attempts s + length (gets (fst run)))%nat
  /\ (length (gets (fst run)) <= maxAttempts cfg - attempts s)%nat
  /\ (length (waits (fst run)) <= maxAttempts cfg - 1 - attempts s)%nat
  /\ Forall (eq (status_url vid)) (gets (fst run)).
Proof.
  induction fuel as [|fuel IH]; intros s; cbv zeta.
  { cbn. repeat split; try lia. f_equal; lia. constructor. }
  rewrite poll_loop_unfold.
  destruct (Nat.ltb_spec (attempts s) (maxAttempts cfg)).
  2:{ cbn. repeat split; try lia. f_equal; lia. constructor. }
  destruct (turn (ticks (attempts s)) s) as [fx [r|s']] eqn:E.
  - destruct (turn_returns_counts _ _ _ _ E) as [Hw [Ha [Hn Hall]]].
    cbn [fst snd]. rewrite Hw. cbn. repeat split; try assumption; lia.
  - destruct (turn_goes_on_counts _ _ _ _ E) as [Hg [Hw Hlast]].
    pose proof (turn_attempts _ _ _ _ _ _ _ _ E) as Hs'.
    specialize (IH s'). cbv zeta in IH.
    destruct (loop fuel s') as [fx' r']. cbn [fst snd] in *.
    destruct IH as [Ha [Hn [Hwn Hall]]].
    unfold gets, waits in *. rewrite !omap_app, !length_app.
    fold (gets fx) (gets fx') (waits fx) (waits fx') in *.
    rewrite Hg. cbn [length]. rewrite Hs' in *.
    repeat split.
    + rewrite Ha. f_equal. lia.
    + lia.
    + destruct (Nat.leb_spec (maxAttempts cfg) (S (attempts s))) as [Hle|Hgt].
      * rewrite (Hlast Hle). cbn. lia.
      * lia.
    + apply Forall_app. split; [repeat constructor|exact Hall].
Qed.

End Accounting.

Lemma poll_requests_counted_aux apiKey vid startTime ticks :
  apiKey <> "" ->
  let run := pollVideoCompletionEnhanced POLLING_CONFIG apiKey vid startTime ticks in
  attempts_made (snd run) = Some (length (gets (fst run)))
  /\ (length (gets (fst run)) <= 60)%nat
  /\ (length (waits (fst run)) <= 59)%nat
  /\ Forall (eq (status_url vid)) (gets (fst run)).
Proof.
  intros Hk. cbv zeta.
  destruct (loop_counts POLLING_CONFIG apiKey vid startTime ticks Hk 60
              (poll_init POLLING_CONFIG)) as [Ha [Hn [Hw Hall]]].
  cbn [attempts poll_init Nat.add] in *. simpl maxAttempts in *.
  unfold pollVideoCompletionEnhanced. simpl maxAttempts.
  repeat split; try assumption; lia.
Qed.

(** X2.  With an API key, [pollVideoCompletionEnhanced] sends at most 60
    status requests, all for the video it was given, and waits at most 59
    times; the [attempts_made] of its result, success or failure, is the
    number of requests it has sent. *)
Theorem poll_requests_are_counted apiKey vid startTime ticks :
  apiKey <> "" ->
  let run := pollVideoCompletionEnhanced POLLING_CONFIG apiKey vid startTime ticks in
  attempts_made (snd run) = Some (length (gets (fst run)))
  /\ (length (gets (fst run)) <= 60)%nat
  /\ (length (waits (fst run)) <= 59)%nat
  /\ Forall (eq (status_url vid)) (gets (fst run)).
Proof. apply poll_requests_counted_aux. Qed.

Lemma poll_requests_are_counted_witness :
  attempts_made (snd (pollVideoCompletionEnhanced POLLING_CONFIG "key" "v1" 0
                        ticks_url_on_second_poll))
  = Some (length (gets (fst (pollVideoCompletionEnhanced POLLING_CONFIG "key" "v1" 0
                               ticks_url_on_second_poll)))).
Proof.
  refine (proj1 (poll_requests_are_counted "key" "v1" 0 ticks_url_on_second_poll _)).
  discriminate.
Defined.

Section Outcomes.

Variable cfg : PollingConfig.
Variable apiKey vid : string.
Variable startTime : Z.
Variable ticks : nat -> PollTick.

Local Abbreviation turn := (poll_turn cfg apiKey vid startTime).
Local Abbreviation loop := (poll_loop cfg apiKey vid startTime ticks).

Lemma turn_result_well_formed t s fx result :
  turn t s = (fx, inl result) -> well_formed_result result.
Proof.
  unfold poll_turn, well_formed_result. intros H.
  destruct (totalTimeout cfg <? now_top t - startTime).
  { inversion H; subst. cbn. split; [reflexivity|]. eexists. split; [reflexivity|discriminate]. }
  destruct (getVideoStatus apiKey vid (reply t)) as [fx0 [msg|r]].
  - destruct (maxAttempts cfg <=? S (attempts s))%nat; inversion H; subst. cbn.
    split; [reflexivity|]. eexists. split; [reflexivity|discriminate].
  - destruct (status r) eqn:Es; try destruct (truthy (usable_url r)) eqn:Eu;
      try destruct (S (attempts s) <? maxAttempts cfg)%nat;
      inversion H; subst; cbn;
      first [ split; [assumption|split; [reflexivity|eexists; reflexivity]]
            | split; [reflexivity|eexists; split; [reflexivity|discriminate]] ].
Qed.

Lemma loop_result_well_formed fuel : forall s, well_formed_result (snd (loop fuel s)).
Proof.
  assert (Hmax : forall n, well_formed_result (max_attempts_result cfg vid n)).
  { intros n. unfold well_formed_result. cbn. split; [reflexivity|].
    eexists. split; [reflexivity|discriminate]. }
  induction fuel as [|fuel IH]; intros s; [apply Hmax|].
  rewrite poll_loop_unfold.
  destruct (attempts s <? maxAttempts cfg)%nat; [|apply Hmax].
  destruct (turn (ticks (attempts s)) s) as [fx [r|s']] eqn:E.
  - apply (turn_result_well_formed _ _ _ _ E).
  - specialize (IH s'). destruct (loop fuel s') as [fx' r']. exact IH.
Qed.

End Outcomes.

(** X3.  [pollVideoCompletionEnhanced] never reports a success without a
    media URL: its result is either a success with a non-empty [videoUrl],
    no error and a total time, or a failure with a non-empty error message
    and no [videoUrl]. *)
Theorem poll_success_has_url cfg apiKey vid startTime ticks :
  let r := snd (pollVideoCompletionEnhanced cfg apiKey vid startTime ticks) in
  if success r
  then truthy (videoUrl r) = true /\ error r = None /\ is_Some (total_time r)
  else videoUrl r = None /\ exists message, error r = Some message /\ message <> "".
Proof. apply loop_result_well_formed. Qed.

(** X4.  A [failed] or [error] status ends the polling at once: when the
    loop gets to a turn within the time limit and the provider answers
    that turn with one of these statuses, the result is the failure
    "Video generation failed with status: ...", with the attempts made
    and the elapsed seconds, and no later request is made. *)
Theorem provider_failure_ends_polling apiKey vid startTime ticks k s b :
  apiKey <> "" ->
  turns POLLING_CONFIG apiKey vid startTime ticks k (poll_init POLLING_CONFIG) = Some s ->
  (k < 60)%nat ->
  now_top (ticks k) - startTime <= 600000 ->
  reply (ticks k) = GetOk b ->
  b_status b = st_failed \/ b_status b = st_error ->
  let run := pollVideoCompletionEnhanced POLLING_CONFIG apiKey vid startTime ticks in
  snd run = provider_failed_result vid (S k) (now_top (ticks k) - startTime) (b_status b)
  /\ error (snd run) = Some ("Video generation failed with status: " +:+ status_name (b_status b))
  /\ length (gets (fst run)) = S k.
Proof.
  intros Hk Hr Hlt Ht Hb Hst. cbv zeta.
  pose proof (turns_attempts _ _ _ _ _ _ _ _ Hr) as Ha. cbn in Ha.
  assert (Hturn : poll_turn POLLING_CONFIG apiKey vid startTime (ticks k) s
                  = ([HttpGet (status_url vid)],
                     inl (provider_failed_result vid (S k) (now_top (ticks k) - startTime)
                            (b_status b)))).
  { unfold poll_turn. simpl totalTimeout.
    destruct (Z.ltb_spec 600000 (now_top (ticks k) - startTime)); [lia|].
    rewrite Hb. unfold getVideoStatus. destruct (String.eqb_spec apiKey ""); [contradiction|].
    cbn [status]. rewrite Ha. destruct Hst as [-> | ->]; reflexivity. }
  assert (Hres : snd (pollVideoCompletionEnhanced POLLING_CONFIG apiKey vid startTime ticks)
                 = provider_failed_result vid (S k) (now_top (ticks k) - startTime)
                     (b_status b)).
  { unfold pollVideoCompletionEnhanced.
    replace (maxAttempts POLLING_CONFIG) with (k + S (59 - k))%nat by (simpl; lia).
    rewrite (loop_after_turns _ _ _ _ _ _ _ _ _ Hr).
    rewrite poll_loop_unfold, Ha.
    destruct (Nat.ltb_spec k (maxAttempts POLLING_CONFIG)); [|simpl in *; lia].
    rewrite Hturn. reflexivity. }
  split; [exact Hres|]. split; [rewrite Hres; reflexivity|].
  destruct (poll_requests_counted_aux apiKey vid startTime ticks Hk) as [Hc _].
  rewrite Hres in Hc. unfold provider_failed_result in Hc. cbn [attempts_made] in Hc.
  injection Hc as Hc. symmetry. exact Hc.
Qed.

Lemma provider_failure_ends_polling_witness :
  error (snd (pollVideoCompletionEnhanced POLLING_CONFIG "key" "v1" 0 ticks_fail_on_third))
  = Some "Video generation failed with status: failed".
Proof.
  refine (proj1 (proj2 (provider_failure_ends_polling "key" "v1" 0 ticks_fail_on_third 2 _
                          (status_body st_failed None) _ _ _ _ _ _))).
  - discriminate.
  - vm_compute. reflexivity.
  - lia.
  - vm_compute. discriminate.
  - reflexivity.
  - left. reflexivity.
Defined.

Section Unreachable.

Variable apiKey vid : string.
Variable startTime : Z.
Variable ticks : nat -> PollTick.
Hypothesis has_key : apiKey <> "".
Hypothesis in_time : forall i, now_top (ticks i) - startTime <= 600000.
Hypothesis no_answer : forall i, is_Some (reply_error (reply (ticks i))).

(** A turn whose request fails: below the last attempt the loop waits for
    the base interval and leaves it as it is. *)
Lemma turn_on_error s :
  exists message,
    reply_error (reply (ticks (attempts s))) = Some message
    /\ poll_turn POLLING_CONFIG apiKey vid startTime (ticks (attempts s)) s
       = if (60 <=? S (attempts s))%nat
         then ([HttpGet (status_url vid)],
               inl (polling_failed_result vid (S (attempts s)) message))
         else ([HttpGet (status_url vid); Sleep (currentInterval s)],
               inr {| attempts := S (attempts s);
                      currentInterval := currentInterval s;
                      queuePhase := queuePhase s |}).
Proof.
  destruct (no_answer (attempts s)) as [message Hm]. exists message. split; [exact Hm|].
  unfold poll_turn. simpl totalTimeout. simpl maxAttempts.
  destruct (Z.ltb_spec 600000 (now_top (ticks (attempts s)) - startTime));
    [pose proof (in_time (attempts s)); lia|].
  unfold getVideoStatus. destruct (String.eqb_spec apiKey ""); [contradiction|].
  destruct (reply (ticks (attempts s))); cbn in Hm; inversion Hm; subst;
    destruct (60 <=? S (attempts s))%nat; reflexivity.
Qed.

Lemma loop_on_errors fuel : forall s,
  (attempts s + S fuel = 60)%nat ->
  let run := poll_loop POLLING_CONFIG apiKey vid startTime ticks (S fuel) s in
  length (gets (fst run)) = S fuel
  /\ waits (fst run) = repeat (currentInterval s) fuel
  /\ exists message,
       reply_error (reply (ticks 59%nat)) = Some message
       /\ snd run = polling_failed_result vid 60%nat message.
Proof.
  induction fuel as [|fuel IH]; intros s Ha; cbv zeta; rewrite poll_loop_unfold;
    simpl maxAttempts;
    (destruct (Nat.ltb_spec (attempts s) 60); [|lia]);
    destruct (turn_on_error s) as [message [Hm Ht]]; rewrite Ht.
  - destruct (Nat.leb_spec 60 (S (attempts s))); [|lia].
    assert (Hs : attempts s = 59%nat) by lia. rewrite Hs in *.
    cbn. repeat split. exists message. split; [exact Hm|reflexivity].
  - destruct (Nat.leb_spec 60 (S (attempts s))); [lia|].
    specialize (IH {| attempts := S (attempts s); currentInterval := currentInterval s;
                      queuePhase := queuePhase s |}).
    cbv zeta in IH. cbn [attempts currentInterval] in IH.
    destruct IH as [Hg [Hw Hres]]; [lia|].
    destruct (poll_loop POLLING_CONFIG apiKey vid startTime ticks (S fuel)
                {| attempts := S (attempts s); currentInterval := currentInterval s;
                   queuePhase := queuePhase s |}) as [fx' r'].
    cbn [fst snd] in *. unfold gets, waits in *. cbn [app omap list_omap length].
    fold (gets fx') (waits fx'). unfold gets, waits. rewrite Hg, Hw.
    repeat split. exact Hres.
Qed.

End Unreachable.

(** X5.  Failed status requests are retried without backoff: when every
    request fails (network error or HTTP error) and the time limit is not
    reached, the loop sends all 60 requests, waits 5000 ms after each of
    the first 59, and returns "Polling failed after 60 attempts: " with
    the error of the last request only. *)
Theorem unreachable_provider_is_polled_60_times apiKey vid startTime ticks :
  apiKey <> "" ->
  (forall i, now_top (ticks i) - startTime <= 600000) ->
  (forall i, is_Some (reply_error (reply (ticks i)))) ->
  let run := pollVideoCompletionEnhanced POLLING_CONFIG apiKey vid startTime ticks in
  length (gets (fst run)) = 60%nat
  /\ waits (fst run) = repeat 5000%Q 59%nat
  /\ exists message,
       reply_error (reply (ticks 59%nat)) = Some message
       /\ snd run = polling_failed_result vid 60%nat message.
Proof.
  intros Hk Ht Hr.
  apply (loop_on_errors apiKey vid startTime ticks Hk Ht Hr 59 (poll_init POLLING_CONFIG)).
  reflexivity.
Qed.

Lemma unreachable_provider_is_polled_60_times_witness :
  waits (fst (pollVideoCompletionEnhanced POLLING_CONFIG "key" "v1" 0 ticks_unreachable))
  = repeat 5000%Q 59%nat.
Proof.
  refine (proj1 (proj2 (unreachable_provider_is_polled_60_times "key" "v1" 0
                          ticks_unreachable _ _ _))).
  - discriminate.
  - intros i. vm_compute. discriminate.
  - intros i. eexists. reflexivity.
Defined.

(** ** The older loop [pollVideoCompletion] *)

Section OlderLoop.

Variable apiKey vid : string.
Variable replies : nat -> GetReply.
Variable intervalMs : Q.

Local Abbreviation from := (pollVideoCompletion_from apiKey vid replies intervalMs).

Lemma older_loop_unfold attempt remaining :
  from attempt (S remaining)
  = match getVideoStatus apiKey vid (replies attempt) with
    | (fx, inr st) =>
        match status st with
        | st_completed | st_failed => (fx, inr st)
        | _ =>
            let fx1 := match remaining with
                       | O => fx
                       | S _ => fx ++ [Sleep intervalMs]
                       end in
            let (fx2, r) := from (S attempt) remaining in
            (fx1 ++ fx2, r)
        end
    | (fx, inl message) =>
        match remaining with
        | O => (fx, inl message)
        | S _ =>
            let (fx2, r) := from (S attempt) remaining in
            (fx ++ fx2, r)
        end
    end.
Proof. reflexivity. Qed.

Lemma getVideoStatus_gets_le r :
  (length (gets (fst (getVideoStatus apiKey vid r))) <= 1)%nat.
Proof.
  unfold getVideoStatus. destruct (String.eqb apiKey ""); [cbn; lia|].
  destruct r; cbn; lia.
Qed.

Lemma older_loop_bounds remaining : forall attempt,
  let run := from attempt remaining in
  (length (gets (fst run)) <= remaining)%nat
  /\ (length (waits (fst run)) <= remaining - 1)%nat
  /\ Forall (eq intervalMs) (waits (fst run))
  /\ match snd run with
     | inr st => status st = st_completed \/ status st = st_failed
     | inl _ => True
     end.
Proof.
  induction remaining as [|remaining IH]; intros attempt; cbv zeta.
  { cbn. repeat split; try lia. constructor. }
  rewrite older_loop_unfold.
  pose proof (getVideoStatus_gets_le (replies attempt)) as Hg.
  pose proof (getVideoStatus_waits apiKey vid (replies attempt)) as Hw.
  specialize (IH (S attempt)). cbv zeta in IH.
  destruct (getVideoStatus apiKey vid (replies attempt)) as [fx [message|st]];
    cbn [fst] in Hg, Hw.
  - destruct remaining as [|remaining].
    + cbn [fst snd]. rewrite Hw. cbn. repeat split; try lia. constructor.
    + destruct (from (S attempt) (S remaining)) as [fx2 r]. cbn [fst snd] in *.
      destruct IH as [Hn [Hwn [Hall Hst]]].
      unfold gets, waits in *. rewrite !omap_app, !length_app, Hw. cbn [app length].
      repeat split; try assumption; lia.
  - destruct (status st) eqn:Es;
      try (cbn [fst snd]; rewrite Hw; cbn; repeat split; try lia; try constructor; tauto);
      destruct (from (S attempt) remaining) as [fx2 r]; cbn [fst snd] in *;
      destruct IH as [Hn [Hwn [Hall Hst]]];
      destruct remaining as [|remaining];
      unfold gets, waits in *; rewrite ?omap_app, ?length_app, ?Hw; cbn [app length omap list_omap];
      repeat split; try assumption; try lia; try (constructor; [reflexivity|assumption]).
Qed.

End OlderLoop.

(** X6.  The older loop [pollVideoCompletion] sends at most [maxAttempts]
    status requests and waits at most [maxAttempts - 1] times, each time
    for [intervalMs]; a response it returns has the status [completed] or
    [failed]. *)
Theorem older_loop_is_bounded apiKey vid replies maxAttempts intervalMs :
  let run := pollVideoCompletion apiKey vid replies maxAttempts intervalMs in
  (length (gets (fst run)) <= maxAttempts)%nat
  /\ (length (waits (fst run)) <= maxAttempts - 1)%nat
  /\ Forall (eq intervalMs) (waits (fst run))
  /\ match snd run with
     | inr st => status st = st_completed \/ status st = st_failed
     | inl _ => True
     end.
Proof. apply older_loop_bounds. Qed.

Section OlderLoopTimeout.

Variable apiKey vid : string.
Variable replies : nat -> GetReply.
Variable intervalMs : Q.
Hypothesis has_key : apiKey <> "".
Hypothesis not_terminal :
  forall i, exists b, replies i = GetOk b
                      /\ b_status b <> st_completed /\ b_status b <> st_failed.

Lemma older_loop_runs_out remaining : forall attempt,
  let run := pollVideoCompletion_from apiKey vid replies intervalMs attempt remaining in
  snd run = inl "Video generation timeout - exceeded maximum polling attempts"
  /\ length (gets (fst run)) = remaining
  /\ waits (fst run) = repeat intervalMs (remaining - 1).
Proof.
  induction remaining as [|remaining IH]; intros attempt; cbv zeta; [repeat split|].
  rewrite older_loop_unfold.
  destruct (not_terminal attempt) as [b [Hb [Hc Hf]]]. rewrite Hb.
  destruct (getVideoStatus_ok apiKey vid b has_key) as [st [Hst Hs]]. rewrite Hst, Hs.
  specialize (IH (S attempt)). cbv zeta in IH.
  destruct (pollVideoCompletion_from apiKey vid replies intervalMs (S attempt) remaining)
    as [fx2 r].
  cbn [fst snd] in IH. destruct IH as [Hr [Hg Hw]].
  destruct (b_status b); try congruence;
    destruct remaining as [|remaining]; cbn [fst snd];
    unfold gets, waits in *; rewrite ?omap_app, ?length_app, ?Hg, ?Hw;
    cbn; repeat split; try assumption; try lia;
    rewrite ?Nat.sub_0_r; reflexivity.
Qed.

End OlderLoopTimeout.

(** X7.  For the older loop only [completed] and [failed] end the wait:
    while the provider answers with any other status, [error] included,
    it goes on, and after [maxAttempts] requests, with a wait of
    [intervalMs] between two of them, it throws "Video generation timeout
    - exceeded maximum polling attempts".  With [maxAttempts] = 0 it
    throws at once, without a request. *)
Theorem older_loop_times_out apiKey vid replies maxAttempts intervalMs :
  apiKey <> "" ->
  (forall i, exists b, replies i = GetOk b
                       /\ b_status b <> st_completed /\ b_status b <> st_failed) ->
  let run := pollVideoCompletion apiKey vid replies maxAttempts intervalMs in
  snd run = inl "Video generation timeout - exceeded maximum polling attempts"
  /\ length (gets (fst run)) = maxAttempts
  /\ waits (fst run) = repeat intervalMs (maxAttempts - 1).
Proof. intros Hk Hr. apply older_loop_runs_out; assumption. Qed.

Lemma older_loop_times_out_witness :
  length (gets (fst (pollVideoCompletion "key" "v1" replies_always_error 30 3000))) = 30%nat.
Proof.
  refine (proj1 (proj2 (older_loop_times_out "key" "v1" replies_always_error 30 3000 _ _))).
  - discriminate.
  - intros i. exists (status_body st_error None).
    split; [reflexivity|]. split; discriminate.
Defined.

(** ** [generateActivityVideo] of the service *)

Lemma service_key_of_configured env : isConfigured env = true -> service_apiKey env <> "".
Proof.
  unfold isConfigured. destruct (String.eqb_spec (service_apiKey env) ""); [discriminate|auto].
Qed.

Lemma run_configured env w activity format customization db :
  isConfigured env = true ->
  generateActivityVideo env w activity format customization db
  = match generateActivityVideo_try env w activity db with
    | (fx, db', inr result) => (fx, db', result)
    | (fx, db', inl message) =>
        let '(fx', db'', result) := generateActivityVideo_catch w message db' in
        (fx ++ fx', db'', result)
    end.
Proof.
  unfold isConfigured, generateActivityVideo.
  destruct (String.eqb (service_apiKey env) ""); [discriminate|reflexivity].
Qed.

Lemma run_not_configured env w activity format customization db :
  isConfigured env = false ->
  generateActivityVideo env w activity format customization db
  = ([], db, failure api_key_missing_message).
Proof.
  unfold isConfigured, generateActivityVideo.
  destruct (String.eqb (service_apiKey env) ""); [reflexivity|discriminate].
Qed.

(** The [try] once the row is inserted. *)
Lemma try_after_insert env w activity db user new_id :
  auth_try w = Some user -> insert_reply w = inr new_id -> db !! new_id = None ->
  generateActivityVideo_try env w activity db
  = let row := new_row user activity (script_text w) in
    let post := HttpPost (baseUrl +:+ "/videos")
                  (enhanced_payload env activity (script_text w) (now_submit w)) in
    match post_reply w with
    | PostOk job st =>
        let poll := pollVideoCompletionEnhanced POLLING_CONFIG (service_apiKey env) job
                      (poll_start w) (poll_ticks w) in
        let db2 := db_update_by_id new_id (processing_patch job) (<[new_id := row]> db) in
        if success (snd poll) && truthy (videoUrl (snd poll)) then
          ([DbInsert new_id row; post; DbUpdateById new_id (processing_patch job)]
           ++ fst poll ++ [DbUpdateById new_id (completed_patch (videoUrl (snd poll)))],
           db_update_by_id new_id (completed_patch (videoUrl (snd poll))) db2,
           inr {| success := true;
                  videoUrl := videoUrl (snd poll);
                  thumbnailUrl := thumbnailUrl (snd poll);
                  videoId := Some new_id;
                  error := None;
                  attempts_made := attempts_made (snd poll);
                  total_time := total_time (snd poll);
                  queue_time := queue_time (snd poll);
                  suggestion := None |})
        else
          ([DbInsert new_id row; post; DbUpdateById new_id (processing_patch job)] ++ fst poll,
           db2,
           inl (js_or_default (error (snd poll))
                  "Video generation failed - no video URL returned"))
    | PostHttpError code statusText errorText =>
        ([DbInsert new_id row; post], <[new_id := row]> db,
         inl (tavus_api_error code statusText +:+ " - " +:+ errorText))
    | PostThrows message =>
        ([DbInsert new_id row; post], <[new_id := row]> db, inl message)
    end.
Proof.
  intros Ha Hi Hl. unfold generateActivityVideo_try. rewrite Ha, Hi, Hl.
  unfold initiateVideoGeneration. cbv zeta.
  destruct (post_reply w) as [job st| |]; try reflexivity.
  destruct (pollVideoCompletionEnhanced POLLING_CONFIG (service_apiKey env) job
              (poll_start w) (poll_ticks w)) as [fx4 pollResult].
  cbn [fst snd]. destruct (success pollResult && truthy (videoUrl pollResult)); reflexivity.
Qed.

(** The [try] when no row is inserted. *)
Lemma try_without_insert env w activity db :
  auth_try w = None
  \/ (exists message, insert_reply w = inl message)
  \/ (exists new_id, insert_reply w = inr new_id /\ is_Some (db !! new_id)) ->
  exists fx message,
    generateActivityVideo_try env w activity db = (fx, db, inl message)
    /\ forallb (fun e => match e with DbInsertRefused _ => true | _ => false end) fx = true.
Proof.
  unfold generateActivityVideo_try. intros H.
  destruct (auth_try w) as [user|]; [|eexists _, _; split; reflexivity].
  destruct H as [H|[[m H]|[n [H [old Hold]]]]]; [discriminate| |]; rewrite H.
  - eexists _, _; split; reflexivity.
  - rewrite Hold. eexists _, _; split; reflexivity.
Qed.

Lemma catch_requests w message db :
  posts (fst (fst (generateActivityVideo_catch w message db))) = []
  /\ gets (fst (fst (generateActivityVideo_catch w message db))) = []
  /\ waits (fst (fst (generateActivityVideo_catch w message db))) = []
  /\ snd (generateActivityVideo_catch w message db) = failure message
  /\ (forall key, is_Some (snd (fst (generateActivityVideo_catch w message db)) !! key)
                  <-> is_Some (db !! key)).
Proof.
  unfold generateActivityVideo_catch. destruct (auth_catch w) as [user|]; cbn [fst snd];
    repeat split; try tauto; rewrite lookup_update_where; intros [x Hx].
  - destruct (db !! key); [eexists; reflexivity|discriminate].
  - rewrite Hx. eexists; reflexivity.
Qed.

(** X8.  When the user is not signed in, or the table refuses the insert
    (an error reply, or an id that is already taken), the provider is
    never called, the call fails, and the table has the same rows as
    before. *)
Theorem no_row_no_provider_call env w activity format customization db :
  auth_try w = None
  \/ (exists message, insert_reply w = inl message)
  \/ (exists new_id, insert_reply w = inr new_id /\ is_Some (db !! new_id)) ->
  let run := generateActivityVideo env w activity format customization db in
  posts (fst (fst run)) = []
  /\ gets (fst (fst run)) = []
  /\ waits (fst (fst run)) = []
  /\ success (snd run) = false
  /\ (forall key, is_Some (snd (fst run) !! key) <-> is_Some (db !! key)).
Proof.
  intros H. cbv zeta. destruct (isConfigured env) eqn:Hc.
  2:{ rewrite run_not_configured by exact Hc. repeat split; auto. }
  rewrite run_configured by exact Hc.
  destruct (try_without_insert env w activity db H) as [fx [message [Ht Hfx]]].
  rewrite Ht.
  destruct (catch_requests w message db) as [Hp [Hg [Hw [Hr Hd]]]].
  destruct (generateActivityVideo_catch w message db) as [[fx' db'] result].
  cbn [fst snd] in *. subst result.
  assert (Hq : posts fx = [] /\ gets fx = [] /\ waits fx = []).
  { clear -Hfx. induction fx as [|e fx IH]; [repeat split|].
    cbn [forallb] in Hfx. apply andb_true_iff in Hfx as [He Hfx].
    destruct (IH Hfx) as [A [B C]]. destruct e; try discriminate.
    unfold posts, gets, waits in *. cbn. repeat split; assumption. }
  destruct Hq as [A [B C]].
  unfold posts, gets, waits in *. rewrite !omap_app, A, B, C, Hp, Hg, Hw.
  repeat split; try apply Hd.
Qed.

Lemma no_row_no_provider_call_witness :
  posts (fst (fst (generateActivityVideo env_key_only (world_accepting "r0" "v1" ticks_always_queued)
                     morning_run square None other_job_in_flight)))
  = [].
Proof.
  refine (proj1 (no_row_no_provider_call env_key_only
                   (world_accepting "r0" "v1" ticks_always_queued)
                   morning_run square None other_job_in_flight _)).
  right. right. exists "r0". split; [reflexivity|]. vm_compute. eexists; reflexivity.
Defined.

(** The first poll answers [completed] with a hosted URL. *)
Lemma first_poll_completed apiKey job startTime ticks b :
  apiKey <> "" ->
  now_top (ticks 0%nat) - startTime <= 600000 ->
  reply (ticks 0%nat) = GetOk b ->
  b_status b = st_completed ->
  truthy (b_hosted_url b) = true ->
  exists resp,
    thumbnail_url resp = b_thumbnail_url b
    /\ pollVideoCompletionEnhanced POLLING_CONFIG apiKey job startTime ticks
       = ([HttpGet (status_url job)],
          completed_result job startTime 1 (now_top (ticks 0%nat) - startTime) true
            (now_after (ticks 0%nat)) (b_hosted_url b) resp).
Proof.
  intros Hk Ht Hb Hs Hu. unfold pollVideoCompletionEnhanced. simpl maxAttempts.
  rewrite poll_loop_unfold. cbn [attempts poll_init]. simpl maxAttempts. cbn [Nat.ltb Nat.leb].
  unfold poll_turn. simpl totalTimeout.
  destruct (Z.ltb_spec 600000 (now_top (ticks 0%nat) - startTime)); [lia|].
  rewrite Hb. unfold getVideoStatus. destruct (String.eqb_spec apiKey ""); [contradiction|].
  cbn [status]. rewrite Hs. unfold usable_url, js_or. cbn [hosted_url download_url video_url].
  repeat (rewrite Hu; cbv iota). eexists. split; [|reflexivity]. reflexivity.
Qed.

(** X9.  With an API key, a signed-in user and a fresh row id, when the
    provider accepts the job and answers the first status request, within
    the time limit, with [completed] and a hosted URL, the call succeeds
    after one status request and no wait: the result carries that URL and
    the id of the row, and the row is [completed] with the URL and the
    provider's job id. *)
Theorem first_poll_completed_succeeds env w activity format customization db
    user new_id job st b :
  isConfigured env = true ->
  auth_try w = Some user ->
  insert_reply w = inr new_id ->
  db !! new_id = None ->
  post_reply w = PostOk job st ->
  now_top (poll_ticks w 0%nat) - poll_start w <= 600000 ->
  reply (poll_ticks w 0%nat) = GetOk b ->
  b_status b = st_completed ->
  truthy (b_hosted_url b) = true ->
  let run := generateActivityVideo env w activity format customization db in
  success (snd run) = true
  /\ videoUrl (snd run) = b_hosted_url b
  /\ thumbnailUrl (snd run) = b_thumbnail_url b
  /\ videoId (snd run) = Some new_id
  /\ attempts_made (snd run) = Some 1%nat
  /\ gets (fst (fst run)) = [status_url job]
  /\ waits (fst (fst run)) = []
  /\ snd (fst run) !! new_id
     = Some (completed_row user activity (script_text w) job (b_hosted_url b)).
Proof.
  intros Hc Ha Hi Hl Hp Ht Hb Hs Hu. cbv zeta.
  rewrite run_configured by exact Hc.
  rewrite (try_after_insert env w activity db user new_id Ha Hi Hl). cbv zeta. rewrite Hp.
  destruct (first_poll_completed (service_apiKey env) job (poll_start w) (poll_ticks w) b
              (service_key_of_configured env Hc) Ht Hb Hs Hu) as [resp [Hth Hpoll]].
  rewrite Hpoll. cbn [fst snd completed_result success videoUrl]. rewrite Hu.
  cbn [andb fst snd success videoUrl thumbnailUrl videoId attempts_made].
  repeat split; try assumption.
  unfold db_update_by_id. rewrite !lookup_alter_eq, lookup_insert_eq.
  destruct (b_hosted_url b); [reflexivity|discriminate Hu].
Qed.

Lemma first_poll_completed_succeeds_witness :
  videoUrl (snd (generateActivityVideo env_key_only
                   (world_accepting "r1" "v1" ticks_completed_at_once)
                   morning_run square None ∅))
  = Some "https://x/v.mp4".
Proof.
  refine (proj1 (proj2 (first_poll_completed_succeeds env_key_only
                          (world_accepting "r1" "v1" ticks_completed_at_once)
                          morning_run square None ∅ "u1" "r1" "v1" (Some "queued")
                          (status_body st_completed (Some "https://x/v.mp4"))
                          _ _ _ _ _ _ _ _ _))); try reflexivity.
  vm_compute. discriminate.
Defined.

(** Every result of the poll loop says how many attempts were made. *)
Lemma attempts_made_is_some cfg apiKey vid startTime ticks fuel : forall s,
  attempts_made (snd (poll_loop cfg apiKey vid startTime ticks fuel s)) <> None.
Proof.
  induction fuel as [|fuel IH]; intros s; [discriminate|].
  rewrite poll_loop_unfold.
  destruct (attempts s <? maxAttempts cfg)%nat; [|discriminate].
  destruct (poll_turn cfg apiKey vid startTime (ticks (attempts s)) s) as [fx [r|s']] eqn:E.
  - unfold poll_turn in E.
    destruct (totalTimeout cfg <? now_top (ticks (attempts s)) - startTime);
      [inversion E; discriminate|].
    destruct (getVideoStatus apiKey vid (reply (ticks (attempts s)))) as [fx0 [msg|resp]].
    + destruct (maxAttempts cfg <=? S (attempts s))%nat; inversion E; discriminate.
    + destruct (status resp); try destruct (truthy (usable_url resp));
        try destruct (S (attempts s) <? maxAttempts cfg)%nat;
        inversion E; discriminate.
  - specialize (IH s').
    destruct (poll_loop cfg apiKey vid startTime ticks fuel s') as [fx' r']. exact IH.
Qed.

(** What the [try] returns, and the row it leaves, when it returns. *)
Lemma try_returns env w activity db fx db' result :
  generateActivityVideo_try env w activity db = (fx, db', inr result) ->
  exists user new_id job st,
    auth_try w = Some user /\ insert_reply w = inr new_id /\ db !! new_id = None
    /\ post_reply w = PostOk job st
    /\ videoId result = Some new_id
    /\ truthy (videoUrl result) = true
    /\ is_Some (attempts_made result)
    /\ db' !! new_id
       = Some (completed_row user activity (script_text w) job (videoUrl result)).
Proof.
  intros H.
  destruct (auth_try w) as [user|] eqn:Ha.
  2:{ unfold generateActivityVideo_try in H. rewrite Ha in H. discriminate. }
  destruct (insert_reply w) as [msg|new_id] eqn:Hi.
  { unfold generateActivityVideo_try in H. rewrite Ha, Hi in H. discriminate. }
  destruct (db !! new_id) as [old|] eqn:Hl.
  { unfold generateActivityVideo_try in H. rewrite Ha, Hi, Hl in H. discriminate. }
  rewrite (try_after_insert env w activity db user new_id Ha Hi Hl) in H. cbv zeta in H.
  destruct (post_reply w) as [job st| |] eqn:Hp; try discriminate.
  pose proof (loop_result_well_formed POLLING_CONFIG (service_apiKey env) job (poll_start w)
                (poll_ticks w) 60 (poll_init POLLING_CONFIG)) as Hwf.
  fold (pollVideoCompletionEnhanced POLLING_CONFIG (service_apiKey env) job (poll_start w)
          (poll_ticks w)) in Hwf.
  destruct (success (snd (pollVideoCompletionEnhanced POLLING_CONFIG (service_apiKey env) job
                            (poll_start w) (poll_ticks w)))
            && truthy (videoUrl (snd (pollVideoCompletionEnhanced POLLING_CONFIG
                                        (service_apiKey env) job (poll_start w)
                                        (poll_ticks w))))) eqn:Hok; [|discriminate].
  apply andb_true_iff in Hok as [Hs Hu].
  inversion H; subst. cbn [videoId videoUrl attempts_made].
  exists user, new_id, job, st. repeat split; try assumption; try reflexivity.
  - unfold well_formed_result in Hwf. unfold pollVideoCompletionEnhanced in *.
    simpl maxAttempts in *.
    destruct (attempts_made (snd (poll_loop POLLING_CONFIG (service_apiKey env) job
                                    (poll_start w) (poll_ticks w) 60
                                    (poll_init POLLING_CONFIG)))) eqn:Em;
      [eexists; reflexivity|].
    exfalso. revert Em. apply attempts_made_is_some.
  - unfold db_update_by_id. rewrite !lookup_alter_eq, lookup_insert_eq.
    destruct (videoUrl (snd (pollVideoCompletionEnhanced POLLING_CONFIG (service_apiKey env)
                               job (poll_start w) (poll_ticks w))));
      [reflexivity|discriminate Hu].
Qed.

(** X10.  A call only reports a success once the row says so: when the
    result is a success, the user was signed in, the provider had
    accepted the job, the result carries a non-empty [videoUrl] and the
    id of the row the call inserted, and that row is [completed] with
    this URL and the provider's job id. *)
Theorem success_means_completed_row env w activity format customization db :
  let run := generateActivityVideo env w activity format customization db in
  success (snd run) = true ->
  exists user new_id job st,
    auth_try w = Some user /\ insert_reply w = inr new_id /\ db !! new_id = None
    /\ post_reply w = PostOk job st
    /\ videoId (snd run) = Some new_id
    /\ truthy (videoUrl (snd run)) = true
    /\ is_Some (attempts_made (snd run))
    /\ snd (fst run) !! new_id
       = Some (completed_row user activity (script_text w) job (videoUrl (snd run))).
Proof.
  cbv zeta. destruct (isConfigured env) eqn:Hc.
  2:{ rewrite run_not_configured by exact Hc. discriminate. }
  rewrite run_configured by exact Hc.
  destruct (generateActivityVideo_try env w activity db) as [[fx db'] [message|result]] eqn:E.
  - destruct (catch_requests w message db') as [_ [_ [_ [Hr _]]]].
    destruct (generateActivityVideo_catch w message db') as [[fx' db''] result].
    cbn [fst snd] in *. subst result. discriminate.
  - intros _. apply (try_returns env w activity db fx db' result E).
Qed.

Lemma success_means_completed_row_witness :
  exists user new_id job st,
    auth_try (world_accepting "r1" "v1" ticks_url_on_second_poll) = Some user
    /\ insert_reply (world_accepting "r1" "v1" ticks_url_on_second_poll) = inr new_id
    /\ (∅ : Table) !! new_id = None
    /\ post_reply (world_accepting "r1" "v1" ticks_url_on_second_poll) = PostOk job st
    /\ videoId (snd (generateActivityVideo env_key_only
                       (world_accepting "r1" "v1" ticks_url_on_second_poll)
                       morning_run square None ∅)) = Some new_id
    /\ truthy (videoUrl (snd (generateActivityVideo env_key_only
                                (world_accepting "r1" "v1" ticks_url_on_second_poll)
                                morning_run square None ∅))) = true
    /\ is_Some (attempts_made (snd (generateActivityVideo env_key_only
                                      (world_accepting "r1" "v1" ticks_url_on_second_poll)
                                      morning_run square None ∅)))
    /\ snd (fst (generateActivityVideo env_key_only
                   (world_accepting "r1" "v1" ticks_url_on_second_poll)
                   morning_run square None ∅)) !! new_id
       = Some (completed_row user morning_run
                 (script_text (world_accepting "r1" "v1" ticks_url_on_second_poll)) job
                 (videoUrl (snd (generateActivityVideo env_key_only
                                   (world_accepting "r1" "v1" ticks_url_on_second_poll)
                                   morning_run square None ∅)))).
Proof.
  apply (success_means_completed_row env_key_only
           (world_accepting "r1" "v1" ticks_url_on_second_poll) morning_run square None ∅).
  vm_compute. reflexivity.
Defined.

(** X11.  A failure of the service carries its message and nothing else:
    when the result is not a success, it has the error message and no
    [videoUrl], no [videoId], and none of the [attempts_made],
    [total_time] and [suggestion] the poll loop had put in its own
    failure. *)
Theorem failure_carries_only_the_message env w activity format customization db :
  let run := generateActivityVideo env w activity format customization db in
  success (snd run) = false ->
  exists message, snd run = failure message.
Proof.
  cbv zeta. destruct (isConfigured env) eqn:Hc.
  2:{ rewrite run_not_configured by exact Hc. intros _. eexists; reflexivity. }
  rewrite run_configured by exact Hc.
  destruct (try_history "" env w activity db) as [_ [_ [Hok _]]].
  destruct (generateActivityVideo_try env w activity db) as [[fx db'] [message|result]].
  - destruct (catch_requests w message db') as [_ [_ [_ [Hr _]]]].
    destruct (generateActivityVideo_catch w message db') as [[fx' db''] result].
    cbn [fst snd] in *. intros _. exists message. exact Hr.
  - cbn [fst snd] in *. rewrite (Hok result eq_refl). discriminate.
Qed.

Lemma failure_carries_only_the_message_witness :
  exists message, snd run_scenario_B = failure message.
Proof.
  apply (failure_carries_only_the_message env_key_only
           (world_accepting "r1" "v1" ticks_scenario_B) morning_run square None ∅).
  vm_compute. reflexivity.
Defined.

(** The [try] leaves the rows that were there as they were, and adds at
    most the row whose id the table gave. *)
Lemma try_keeps_rows env w activity db key :
  let db' := snd (fst (generateActivityVideo_try env w activity db)) in
  (forall r, db !! key = Some r -> db' !! key = Some r)
  /\ (db !! key = None -> is_Some (db' !! key) -> insert_reply w = inr key).
Proof.
  cbv zeta.
  destruct (auth_try w) as [user|] eqn:Ha.
  2:{ unfold generateActivityVideo_try. rewrite Ha. cbn. split; [auto|].
      intros H [x Hx]. congruence. }
  destruct (insert_reply w) as [msg|new_id] eqn:Hi.
  { unfold generateActivityVideo_try. rewrite Ha, Hi. cbn. split; [auto|].
    intros H [x Hx]. congruence. }
  destruct (db !! new_id) as [old|] eqn:Hl.
  { unfold generateActivityVideo_try. rewrite Ha, Hi, Hl. cbn. split; [auto|].
    intros H [x Hx]. congruence. }
  rewrite (try_after_insert env w activity db user new_id Ha Hi Hl). cbv zeta.
  destruct (decide (new_id = key)) as [->|Hne].
  - split; [intros r Hr; congruence|reflexivity].
  - assert (Hsame : forall d : Table,
               d !! key = db !! key ->
               forall p, db_update_by_id new_id p d !! key = db !! key).
    { intros d Hd p. unfold db_update_by_id. rewrite lookup_alter_ne by exact Hne. exact Hd. }
    assert (H1 : (<[new_id := new_row user activity (script_text w)]> db) !! key = db !! key)
      by (apply lookup_insert_ne; exact Hne).
    destruct (post_reply w) as [job st| |];
      try destruct (success _ && truthy _); cbn [fst snd];
      rewrite ?Hsame by (rewrite ?Hsame by exact H1; try exact H1; reflexivity);
      rewrite ?H1;
      (split; [auto|intros Hn [x Hx]; congruence]).
Qed.

(** X12.  A call leaves the rows of other users alone and removes
    nothing: a row that was in the table is still there with the same
    user, activity and script, and is unchanged unless it belongs to the
    user the failure handler read and was [pending] or [processing]; and
    the only row a call can add is the one whose id the table gave for
    the insert. *)
Theorem other_rows_are_kept env w activity format customization db key :
  let db' := snd (fst (generateActivityVideo env w activity format customization db)) in
  (forall r, db !! key = Some r ->
     exists r', db' !! key = Some r'
                /\ user_id r' = user_id r /\ run_id r' = run_id r
                /\ script_content r' = script_content r
                /\ (r' = r
                    \/ (auth_catch w = Some (user_id r)
                        /\ rstatus r ∈ pending_or_processing
                        /\ rstatus r' = rec_failed)))
  /\ (db !! key = None -> is_Some (db' !! key) -> insert_reply w = inr key).
Proof.
  cbv zeta. destruct (isConfigured env) eqn:Hc.
  2:{ rewrite run_not_configured by exact Hc. cbn. split.
      - intros r Hr. exists r. repeat split; auto.
      - intros H [x Hx]. congruence. }
  rewrite run_configured by exact Hc.
  destruct (try_keeps_rows env w activity db key) as [Hold Hnew].
  destruct (generateActivityVideo_try env w activity db) as [[fx db0] [message|result]];
    cbn [fst snd] in *.
  2:{ split; [|exact Hnew]. intros r Hr. exists r. repeat split; auto. }
  destruct (catch_requests w message db0) as [_ [_ [_ [_ Hdom]]]].
  unfold generateActivityVideo_catch in *.
  destruct (auth_catch w) as [user|] eqn:Hu; cbn [fst snd] in *.
  - split.
    + intros r Hr. rewrite lookup_update_where, (Hold r Hr). cbn.
      destruct (row_matches user pending_or_processing r) eqn:M.
      * apply row_matches_spec in M as [Mu Ms].
        eexists. split; [reflexivity|]. cbn. repeat split.
        right. subst user. repeat split. exact Ms.
      * exists r. repeat split; auto.
    + intros Hn Hs. apply Hnew; [exact Hn|]. apply Hdom, Hs.
  - split; [|exact Hnew]. intros r Hr. exists r. repeat split; auto.
Qed.

Lemma other_rows_are_kept_witness :
  exists r', snd (fst run_rejected) !! "r0" = Some r'
             /\ user_id r' = "u1" /\ run_id r' = "a0"
             /\ script_content r' = "Outstanding performance!".
Proof.
  destruct (proj1 (other_rows_are_kept env_key_only (world_rejecting "r1") morning_run square
                     None other_job_in_flight "r0") _ eq_refl)
    as [r' [H1 [H2 [H3 [H4 _]]]]].
  exists r'. repeat split; assumption.
Defined.

(** X13.  The service only asks for the status of a job the provider has
    accepted: every status request of a call goes to the address of the
    job id the submission returned; when the submission is rejected, no
    status request is made. *)
Theorem status_requests_follow_acceptance env w activity format customization db :
  Forall (fun url => exists job st, post_reply w = PostOk job st /\ url = status_url job)
    (gets (fst (fst (generateActivityVideo env w activity format customization db)))).
Proof.
  destruct (isConfigured env) eqn:Hc.
  2:{ rewrite run_not_configured by exact Hc. constructor. }
  rewrite run_configured by exact Hc.
  assert (Htry : Forall (fun url => exists job st,
                           post_reply w = PostOk job st /\ url = status_url job)
                   (gets (fst (fst (generateActivityVideo_try env w activity db))))).
  { destruct (auth_try w) as [user|] eqn:Ha.
    2:{ unfold generateActivityVideo_try. rewrite Ha. constructor. }
    destruct (insert_reply w) as [msg|new_id] eqn:Hi.
    { unfold generateActivityVideo_try. rewrite Ha, Hi. constructor. }
    destruct (db !! new_id) as [old|] eqn:Hl.
    { unfold generateActivityVideo_try. rewrite Ha, Hi, Hl. constructor. }
    rewrite (try_after_insert env w activity db user new_id Ha Hi Hl). cbv zeta.
    destruct (post_reply w) as [job st| |]; try constructor.
    destruct (poll_requests_counted_aux (service_apiKey env) job (poll_start w) (poll_ticks w)
                (service_key_of_configured env Hc)) as [_ [_ [_ Hall]]].
    assert (Hjob : Forall (fun url => exists job0 st0,
                             PostOk job st = PostOk job0 st0 /\ url = status_url job0)
                     (gets (fst (pollVideoCompletionEnhanced POLLING_CONFIG
                                   (service_apiKey env) job (poll_start w) (poll_ticks w))))).
    { eapply Forall_impl; [exact Hall|]. intros url <-. exists job, st. split; reflexivity. }
    destruct (success _ && truthy _); cbn [fst]; unfold gets in *;
      cbn [app omap list_omap]; rewrite ?omap_app; cbn [omap list_omap];
      rewrite ?app_nil_r; exact Hjob. }
  destruct (generateActivityVideo_try env w activity db) as [[fx db0] [message|result]];
    cbn [fst snd] in *; [|exact Htry].
  destruct (catch_requests w message db0) as [_ [Hg _]].
  destruct (generateActivityVideo_catch w message db0) as [[fx' db''] result].
  cbn [fst snd] in *. unfold gets in *. rewrite omap_app, Hg, app_nil_r. exact Htry.
Qed.

(** ** The hook *)

(** X14.  Every call of the hook's [generateActivityVideo] that has set
    the state leaves the session ended: the last state it sets is not
    generating; it is [completed], with the returned URL and no error,
    when the call returns, and [failed], with an error text and no URL,
    when it throws.  The only call that sets no state is the one made
    without a user. *)
Theorem generate_ends_the_session env w activity customization state db :
  let run := Hook.generateActivityVideo env w activity customization state db in
  match Hook.outcome run with
  | inr (url, _, _) =>
      exists before last,
        Hook.states run = before ++ [last]
        /\ Hook.isGenerating last = false
        /\ Hook.currentStep last = Hook.completed
        /\ Hook.videoUrl last = url /\ truthy url = true
        /\ Hook.error last = None
  | inl message =>
      (Hook.states run = [] /\ Hook.hook_user w = None)
      \/ exists before last,
           Hook.states run = before ++ [last]
           /\ Hook.isGenerating last = false
           /\ Hook.currentStep last = Hook.failed
           /\ Hook.videoUrl last = None
           /\ is_Some (Hook.error last)
  end.
Proof.
  cbv zeta. unfold Hook.generateActivityVideo.
  destruct (Hook.hook_user w) as [user|]; [|left; split; reflexivity].
  destruct (negb (fst (getConfigStatus env))).
  { right. exists [], (Hook.set_not_configured (snd (getConfigStatus env))).
    repeat split. eexists; reflexivity. }
  destruct (Hook.hook_auth w) as [user'|].
  2:{ right. eexists [_], _. repeat split. eexists; reflexivity. }
  destruct (Hook.service_generateActivityVideo env (Hook.service_world w) activity
              (Hook.format customization) (Some (Hook.custom customization)) db)
    as [[fx db'] result].
  destruct (Hook.result_success result && truthy (Hook.result_videoUrl result)) eqn:Hok.
  - apply andb_true_iff in Hok as [_ Hu]. cbn [Hook.outcome Hook.states].
    eexists [_; _; _], _. repeat split. exact Hu.
  - right. eexists [_; _], _. repeat split. eexists; reflexivity.
Qed.

(** X15.  When the hook has no user, when the service is not configured,
    or when the hook's own lookup of the user fails, the call throws
    without calling the service: no row is written and no request is
    sent. *)
Theorem precondition_failure_has_no_effect env w activity customization state db :
  Hook.hook_user w = None \/ isConfigured env = false \/ Hook.hook_auth w = None ->
  let run := Hook.generateActivityVideo env w activity customization state db in
  Hook.effects run = []
  /\ Hook.table run = db
  /\ exists message, Hook.outcome run = inl message.
Proof.
  intros H. cbv zeta. unfold Hook.generateActivityVideo.
  destruct (Hook.hook_user w) as [user|]; [|repeat split; eexists; reflexivity].
  unfold getConfigStatus, isConfigured in *.
  destruct (String.eqb (service_apiKey env) ""); cbn [fst negb];
    [repeat split; eexists; reflexivity|].
  destruct (Hook.hook_auth w) as [user'|]; [|repeat split; eexists; reflexivity].
  destruct H as [H|[H|H]]; discriminate.
Qed.

Lemma precondition_failure_has_no_effect_witness :
  Hook.effects
    (Hook.generateActivityVideo env_replica_only
       {| Hook.hook_user := Some "u1"; Hook.hook_auth := Some "u1";
          Hook.service_world := world_accepting "r2" "v2" ticks_completed_at_once |}
       evening_walk square_video Hook.initial_state table_in_flight)
  = [].
Proof.
  refine (proj1 (precondition_failure_has_no_effect env_replica_only _ evening_walk
                   square_video Hook.initial_state table_in_flight _)).
  right. left. reflexivity.
Defined.

Lemma js_or_default_some m d : m <> "" -> js_or_default (Some m) d = m.
Proof.
  intros H. unfold js_or_default. destruct (String.eqb_spec m ""); [contradiction|reflexivity].
Qed.

(** X16.  The error text a call of the hook leaves in the state.  When
    the service is not configured, it is the text of [getConfigStatus]
    as it is.  When the service has submitted the job and its poll loop
    fails, the call throws the message of the poll loop, and the state
    has that message as [getEnhancedErrorMessage] rewrites it: both
    timeouts of the loop (the time limit and the attempt ceiling) become
    the text about high demand, and the failure the provider reports
    ([failed] or [error]) is kept as it is. *)
Theorem poll_failures_as_shown env w activity customization state db user :
  Hook.hook_user w = Some user ->
  let run := Hook.generateActivityVideo env w activity customization state db in
  (isConfigured env = false ->
   Hook.outcome run
   = inl "Tavus API key is missing. Please set EXPO_PUBLIC_TAVUS_API_KEY in your .env file."
   /\ Hook.error <$> last (Hook.states run)
      = Some (Some "Tavus API key is missing. Please set EXPO_PUBLIC_TAVUS_API_KEY in your .env file."))
  /\ (forall authUser owner new_id job st,
        isConfigured env = true ->
        Hook.hook_auth w = Some authUser ->
        auth_try (Hook.service_world w) = Some owner ->
        insert_reply (Hook.service_world w) = inr new_id ->
        db !! new_id = None ->
        post_reply (Hook.service_world w) = PostOk job st ->
        let poll := snd (pollVideoCompletionEnhanced POLLING_CONFIG (service_apiKey env) job
                           (poll_start (Hook.service_world w))
                           (poll_ticks (Hook.service_world w))) in
        success poll = false ->
        exists message,
          error poll = Some message
          /\ Hook.outcome run = inl message
          /\ Hook.error <$> last (Hook.states run)
             = Some (Some (Hook.getEnhancedErrorMessage message))
          /\ ((exists attempts elapsedTime,
                  poll = timeout_result job attempts elapsedTime
                  \/ poll = max_attempts_result POLLING_CONFIG job attempts) ->
              Hook.getEnhancedErrorMessage message
              = "Video generation is taking longer than expected due to high demand. This is normal during peak usage periods. Try again during off-peak hours (early morning/late evening) for faster processing.")
          /\ (forall attempts elapsedTime s,
                poll = provider_failed_result job attempts elapsedTime s ->
                s = st_failed \/ s = st_error ->
                Hook.getEnhancedErrorMessage message = message)).
Proof.
  intros Hu. cbv zeta. split.
  - intros Hc. unfold Hook.generateActivityVideo. rewrite Hu.
    unfold getConfigStatus, isConfigured in *.
    destruct (String.eqb (service_apiKey env) ""); [|discriminate Hc].
    split; reflexivity.
  - intros authUser owner new_id job st Hc Ha Ht Hi Hl Hp Hs.
    pose proof (loop_result_well_formed POLLING_CONFIG (service_apiKey env) job
                  (poll_start (Hook.service_world w)) (poll_ticks (Hook.service_world w))
                  (maxAttempts POLLING_CONFIG) (poll_init POLLING_CONFIG)) as Hwf.
    fold (pollVideoCompletionEnhanced POLLING_CONFIG (service_apiKey env) job
            (poll_start (Hook.service_world w)) (poll_ticks (Hook.service_world w))) in Hwf.
    unfold well_formed_result in Hwf. rewrite Hs in Hwf.
    destruct Hwf as [_ [message [Hm Hne]]].
    exists message. split; [exact Hm|].
    assert (Hrun : Hook.generateActivityVideo env w activity customization state db
                   = {| Hook.states :=
                          [Hook.set_started state;
                           Hook.set_requesting (Hook.set_started state);
                           Hook.set_failed message
                             (Hook.set_requesting (Hook.set_started state))];
                        Hook.effects := Hook.effects
                          (Hook.generateActivityVideo env w activity customization state db);
                        Hook.table := Hook.table
                          (Hook.generateActivityVideo env w activity customization state db);
                        Hook.outcome := inl message |}).
    { unfold Hook.generateActivityVideo. rewrite Hu, Ha.
      unfold getConfigStatus. unfold isConfigured in Hc.
      destruct (String.eqb (service_apiKey env) "") eqn:Ek; [discriminate Hc|].
      cbn [fst snd negb]. unfold Hook.service_generateActivityVideo.
      rewrite (run_configured env) by (unfold isConfigured; rewrite Ek; reflexivity).
      rewrite (try_after_insert env _ activity db owner new_id Ht Hi Hl), Hp.
      cbv zeta. rewrite Hs. cbn [andb]. rewrite Hm, (js_or_default_some message) by exact Hne.
      unfold generateActivityVideo_catch.
      destruct (auth_catch (Hook.service_world w)); cbn [fst snd];
        unfold Hook.result_success, Hook.result_videoUrl, Hook.result_error, failure;
        cbn [success videoUrl error andb];
        rewrite (js_or_default_some message) by exact Hne; reflexivity. }
    rewrite Hrun. cbn [Hook.outcome Hook.states]. split; [reflexivity|].
    split; [reflexivity|]. split.
    + intros [attempts [elapsedTime [E|E]]]; rewrite E in Hm; cbn [error timeout_result
        max_attempts_result] in Hm; injection Hm as <-; reflexivity.
    + intros attempts elapsedTime s E Hst. rewrite E in Hm.
      cbn [error provider_failed_result] in Hm. injection Hm as <-.
      destruct Hst as [-> | ->]; reflexivity.
Qed.

Lemma poll_failures_as_shown_witness :
  Hook.error
    <$> last (Hook.states
                (Hook.generateActivityVideo env_key_only hook_world_failing morning_run
                   square_video Hook.initial_state ∅))
  = Some (Some "Video generation failed with status: failed").
Proof.
  assert (Hfresh : (∅ : Table) !! "r1" = None) by reflexivity.
  assert (Hfails : success
                     (snd (pollVideoCompletionEnhanced POLLING_CONFIG
                             (service_apiKey env_key_only) "v1" 0 ticks_fail_on_third))
                   = false) by (vm_compute; reflexivity).
  destruct (proj2 (poll_failures_as_shown env_key_only hook_world_failing morning_run
                     square_video Hook.initial_state ∅ "u1" eq_refl)
              "u1" "u1" "r1" "v1" (Some "queued") eq_refl eq_refl eq_refl eq_refl
              Hfresh eq_refl Hfails)
    as [message [Hm [_ [Hshown [_ Hkept]]]]].
  rewrite Hshown.
  rewrite (Hkept 3%nat 0 st_failed); [|vm_compute; reflexivity|left; reflexivity].
  vm_compute in Hm. injection Hm as <-. reflexivity.
Defined.

(** X17.  A tick of the interval never makes the remaining time negative
    and, when the clock is not behind the start time, never makes it
    larger: after a tick of a generating session the remaining time is
    between 0 and what it was, and the elapsed time is the whole seconds
    since the start time.  When the session is not generating, as after
    the end of a call or after [resetState], a tick changes nothing. *)
Theorem tick_counts_down startTime now state :
  (Hook.isGenerating state = true ->
   startTime <= now ->
   0 <= Hook.estimatedTimeRemaining state ->
   let after := Hook.updateProgress startTime now state in
   0 <= Hook.estimatedTimeRemaining after <= Hook.estimatedTimeRemaining state
   /\ Hook.elapsedTime after = (now - startTime) / 1000
   /\ 0 <= Hook.elapsedTime after
   /\ Hook.estimatedTimeRemaining after
      = Z.max 0 (Hook.estimatedTimeRemaining state - Hook.elapsedTime after))
  /\ (forall e prev, Hook.updateProgress startTime now (finish e prev) = finish e prev)
  /\ (forall prev, Hook.updateProgress startTime now (Hook.resetState prev)
                   = Hook.resetState prev).
Proof.
  split; [|split].
  - intros Hg Hle Hr. cbv zeta. unfold Hook.updateProgress. rewrite Hg. cbn.
    assert (0 <= (now - startTime) / 1000) by (apply Z.div_pos; lia).
    repeat split; lia.
  - intros [result|message] prev; reflexivity.
  - reflexivity.
Qed.

Lemma tick_counts_down_witness :
  0 <= Hook.estimatedTimeRemaining (Hook.updateProgress 0 61000 state_in_flight) <= 480.
Proof.
  refine (proj1 (proj1 (tick_counts_down 0 61000 state_in_flight) _ _ _)).
  - reflexivity.
  - lia.
  - vm_compute. discriminate.
Defined.

(** A number below 60 is written with one or two digits. *)
Lemma two_digits r :
  0 <= r < 60 ->
  String.length (padStart2 (string_of_Z r)) = 2%nat
  /\ (padStart2 (string_of_Z r) = string_of_Z r
      \/ padStart2 (string_of_Z r) = "0" +:+ string_of_Z r).
Proof.
  intros Hr.
  assert (Hall : forallb (fun n =>
                   (String.length (padStart2 (string_of_Z (Z.of_nat n))) =? 2)%nat
                   && (String.eqb (padStart2 (string_of_Z (Z.of_nat n)))
                         (string_of_Z (Z.of_nat n))
                       || String.eqb (padStart2 (string_of_Z (Z.of_nat n)))
                            ("0" +:+ string_of_Z (Z.of_nat n))))
                   (seq 0 60) = true) by (vm_compute; reflexivity).
  rewrite forallb_forall in Hall. specialize (Hall (Z.to_nat r)).
  rewrite Z2Nat.id in Hall by lia.
  assert (Hin : In (Z.to_nat r) (seq 0 60)) by (apply in_seq; lia).
  apply Hall in Hin. apply andb_true_iff in Hin as [Hlen Hor].
  split; [apply Nat.eqb_eq, Hlen|].
  apply orb_true_iff in Hor as [H|H]; apply String.eqb_eq in H; auto.
Qed.

(** X18.  For a time that is not negative, the text "m:ss" of
    [formatElapsedTime] is the whole minutes, a colon, and the seconds
    below 60 written with exactly two characters, padded with a zero;
    minutes and seconds add up to the time.
    [formatEstimatedTimeRemaining] shows a positive remaining time in the
    same way, between "~" and " remaining", unless the peak flag is set
    and more than 240 seconds remain. *)
Theorem minutes_seconds_shape t :
  0 <= t ->
  exists seconds,
    minutes_seconds t = string_of_Z (t / 60) +:+ ":" +:+ seconds
    /\ String.length seconds = 2%nat
    /\ (seconds = string_of_Z (t mod 60) \/ seconds = "0" +:+ string_of_Z (t mod 60))
    /\ 0 <= t mod 60 < 60
    /\ 60 * (t / 60) + t mod 60 = t
    /\ (forall state, Hook.elapsedTime state = t ->
          formatElapsedTime state = string_of_Z (t / 60) +:+ ":" +:+ seconds)
    /\ (forall state, Hook.estimatedTimeRemaining state = t -> 0 < t ->
          Hook.isPeakUsage state = false \/ t <= 240 ->
          formatEstimatedTimeRemaining state
          = "~" +:+ (string_of_Z (t / 60) +:+ ":" +:+ seconds) +:+ " remaining").
Proof.
  intros Ht. unfold minutes_seconds.
  rewrite Z.rem_mod_nonneg by lia.
  assert (Hm : 0 <= t mod 60 < 60) by (apply Z.mod_pos_bound; lia).
  destruct (two_digits (t mod 60) Hm) as [Hlen Hor].
  exists (padStart2 (string_of_Z (t mod 60))).
  repeat split; try assumption; try lia.
  - pose proof (Z.div_mod t 60). lia.
  - intros state <-. unfold formatElapsedTime, minutes_seconds.
    rewrite Z.rem_mod_nonneg by lia. reflexivity.
  - intros state <- Hpos Hpeak. unfold formatEstimatedTimeRemaining, minutes_seconds.
    rewrite Z.rem_mod_nonneg by lia.
    destruct (Z.leb_spec (Hook.estimatedTimeRemaining state) 0); [lia|].
    destruct Hpeak as [-> | Hle]; [reflexivity|].
    destruct (Z.ltb_spec 240 (Hook.estimatedTimeRemaining state)); [lia|].
    rewrite andb_false_r. reflexivity.
Qed.

Lemma minutes_seconds_shape_witness :
  exists seconds,
    minutes_seconds 125 = string_of_Z (125 / 60) +:+ ":" +:+ seconds
    /\ String.length seconds = 2%nat
    /\ (seconds = string_of_Z (125 mod 60) \/ seconds = "0" +:+ string_of_Z (125 mod 60))
    /\ 0 <= 125 mod 60 < 60
    /\ 60 * (125 / 60) + 125 mod 60 = 125
    /\ (forall state, Hook.elapsedTime state = 125 ->
          formatElapsedTime state = string_of_Z (125 / 60) +:+ ":" +:+ seconds)
    /\ (forall state, Hook.estimatedTimeRemaining state = 125 -> 0 < 125 ->
          Hook.isPeakUsage state = false \/ 125 <= 240 ->
          formatEstimatedTimeRemaining state
          = "~" +:+ (string_of_Z (125 / 60) +:+ ":" +:+ seconds) +:+ " remaining").
Proof. apply (minutes_seconds_shape 125). lia. Defined.

(** X19.  The message a tick sets while the step is [processing] depends
    on the elapsed seconds only: below 30 "Starting", below 90 "Added to
    processing queue", below 120 "Waiting in queue", at 120 exactly
    "Processing your video", from 121 to 239 "Still queued", from 240 to
    359 "Processing your video" again, and from 360 on "Almost
    complete". *)
Theorem tick_message startTime now state :
  Hook.isGenerating state = true ->
  Hook.currentStep state = Hook.processing ->
  let elapsed := (now - startTime) / 1000 in
  Hook.progress (Hook.updateProgress startTime now state)
  = if elapsed <? 30 then "Starting video generation..."
    else if elapsed <? 90 then "Added to processing queue..."
    else if elapsed <? 120 then "Waiting in queue - this is normal during peak hours..."
    else if elapsed =? 120 then "Processing your video - AI generation in progress..."
    else if elapsed <? 240 then "Still queued - experiencing high demand..."
    else if elapsed <? 360 then "Processing your video - AI generation in progress..."
    else "Almost complete - finalizing your achievement video...".
Proof.
  intros Hg Hs. cbv zeta. unfold Hook.updateProgress. rewrite Hg. cbn [negb Hook.progress].
  rewrite Hs. unfold Hook.getProgressMessage.
  set (e := (now - startTime) / 1000).
  destruct (Z.ltb_spec e 30); [reflexivity|].
  destruct (Z.ltb_spec e 90); [reflexivity|].
  destruct (Z.ltb_spec e 120); [reflexivity|].
  destruct (Z.eqb_spec e 120) as [->|Hne]; [reflexivity|].
  destruct (Z.ltb_spec e 240).
  - destruct (Z.ltb_spec 120 e); [reflexivity|lia].
  - reflexivity.
Qed.

Lemma tick_message_witness :
  Hook.progress (Hook.updateProgress 0 120000 state_in_flight)
  = "Processing your video - AI generation in progress...".
Proof.
  exact (tick_message 0 120000 state_in_flight eq_refl eq_refl).
Defined.

(** ** [tavusTestService.ts] *)

(** X20.  [testTavusConnection] sends its request exactly when
    [validateTavusEnvironment] finds the environment valid, that is when
    both the API key and the replica id are set and not empty; the body
    then has the two keys [replica_id] and [script], with the replica id
    of the environment and no fallback.  Otherwise nothing is sent, the
    test fails and [validateTavusEnvironment] lists at least one issue.
    (The service itself counts as configured with the API key alone.) *)
Theorem test_connection_needs_both_variables env r :
  fst (validateTavusEnvironment env)
  = truthy (EXPO_PUBLIC_TAVUS_API_KEY env) && truthy (EXPO_PUBLIC_TAVUS_REPLICA_ID env)
  /\ isConfigured env = truthy (EXPO_PUBLIC_TAVUS_API_KEY env)
  /\ if fst (validateTavusEnvironment env)
     then exists replicaId,
            EXPO_PUBLIC_TAVUS_REPLICA_ID env = Some replicaId
            /\ snd (validateTavusEnvironment env) = []
            /\ fst (testTavusConnection env r)
               = [HttpPost "https://tavusapi.com/v2/videos" (minimalRequest replicaId)]
            /\ keys (minimalRequest replicaId) = ["replica_id"; "script"]
            /\ has_null (minimalRequest replicaId) = false
     else fst (testTavusConnection env r) = []
          /\ test_success (snd (testTavusConnection env r)) = false
          /\ snd (validateTavusEnvironment env) <> [].
Proof.
  unfold validateTavusEnvironment, testTavusConnection, isConfigured, service_apiKey.
  destruct env as [key replica]. cbn [EXPO_PUBLIC_TAVUS_API_KEY EXPO_PUBLIC_TAVUS_REPLICA_ID].
  assert (Hk : negb (String.eqb (js_or_default key "") "") = truthy key).
  { destruct key as [k|]; [|reflexivity]. cbn. destruct (String.eqb k "") eqn:E;
      [reflexivity|]. cbn. rewrite E. reflexivity. }
  split; [|split; [exact Hk|]].
  - destruct (truthy key), (truthy replica); reflexivity.
  - destruct (truthy key) eqn:Ek; destruct (truthy replica) eqn:Er; cbn.
    + destruct replica as [s|]; [|discriminate]. exists s.
      unfold truthy in Er. destruct (String.eqb s "") eqn:Es; [discriminate|].
      cbn [js_or_default]. rewrite Es.
      repeat split; destruct r as [ok code text parsed|m]; try reflexivity;
        destruct ok; try reflexivity; destruct parsed as [m|[v st]]; reflexivity.
    + repeat split. discriminate.
    + repeat split. discriminate.
    + repeat split. discriminate.
Qed.

(** ** The video library *)

Lemma count_cons p v videos :
  VideoLibrary.count p (v :: videos)
  = ((if p v then 1 else 0) + VideoLibrary.count p videos)%nat.
Proof. unfold VideoLibrary.count. cbn. destruct (p v); reflexivity. Qed.

Lemma count_le p q videos :
  (forall v, p v = true -> q v = true) ->
  (VideoLibrary.count p videos <= VideoLibrary.count q videos)%nat.
Proof.
  intros H. induction videos as [|v videos IH]; [reflexivity|].
  rewrite !count_cons. specialize (H v).
  destruct (p v); [rewrite H by reflexivity; lia|destruct (q v); lia].
Qed.

Lemma count_le_length p videos : (VideoLibrary.count p videos <= length videos)%nat.
Proof.
  induction videos as [|v videos IH]; [reflexivity|].
  rewrite count_cons. cbn [length]. destruct (p v); lia.
Qed.

(** X21.  The numbers of [getVideoStats] add up: every video is counted
    once as completed, as processing (which includes pending) or as
    failed; the videos of the last week are among those of the last
    month, which are among all; and the processing number is the number
    of videos [getVideosByStatus] gives for [processing] and for
    [pending] together. *)
Theorem video_stats_add_up now videos :
  let stats := VideoLibrary.getVideoStats now videos in
  (VideoLibrary.completedVideos stats + VideoLibrary.processingVideos stats
   + VideoLibrary.failedVideos stats = VideoLibrary.totalVideos stats)%nat
  /\ (VideoLibrary.thisWeek stats <= VideoLibrary.thisMonth stats)%nat
  /\ (VideoLibrary.thisMonth stats <= VideoLibrary.totalVideos stats)%nat
  /\ (VideoLibrary.processingVideos stats
      = length (VideoLibrary.getVideosByStatus rec_processing videos)
        + length (VideoLibrary.getVideosByStatus rec_pending videos))%nat.
Proof.
  cbv zeta. unfold VideoLibrary.getVideoStats.
  cbn [VideoLibrary.completedVideos VideoLibrary.processingVideos VideoLibrary.failedVideos
       VideoLibrary.totalVideos VideoLibrary.thisWeek VideoLibrary.thisMonth].
  split; [|split; [|split]]; cycle 3.
  - unfold VideoLibrary.getVideosByStatus.
    change (VideoLibrary.count
              (fun v => VideoLibrary.is_status rec_processing v
                        || VideoLibrary.is_status rec_pending v) videos
            = (VideoLibrary.count (VideoLibrary.is_status rec_processing) videos
               + VideoLibrary.count (VideoLibrary.is_status rec_pending) videos)%nat).
    induction videos as [|v videos IH]; [reflexivity|].
    rewrite !count_cons, IH. cbv beta. unfold VideoLibrary.is_status.
    destruct (VideoLibrary.status v); repeat case_bool_decide; try congruence; cbn; lia.
  - assert (Hv : forall v,
               ((if VideoLibrary.is_status rec_completed v then 1 else 0)
                + (if VideoLibrary.is_status rec_processing v
                      || VideoLibrary.is_status rec_pending v then 1 else 0)
                + (if VideoLibrary.is_status rec_failed v then 1 else 0) = 1)%nat).
    { intros v. unfold VideoLibrary.is_status.
      destruct (VideoLibrary.status v); repeat case_bool_decide; try congruence; reflexivity. }
    induction videos as [|v videos IH]; [reflexivity|].
    rewrite !count_cons. cbv beta. cbn [length]. specialize (Hv v). lia.
  - apply count_le. intros v H. apply Z.ltb_lt in H. apply Z.ltb_lt. lia.
  - apply count_le_length.
Qed.

(** X22.  After a video has been deleted, the local list no longer finds
    it; every other video is found as before; and the list has become
    shorter by the number of entries with that id. *)
Theorem deleted_video_is_gone videoId videos :
  VideoLibrary.getVideoById videoId (VideoLibrary.deleteVideo_local videoId videos) = None
  /\ (forall other, other <> videoId ->
        VideoLibrary.getVideoById other (VideoLibrary.deleteVideo_local videoId videos)
        = VideoLibrary.getVideoById other videos)
  /\ (length (VideoLibrary.deleteVideo_local videoId videos)
      + VideoLibrary.count (fun v => String.eqb (VideoLibrary.id v) videoId) videos
      = length videos)%nat.
Proof.
  unfold VideoLibrary.getVideoById, VideoLibrary.deleteVideo_local.
  split; [|split].
  - induction videos as [|v videos IH]; [reflexivity|]. cbn.
    destruct (String.eqb (VideoLibrary.id v) videoId) eqn:E; cbn; [exact IH|].
    rewrite E. exact IH.
  - intros other Hne. induction videos as [|v videos IH]; [reflexivity|]. cbn.
    destruct (String.eqb_spec (VideoLibrary.id v) videoId) as [Hid|Hid]; cbn.
    + rewrite IH. destruct (String.eqb_spec (VideoLibrary.id v) other); [congruence|reflexivity].
    + destruct (String.eqb (VideoLibrary.id v) other); [reflexivity|exact IH].
  - induction videos as [|v videos IH]; [reflexivity|].
    rewrite count_cons. cbn.
    destruct (String.eqb (VideoLibrary.id v) videoId); cbn; lia.
Qed.

Lemma deleted_video_is_gone_witness :
  VideoLibrary.getVideoById "r1" (VideoLibrary.deleteVideo_local "r2" three_videos)
  = VideoLibrary.getVideoById "r1" three_videos.
Proof.
  refine (proj1 (proj2 (deleted_video_is_gone "r2" three_videos)) "r1" _).
  discriminate.
Defined.

(** X23.  Renaming a video changes titles only: the list keeps its
    length, the statistics stay the same, a video with another id is
    found unchanged, and the renamed video is found with the new title. *)
Theorem renamed_video_keeps_the_rest videoId newTitle videos now :
  length (VideoLibrary.updateVideoTitle_local videoId newTitle videos) = length videos
  /\ VideoLibrary.getVideoStats now (VideoLibrary.updateVideoTitle_local videoId newTitle videos)
     = VideoLibrary.getVideoStats now videos
  /\ (forall other, other <> videoId ->
        VideoLibrary.getVideoById other
          (VideoLibrary.updateVideoTitle_local videoId newTitle videos)
        = VideoLibrary.getVideoById other videos)
  /\ VideoLibrary.title
       <$> VideoLibrary.getVideoById videoId
             (VideoLibrary.updateVideoTitle_local videoId newTitle videos)
     = (fun _ => newTitle) <$> VideoLibrary.getVideoById videoId videos.
Proof.
  unfold VideoLibrary.updateVideoTitle_local.
  split; [apply length_map|]. split; [|split].
  - unfold VideoLibrary.getVideoStats. rewrite length_map.
    assert (Hc : forall p : VideoLibrary.VideoLibraryItem -> bool,
               (forall v t, p (VideoLibrary.with_title t v) = p v) ->
               forall l,
                 VideoLibrary.count p
                   (map (fun v => if String.eqb (VideoLibrary.id v) videoId
                                  then VideoLibrary.with_title newTitle v else v) l)
                 = VideoLibrary.count p l).
    { intros p Hp l. induction l as [|v l IH]; [reflexivity|].
      cbn [map]. rewrite !count_cons, IH.
      destruct (String.eqb (VideoLibrary.id v) videoId); [rewrite Hp|]; reflexivity. }
    rewrite !Hc by reflexivity. f_equal.
    set (add := fun (sum : Z) (v : VideoLibrary.VideoLibraryItem) =>
                  sum + match VideoLibrary.duration v with Some d => d | None => 0 end).
    generalize 0. induction videos as [|v videos IH]; intros z; [reflexivity|].
    cbn [map fold_left]. rewrite IH. f_equal.
    destruct (String.eqb (VideoLibrary.id v) videoId); reflexivity.
  - intros other Hne. unfold VideoLibrary.getVideoById.
    induction videos as [|v videos IH]; [reflexivity|]. cbn [map find].
    destruct (String.eqb_spec (VideoLibrary.id v) videoId) as [Hid|Hid];
      cbn [VideoLibrary.id VideoLibrary.with_title].
    + destruct (String.eqb_spec (VideoLibrary.id v) other); [congruence|exact IH].
    + destruct (String.eqb (VideoLibrary.id v) other); [reflexivity|exact IH].
  - unfold VideoLibrary.getVideoById.
    induction videos as [|v videos IH]; [reflexivity|]. cbn [map find].
    destruct (String.eqb (VideoLibrary.id v) videoId) eqn:E; cbn [VideoLibrary.id VideoLibrary.with_title].
    + rewrite E. reflexivity.
    + rewrite E. exact IH.
Qed.

Lemma renamed_video_keeps_the_rest_witness :
  VideoLibrary.getVideoById "r1" (VideoLibrary.updateVideoTitle_local "r2" "My best run" three_videos)
  = VideoLibrary.getVideoById "r1" three_videos.
Proof.
  refine (proj1 (proj2 (proj2 (renamed_video_keeps_the_rest "r2" "My best run"
                                 three_videos 0))) "r1" _).
  discriminate.
Defined.

(** ** The usage limits *)

(** X24.  A user may generate while fewer than three successful Tavus
    video generations are on record: [canGenerate] is true exactly when
    their number is below 3, the remaining count is 3 minus that number
    and never below 0, and records of other services, other request
    types or other outcomes do not count. *)
Theorem usage_limit_is_three data :
  let limits := ApiUsage.limits_of data in
  ApiUsage.maxVideoGenerations limits = 3
  /\ ApiUsage.currentCount limits
     = Z.of_nat (length (List.filter ApiUsage.is_video_generation data))
  /\ ApiUsage.canGenerate limits = (ApiUsage.currentCount limits <? 3)
  /\ ApiUsage.remainingCount limits = Z.max 0 (3 - ApiUsage.currentCount limits)
  /\ 0 <= ApiUsage.remainingCount limits <= 3
  /\ (forall r, ApiUsage.is_video_generation r = false ->
                ApiUsage.limits_of (r :: data) = ApiUsage.limits_of data)
  /\ (forall r, ApiUsage.is_video_generation r = true ->
                ApiUsage.currentCount (ApiUsage.limits_of (r :: data))
                = ApiUsage.currentCount limits + 1).
Proof.
  cbv zeta. unfold ApiUsage.limits_of.
  cbn [ApiUsage.maxVideoGenerations ApiUsage.currentCount ApiUsage.canGenerate
       ApiUsage.remainingCount].
  set (n := Z.of_nat (length (List.filter ApiUsage.is_video_generation data))).
  assert (0 <= n) by (unfold n; lia).
  repeat split; try lia.
  - intros r Hr. cbn [List.filter]. rewrite Hr. reflexivity.
  - intros r Hr. cbn [List.filter]. rewrite Hr. cbn [length]. unfold n. lia.
Qed.

Lemma usage_limit_is_three_witness :
  ApiUsage.limits_of [usage "tavus" "video_generation" "error";
                      usage "tavus" "video_generation" "success"]
  = ApiUsage.limits_of [usage "tavus" "video_generation" "success"].
Proof.
  refine (proj1 (proj2 (proj2 (proj2 (proj2 (proj2
            (usage_limit_is_three [usage "tavus" "video_generation" "success"]))))))
            (usage "tavus" "video_generation" "error") _).
  reflexivity.
Defined.

(** X25.  The success rate is a percentage: it is between 0 and 100, and
    it is 0 when there is no record to look at.  The rate of a service
    with a non-empty name is the rate of all records of
    [getUsageByService] for it; with the empty name, as with none, it is
    the rate of all records. *)
Theorem success_rate_is_a_percentage service usageRecords :
  (0 <= ApiUsage.getSuccessRate service usageRecords)%Q
  /\ (ApiUsage.getSuccessRate service usageRecords <= 100)%Q
  /\ ApiUsage.getSuccessRate service [] = 0%Q
  /\ (forall name, service = Some name -> name <> "" ->
        ApiUsage.getSuccessRate service usageRecords
        = ApiUsage.getSuccessRate None (ApiUsage.getUsageByService name usageRecords))
  /\ ApiUsage.getSuccessRate (Some "") usageRecords
     = ApiUsage.getSuccessRate None usageRecords.
Proof.
  assert (Hrate : forall l : list ApiUsage.ApiUsageRecord,
             (0 <= match l with
                   | [] => 0
                   | _ => inject_Z (Z.of_nat (length (List.filter
                                     (fun r => String.eqb (ApiUsage.response_status r) "success") l)))
                          / inject_Z (Z.of_nat (length l)) * 100
                   end <= 100)%Q).
  { intros l. destruct l as [|r l]; [split; discriminate|].
    set (all := r :: l).
    set (s := length (List.filter
                        (fun r => String.eqb (ApiUsage.response_status r) "success") all)).
    assert (Hs : (s <= length all)%nat) by apply filter_length_le.
    assert (Hpos : (0 < inject_Z (Z.of_nat (length all)))%Q).
    { replace 0%Q with (inject_Z 0) by reflexivity. rewrite <- Zlt_Qlt. cbn [all length]. lia. }
    assert (H0 : (0 <= inject_Z (Z.of_nat s))%Q).
    { replace 0%Q with (inject_Z 0) by reflexivity. rewrite <- Zle_Qle. lia. }
    assert (H1 : (inject_Z (Z.of_nat s) <= inject_Z (Z.of_nat (length all)))%Q).
    { rewrite <- Zle_Qle. lia. }
    split.
    - apply Qmult_le_0_compat; [|discriminate].
      apply Qle_shift_div_l; [exact Hpos|]. lra.
    - assert (Hd : (inject_Z (Z.of_nat s) / inject_Z (Z.of_nat (length all)) <= 1)%Q).
      { apply Qle_shift_div_r; [exact Hpos|]. lra. }
      lra. }
  unfold ApiUsage.getSuccessRate. split; [|split; [|split; [|split]]].
  - apply Hrate.
  - apply Hrate.
  - cbn. destruct (truthy service); reflexivity.
  - intros name -> Hname. unfold ApiUsage.getUsageByService.
    cbn [truthy js_or_default].
    destruct (String.eqb_spec name "") as [E|_]; [contradiction|]. reflexivity.
  - reflexivity.
Qed.

Lemma success_rate_is_a_percentage_witness :
  ApiUsage.getSuccessRate (Some "tavus")
    [usage "tavus" "video_generation" "error"; usage "openai" "script" "success"]
  = ApiUsage.getSuccessRate None
      (ApiUsage.getUsageByService "tavus"
         [usage "tavus" "video_generation" "error"; usage "openai" "script" "success"]).
Proof.
  refine (proj1 (proj2 (proj2 (proj2
            (success_rate_is_a_percentage (Some "tavus")
               [usage "tavus" "video_generation" "error"; usage "openai" "script" "success"]))))
            "tavus" eq_refl _).
  discriminate.
Defined.
